(** * OpenposeCanvas: the entity graph and the revision manager

    A shallow embedding of [entities.js] (Entity, Keypoint, Bone, Limb,
    Drawable, DistortableImage, Person, Scene, PoseLayer), of the layer-aware
    [revision_manager.js] and of the export validation of [openpose-probe.js]
    (SkeletonDataAccess), followed by the properties of the specification.

    Modelling conventions.
    - JavaScript objects live in heaps: entities, lock cells
      ([_stateChangeLock] objects), Konva layers, pose layers and the layer
      states of the revision manager are lists indexed by reference, so that
      aliasing (a lock cell shared by a subtree, a layer state shared by the
      layer snapshot and a history record) is kept.
    - Numbers are IEEE 754 binary64 values ([float]); [null] is [None].
    - A method is a state transformer that may throw: [M A].  The awaits of the
      asynchronous methods are run to completion in program order.
    - Recursion along [parent] or [children] is bounded by the heap size; the
      constructors only ever link a new object below an existing one, so the
      bound is never reached on a heap built by them.
    - [crypto.randomUUID()] is a counter: every call returns a value never
      returned before.
    - Konva is an external collaborator.  A shape is the record of the
      attributes the entity code sets on it; Konva's own change events, z
      ordering and drawing are not modelled.
    - Property names (keypoint names, child names) are assumed not to be
      canonical array indices nor members of [Object.prototype], so that a
      plain object used as a dictionary is an insertion ordered association
      list. *)

From Stdlib Require Import Floats.PrimFloat ZArith Lia.
From Stdlib Require Floats.FloatAxioms.
From stdpp Require Import base option list strings pretty.

Set Default Proof Using "Type".
Local Open Scope string_scope.
Local Open Scope Z_scope.
Local Open Scope nat_scope.
Local Open Scope list_scope.

(** ** JavaScript values *)

(** A number or [null]. *)
Definition coord := option float.

(** [ToNumber]: [null] converts to [+0]. *)
Definition to_number (c : coord) : float := from_option id 0%float c.

Definition is_nan (f : float) : bool := negb (PrimFloat.eqb f f).
Definition is_finite (f : float) : bool := PrimFloat.ltb (PrimFloat.abs f) infinity.

(** Truthiness of a number: neither zero nor NaN. *)
Definition truthy_num (f : float) : bool := negb (PrimFloat.eqb f 0%float) && negb (is_nan f).
Definition truthy_coord (c : coord) : bool := from_option truthy_num false c.
Definition truthy_str (s : string) : bool := negb (String.eqb s "").
Definition truthy_ostr (s : option string) : bool := from_option truthy_str false s.

(** [JSON.stringify(a) !== JSON.stringify(b)] on numbers: a number
    that is not finite prints as [null], and [-0] prints as [0]. *)
Definition json_num_eq (a b : float) : bool :=
  if is_finite a then is_finite b && PrimFloat.eqb a b else negb (is_finite b).
Definition json_coord_eq (a b : coord) : bool :=
  match a, b with
  | None, None => true
  | Some x, None => negb (is_finite x)
  | None, Some y => negb (is_finite y)
  | Some x, Some y => json_num_eq x y
  end.

Record Pos := mkPos { pos_x : coord; pos_y : coord }.
Record BBox := mkBBox { bb_x : coord; bb_y : coord; bb_width : coord; bb_height : coord }.

Definition json_pos_eq (a b : option Pos) : bool :=
  match a, b with
  | None, None => true
  | Some p, Some q => json_coord_eq (pos_x p) (pos_x q) && json_coord_eq (pos_y p) (pos_y q)
  | _, _ => false
  end.

Definition obool_eqb (a b : option bool) : bool :=
  match a, b with
  | None, None => true
  | Some x, Some y => Bool.eqb x y
  | _, _ => false
  end.
Definition ostr_eqb (a b : option string) : bool :=
  match a, b with
  | None, None => true
  | Some x, Some y => String.eqb x y
  | _, _ => false
  end.

(** ** Objects used as dictionaries, and [Map]s *)

Section Dict.
Context {K V : Type} (eqb : K -> K -> bool).

Fixpoint dict_get (k : K) (d : list (K * V)) : option V :=
  match d with
  | [] => None
  | (k', v) :: d' => if eqb k k' then Some v else dict_get k d'
  end.

(** [d[k] = v]: an existing key keeps its place. *)
Fixpoint dict_set (k : K) (v : V) (d : list (K * V)) : list (K * V) :=
  match d with
  | [] => [(k, v)]
  | (k', v') :: d' => if eqb k k' then (k, v) :: d' else (k', v') :: dict_set k v d'
  end.

Definition dict_delete (k : K) (d : list (K * V)) : list (K * V) :=
  filter (fun kv => eqb k kv.1 = false) d.

Definition dict_has (k : K) (d : list (K * V)) : bool :=
  match dict_get k d with Some _ => true | None => false end.

Definition dict_keys (d : list (K * V)) : list K := d.*1.
End Dict.

Abbreviation sget := (dict_get String.eqb).
Abbreviation sset := (dict_set String.eqb).
Abbreviation shas := (dict_has String.eqb).
Abbreviation nget := (dict_get Nat.eqb).
Abbreviation nset := (dict_set Nat.eqb).
Abbreviation ndelete := (dict_delete Nat.eqb).

(** [Array.prototype.indexOf] and [includes] on references. *)
Fixpoint indexOf (x : nat) (l : list nat) : option nat :=
  match l with
  | [] => None
  | y :: l' => if Nat.eqb x y then Some 0 else S <$> indexOf x l'
  end.
Definition includes (x : nat) (l : list nat) : bool := existsb (Nat.eqb x) l.

(** [l.splice(i, 1)]. *)
Definition splice1 {A} (i : nat) (l : list A) : list A := take i l ++ drop (S i) l.
(** [l.splice(i, 0, x)]. *)
Definition splice_in {A} (i : nat) (x : A) (l : list A) : list A := take i l ++ x :: drop i l.

(** ** References *)

Abbreviation eid := nat.      (* an Entity *)
Abbreviation cellid := nat.   (* a [_stateChangeLock] object *)
Abbreviation lref := nat.     (* a Konva.Layer *)
Abbreviation plref := nat.    (* a PoseLayer *)
Abbreviation lsref := nat.    (* a layer state of the revision manager *)
Abbreviation Uuid := nat.

(** ** Konva shapes and layers *)

Inductive attr := ANull | AStr (s : string) | ANum (f : float).
Definition attr_of_color (c : option string) : attr := from_option AStr ANull c.
Definition attr_of_width (c : option float) : attr := from_option ANum ANull c.

Inductive ShapeClass := Point | Line | Image.

Record Shape := mkShape {
  sh_class : ShapeClass;
  sh_name : string;
  sh_pos : option Pos;
  sh_fill : attr;
  sh_stroke : attr;
  sh_strokeWidth : attr;
  sh_radius : float;
  sh_visible : bool;
  sh_layer : option lref;
  sh_points : list coord
}.

Record KLayer := mkKLayer {
  kl_id : string;
  kl_name : string;
  kl_visible : bool;
  kl_opacity : float;
  kl_destroyed : bool
}.

(** ** Entities *)

Inductive DrawableClass := CDrawable | CPerson | CDistortableImage.

#[global] Instance DrawableClass_eq_dec : EqDecision DrawableClass.
Proof. solve_decision. Defined.

Record Size := mkSize { sz_width : coord; sz_height : coord }.

Record DrawableData := mkDrawableData {
  d_class : DrawableClass;
  d_keypointsDict : list (string * eid);
  d_limbs : list eid;
  d_format : string;
  d_originalBBox : BBox;
  d_imagePath : option string;
  d_image : bool;                    (* [this.image] is an HTML image *)
  d_imageShape : option Shape;
  d_constrainedImageSize : option Size;
  d_imageNaturalSize : option Size
}.

Record SceneData := mkSceneData {
  sc_onStateChanged : bool;          (* [() => revisionManager.handleStateChange()], or null *)
  sc_poseLayers : list plref;
  sc_notified : nat                  (* ghost: how often [onStateChanged] was invoked *)
}.

Inductive Kind :=
| KKeypoint (position : option Pos) (radius : float)
| KBone (start end_ : eid)
| KLimb
| KDrawable (d : DrawableData)
| KScene (s : SceneData).

Record Entity := mkEntity {
  e_name : string;
  e_uuid : Uuid;
  e_parent : option eid;
  e_stateChanged : bool;
  e_visible : option bool;
  e_children : list eid;
  e_strokeColor : option string;
  e_fillColor : option string;
  e_strokeWidth : option float;
  e_alpha : option float;
  e_isSelected : option bool;
  e_shape : option Shape;
  e_isDestroyed : bool;
  e_lock : cellid;
  e_layer : option lref;
  e_kind : Kind
}.

Record PoseLayer := mkPoseLayer {
  pl_layer : lref;
  pl_drawables : list eid;
  pl_scene : eid
}.

(** ** Skeleton templates (the processed data of SkeletonDataAccess) *)

Record NaturalBounds := mkNB { nb_minX : float; nb_minY : float; nb_width : float; nb_height : float }.

Record SkeletonData := mkSkeletonData {
  sk_positions : list coord;         (* x0, y0, x1, y1, ... *)
  sk_edges : list nat;               (* start0, end0, start1, end1, ... *)
  sk_names : list string;
  sk_limbs : list (list nat);
  sk_limbNames : list string;
  sk_naturalBounds : option NaturalBounds;
  sk_format : option string          (* [skeletonData.format]; processData never sets it *)
}.

(** ** The revision manager's records *)

Record ChildState := mkChildState {
  cs_position : option Pos;
  cs_visible : option bool;
  cs_strokeColor : option string;
  cs_fillColor : option string
}.

Record Attributes := mkAttributes {
  at_visible : option bool;
  at_alpha : option float;
  at_fillColor : option string;
  at_strokeColor : option string;
  at_layer : option string
}.

Record ConstructionArgs := mkArgs {
  ca_name : string;
  ca_originalBBox : BBox;
  ca_format : option string;
  ca_imagePath : option string;
  ca_constrainedImageSize : option Size
}.

Record DState := mkDState {
  st_type : DrawableClass;
  st_uuid : Uuid;
  st_constructionArgs : ConstructionArgs;
  st_attributes : Attributes;
  st_children : list (string * ChildState)
}.

Record FromTo (A : Type) := mkFromTo { ft_from : A; ft_to : A }.
Arguments mkFromTo {A} _ _.
Arguments ft_from {A} _.
Arguments ft_to {A} _.

Record AttrDiff := mkAttrDiff {
  da_visible : option (FromTo (option bool));
  da_alpha : option (FromTo (option float));
  da_fillColor : option (FromTo (option string));
  da_strokeColor : option (FromTo (option string));
  da_layer : option (FromTo (option string))
}.

Record ChildDiff := mkChildDiff {
  cd_position : option (FromTo (option Pos));
  cd_visible : option (FromTo (option bool));
  cd_strokeColor : option (FromTo (option string));
  cd_fillColor : option (FromTo (option string))
}.

Record Diff := mkDiff {
  df_attributes : AttrDiff;
  df_children : list (string * ChildDiff)
}.

Record LayerState := mkLayerState {
  ls_layerId : string;
  ls_layerName : string;
  ls_layerIndex : option nat;        (* [indexOf]: None is -1 *)
  ls_visible : bool;
  ls_opacity : float;
  ls_drawables : list Uuid
}.

Inductive Change :=
| Create (uuid : Uuid) (state : DState)
| Destroy (uuid : Uuid) (state : DState)
| Modify (uuid : Uuid) (diff : Diff)
| LayerCreate (layerId : string) (state : lsref)
| LayerDestroy (layerId : string) (state : lsref).

Abbreviation Transaction := (list Change).

Record RevMgr := mkRevMgr {
  rm_canvasManager : bool;           (* [this.canvasManager !== null] *)
  rm_scene : eid;
  rm_max_history : Z;
  rm_history : list Transaction;
  rm_redoStack : list Transaction;
  rm_snapshot : list (Uuid * DState);
  rm_layerSnapshot : list (string * lsref);
  rm_isUndoing : bool
}.

Record CanvasMgr := mkCanvasMgr {
  cm_scene : eid;
  cm_layers : list lref;
  cm_currentLayerIndex : option Z    (* None is null *)
}.

(** ** The world *)

Record World := mkWorld {
  w_ents : list Entity;
  w_cells : list Z;
  w_next_uuid : nat;
  w_klayers : list KLayer;
  w_poseLayers : list PoseLayer;
  w_lstates : list LayerState;
  w_rm : RevMgr;
  w_cm : CanvasMgr;
  w_templates : list (string * SkeletonData);   (* what [loadSkeletonData] resolves to *)
  w_imageFiles : list (string * Size)           (* the images that load, with their natural size *)
}.
(** ** Field updates *)

Definition set_sh_pos v (x : Shape) : Shape :=
  {| sh_class := sh_class x; sh_name := sh_name x; sh_pos := v; sh_fill := sh_fill x; sh_stroke := sh_stroke x; sh_strokeWidth := sh_strokeWidth x; sh_radius := sh_radius x; sh_visible := sh_visible x; sh_layer := sh_layer x; sh_points := sh_points x |}.
Definition set_sh_fill v (x : Shape) : Shape :=
  {| sh_class := sh_class x; sh_name := sh_name x; sh_pos := sh_pos x; sh_fill := v; sh_stroke := sh_stroke x; sh_strokeWidth := sh_strokeWidth x; sh_radius := sh_radius x; sh_visible := sh_visible x; sh_layer := sh_layer x; sh_points := sh_points x |}.
Definition set_sh_stroke v (x : Shape) : Shape :=
  {| sh_class := sh_class x; sh_name := sh_name x; sh_pos := sh_pos x; sh_fill := sh_fill x; sh_stroke := v; sh_strokeWidth := sh_strokeWidth x; sh_radius := sh_radius x; sh_visible := sh_visible x; sh_layer := sh_layer x; sh_points := sh_points x |}.
Definition set_sh_strokeWidth v (x : Shape) : Shape :=
  {| sh_class := sh_class x; sh_name := sh_name x; sh_pos := sh_pos x; sh_fill := sh_fill x; sh_stroke := sh_stroke x; sh_strokeWidth := v; sh_radius := sh_radius x; sh_visible := sh_visible x; sh_layer := sh_layer x; sh_points := sh_points x |}.
Definition set_sh_radius v (x : Shape) : Shape :=
  {| sh_class := sh_class x; sh_name := sh_name x; sh_pos := sh_pos x; sh_fill := sh_fill x; sh_stroke := sh_stroke x; sh_strokeWidth := sh_strokeWidth x; sh_radius := v; sh_visible := sh_visible x; sh_layer := sh_layer x; sh_points := sh_points x |}.
Definition set_sh_visible v (x : Shape) : Shape :=
  {| sh_class := sh_class x; sh_name := sh_name x; sh_pos := sh_pos x; sh_fill := sh_fill x; sh_stroke := sh_stroke x; sh_strokeWidth := sh_strokeWidth x; sh_radius := sh_radius x; sh_visible := v; sh_layer := sh_layer x; sh_points := sh_points x |}.
Definition set_sh_layer v (x : Shape) : Shape :=
  {| sh_class := sh_class x; sh_name := sh_name x; sh_pos := sh_pos x; sh_fill := sh_fill x; sh_stroke := sh_stroke x; sh_strokeWidth := sh_strokeWidth x; sh_radius := sh_radius x; sh_visible := sh_visible x; sh_layer := v; sh_points := sh_points x |}.
Definition set_sh_points v (x : Shape) : Shape :=
  {| sh_class := sh_class x; sh_name := sh_name x; sh_pos := sh_pos x; sh_fill := sh_fill x; sh_stroke := sh_stroke x; sh_strokeWidth := sh_strokeWidth x; sh_radius := sh_radius x; sh_visible := sh_visible x; sh_layer := sh_layer x; sh_points := v |}.

Definition set_d_keypointsDict v (x : DrawableData) : DrawableData :=
  {| d_class := d_class x; d_keypointsDict := v; d_limbs := d_limbs x; d_format := d_format x; d_originalBBox := d_originalBBox x; d_imagePath := d_imagePath x; d_image := d_image x; d_imageShape := d_imageShape x; d_constrainedImageSize := d_constrainedImageSize x; d_imageNaturalSize := d_imageNaturalSize x |}.
Definition set_d_limbs v (x : DrawableData) : DrawableData :=
  {| d_class := d_class x; d_keypointsDict := d_keypointsDict x; d_limbs := v; d_format := d_format x; d_originalBBox := d_originalBBox x; d_imagePath := d_imagePath x; d_image := d_image x; d_imageShape := d_imageShape x; d_constrainedImageSize := d_constrainedImageSize x; d_imageNaturalSize := d_imageNaturalSize x |}.
Definition set_d_imagePath v (x : DrawableData) : DrawableData :=
  {| d_class := d_class x; d_keypointsDict := d_keypointsDict x; d_limbs := d_limbs x; d_format := d_format x; d_originalBBox := d_originalBBox x; d_imagePath := v; d_image := d_image x; d_imageShape := d_imageShape x; d_constrainedImageSize := d_constrainedImageSize x; d_imageNaturalSize := d_imageNaturalSize x |}.
Definition set_d_image v (x : DrawableData) : DrawableData :=
  {| d_class := d_class x; d_keypointsDict := d_keypointsDict x; d_limbs := d_limbs x; d_format := d_format x; d_originalBBox := d_originalBBox x; d_imagePath := d_imagePath x; d_image := v; d_imageShape := d_imageShape x; d_constrainedImageSize := d_constrainedImageSize x; d_imageNaturalSize := d_imageNaturalSize x |}.
Definition set_d_imageShape v (x : DrawableData) : DrawableData :=
  {| d_class := d_class x; d_keypointsDict := d_keypointsDict x; d_limbs := d_limbs x; d_format := d_format x; d_originalBBox := d_originalBBox x; d_imagePath := d_imagePath x; d_image := d_image x; d_imageShape := v; d_constrainedImageSize := d_constrainedImageSize x; d_imageNaturalSize := d_imageNaturalSize x |}.
Definition set_d_constrainedImageSize v (x : DrawableData) : DrawableData :=
  {| d_class := d_class x; d_keypointsDict := d_keypointsDict x; d_limbs := d_limbs x; d_format := d_format x; d_originalBBox := d_originalBBox x; d_imagePath := d_imagePath x; d_image := d_image x; d_imageShape := d_imageShape x; d_constrainedImageSize := v; d_imageNaturalSize := d_imageNaturalSize x |}.
Definition set_d_imageNaturalSize v (x : DrawableData) : DrawableData :=
  {| d_class := d_class x; d_keypointsDict := d_keypointsDict x; d_limbs := d_limbs x; d_format := d_format x; d_originalBBox := d_originalBBox x; d_imagePath := d_imagePath x; d_image := d_image x; d_imageShape := d_imageShape x; d_constrainedImageSize := d_constrainedImageSize x; d_imageNaturalSize := v |}.

Definition set_sc_onStateChanged v (x : SceneData) : SceneData :=
  {| sc_onStateChanged := v; sc_poseLayers := sc_poseLayers x; sc_notified := sc_notified x |}.
Definition set_sc_poseLayers v (x : SceneData) : SceneData :=
  {| sc_onStateChanged := sc_onStateChanged x; sc_poseLayers := v; sc_notified := sc_notified x |}.
Definition set_sc_notified v (x : SceneData) : SceneData :=
  {| sc_onStateChanged := sc_onStateChanged x; sc_poseLayers := sc_poseLayers x; sc_notified := v |}.

Definition set_e_name v (x : Entity) : Entity :=
  {| e_name := v; e_uuid := e_uuid x; e_parent := e_parent x; e_stateChanged := e_stateChanged x; e_visible := e_visible x; e_children := e_children x; e_strokeColor := e_strokeColor x; e_fillColor := e_fillColor x; e_strokeWidth := e_strokeWidth x; e_alpha := e_alpha x; e_isSelected := e_isSelected x; e_shape := e_shape x; e_isDestroyed := e_isDestroyed x; e_lock := e_lock x; e_layer := e_layer x; e_kind := e_kind x |}.
Definition set_e_uuid v (x : Entity) : Entity :=
  {| e_name := e_name x; e_uuid := v; e_parent := e_parent x; e_stateChanged := e_stateChanged x; e_visible := e_visible x; e_children := e_children x; e_strokeColor := e_strokeColor x; e_fillColor := e_fillColor x; e_strokeWidth := e_strokeWidth x; e_alpha := e_alpha x; e_isSelected := e_isSelected x; e_shape := e_shape x; e_isDestroyed := e_isDestroyed x; e_lock := e_lock x; e_layer := e_layer x; e_kind := e_kind x |}.
Definition set_e_stateChanged v (x : Entity) : Entity :=
  {| e_name := e_name x; e_uuid := e_uuid x; e_parent := e_parent x; e_stateChanged := v; e_visible := e_visible x; e_children := e_children x; e_strokeColor := e_strokeColor x; e_fillColor := e_fillColor x; e_strokeWidth := e_strokeWidth x; e_alpha := e_alpha x; e_isSelected := e_isSelected x; e_shape := e_shape x; e_isDestroyed := e_isDestroyed x; e_lock := e_lock x; e_layer := e_layer x; e_kind := e_kind x |}.
Definition set_e_visible v (x : Entity) : Entity :=
  {| e_name := e_name x; e_uuid := e_uuid x; e_parent := e_parent x; e_stateChanged := e_stateChanged x; e_visible := v; e_children := e_children x; e_strokeColor := e_strokeColor x; e_fillColor := e_fillColor x; e_strokeWidth := e_strokeWidth x; e_alpha := e_alpha x; e_isSelected := e_isSelected x; e_shape := e_shape x; e_isDestroyed := e_isDestroyed x; e_lock := e_lock x; e_layer := e_layer x; e_kind := e_kind x |}.
Definition set_e_children v (x : Entity) : Entity :=
  {| e_name := e_name x; e_uuid := e_uuid x; e_parent := e_parent x; e_stateChanged := e_stateChanged x; e_visible := e_visible x; e_children := v; e_strokeColor := e_strokeColor x; e_fillColor := e_fillColor x; e_strokeWidth := e_strokeWidth x; e_alpha := e_alpha x; e_isSelected := e_isSelected x; e_shape := e_shape x; e_isDestroyed := e_isDestroyed x; e_lock := e_lock x; e_layer := e_layer x; e_kind := e_kind x |}.
Definition set_e_strokeColor v (x : Entity) : Entity :=
  {| e_name := e_name x; e_uuid := e_uuid x; e_parent := e_parent x; e_stateChanged := e_stateChanged x; e_visible := e_visible x; e_children := e_children x; e_strokeColor := v; e_fillColor := e_fillColor x; e_strokeWidth := e_strokeWidth x; e_alpha := e_alpha x; e_isSelected := e_isSelected x; e_shape := e_shape x; e_isDestroyed := e_isDestroyed x; e_lock := e_lock x; e_layer := e_layer x; e_kind := e_kind x |}.
Definition set_e_fillColor v (x : Entity) : Entity :=
  {| e_name := e_name x; e_uuid := e_uuid x; e_parent := e_parent x; e_stateChanged := e_stateChanged x; e_visible := e_visible x; e_children := e_children x; e_strokeColor := e_strokeColor x; e_fillColor := v; e_strokeWidth := e_strokeWidth x; e_alpha := e_alpha x; e_isSelected := e_isSelected x; e_shape := e_shape x; e_isDestroyed := e_isDestroyed x; e_lock := e_lock x; e_layer := e_layer x; e_kind := e_kind x |}.
Definition set_e_strokeWidth v (x : Entity) : Entity :=
  {| e_name := e_name x; e_uuid := e_uuid x; e_parent := e_parent x; e_stateChanged := e_stateChanged x; e_visible := e_visible x; e_children := e_children x; e_strokeColor := e_strokeColor x; e_fillColor := e_fillColor x; e_strokeWidth := v; e_alpha := e_alpha x; e_isSelected := e_isSelected x; e_shape := e_shape x; e_isDestroyed := e_isDestroyed x; e_lock := e_lock x; e_layer := e_layer x; e_kind := e_kind x |}.
Definition set_e_shape v (x : Entity) : Entity :=
  {| e_name := e_name x; e_uuid := e_uuid x; e_parent := e_parent x; e_stateChanged := e_stateChanged x; e_visible := e_visible x; e_children := e_children x; e_strokeColor := e_strokeColor x; e_fillColor := e_fillColor x; e_strokeWidth := e_strokeWidth x; e_alpha := e_alpha x; e_isSelected := e_isSelected x; e_shape := v; e_isDestroyed := e_isDestroyed x; e_lock := e_lock x; e_layer := e_layer x; e_kind := e_kind x |}.
Definition set_e_isDestroyed v (x : Entity) : Entity :=
  {| e_name := e_name x; e_uuid := e_uuid x; e_parent := e_parent x; e_stateChanged := e_stateChanged x; e_visible := e_visible x; e_children := e_children x; e_strokeColor := e_strokeColor x; e_fillColor := e_fillColor x; e_strokeWidth := e_strokeWidth x; e_alpha := e_alpha x; e_isSelected := e_isSelected x; e_shape := e_shape x; e_isDestroyed := v; e_lock := e_lock x; e_layer := e_layer x; e_kind := e_kind x |}.
Definition set_e_lock v (x : Entity) : Entity :=
  {| e_name := e_name x; e_uuid := e_uuid x; e_parent := e_parent x; e_stateChanged := e_stateChanged x; e_visible := e_visible x; e_children := e_children x; e_strokeColor := e_strokeColor x; e_fillColor := e_fillColor x; e_strokeWidth := e_strokeWidth x; e_alpha := e_alpha x; e_isSelected := e_isSelected x; e_shape := e_shape x; e_isDestroyed := e_isDestroyed x; e_lock := v; e_layer := e_layer x; e_kind := e_kind x |}.
Definition set_e_layer v (x : Entity) : Entity :=
  {| e_name := e_name x; e_uuid := e_uuid x; e_parent := e_parent x; e_stateChanged := e_stateChanged x; e_visible := e_visible x; e_children := e_children x; e_strokeColor := e_strokeColor x; e_fillColor := e_fillColor x; e_strokeWidth := e_strokeWidth x; e_alpha := e_alpha x; e_isSelected := e_isSelected x; e_shape := e_shape x; e_isDestroyed := e_isDestroyed x; e_lock := e_lock x; e_layer := v; e_kind := e_kind x |}.
Definition set_e_alpha v (x : Entity) : Entity :=
  {| e_name := e_name x; e_uuid := e_uuid x; e_parent := e_parent x; e_stateChanged := e_stateChanged x; e_visible := e_visible x; e_children := e_children x; e_strokeColor := e_strokeColor x; e_fillColor := e_fillColor x; e_strokeWidth := e_strokeWidth x; e_alpha := v; e_isSelected := e_isSelected x; e_shape := e_shape x; e_isDestroyed := e_isDestroyed x; e_lock := e_lock x; e_layer := e_layer x; e_kind := e_kind x |}.
Definition set_e_kind v (x : Entity) : Entity :=
  {| e_name := e_name x; e_uuid := e_uuid x; e_parent := e_parent x; e_stateChanged := e_stateChanged x; e_visible := e_visible x; e_children := e_children x; e_strokeColor := e_strokeColor x; e_fillColor := e_fillColor x; e_strokeWidth := e_strokeWidth x; e_alpha := e_alpha x; e_isSelected := e_isSelected x; e_shape := e_shape x; e_isDestroyed := e_isDestroyed x; e_lock := e_lock x; e_layer := e_layer x; e_kind := v |}.

Definition set_kl_opacity v (x : KLayer) : KLayer :=
  {| kl_id := kl_id x; kl_name := kl_name x; kl_visible := kl_visible x; kl_opacity := v; kl_destroyed := kl_destroyed x |}.
Definition set_kl_destroyed v (x : KLayer) : KLayer :=
  {| kl_id := kl_id x; kl_name := kl_name x; kl_visible := kl_visible x; kl_opacity := kl_opacity x; kl_destroyed := v |}.

Definition set_pl_drawables v (x : PoseLayer) : PoseLayer :=
  {| pl_layer := pl_layer x; pl_drawables := v; pl_scene := pl_scene x |}.

Definition set_ls_drawables v (x : LayerState) : LayerState :=
  {| ls_layerId := ls_layerId x; ls_layerName := ls_layerName x; ls_layerIndex := ls_layerIndex x; ls_visible := ls_visible x; ls_opacity := ls_opacity x; ls_drawables := v |}.

Definition set_rm_scene v (x : RevMgr) : RevMgr :=
  {| rm_canvasManager := rm_canvasManager x; rm_scene := v; rm_max_history := rm_max_history x; rm_history := rm_history x; rm_redoStack := rm_redoStack x; rm_snapshot := rm_snapshot x; rm_layerSnapshot := rm_layerSnapshot x; rm_isUndoing := rm_isUndoing x |}.
Definition set_rm_history v (x : RevMgr) : RevMgr :=
  {| rm_canvasManager := rm_canvasManager x; rm_scene := rm_scene x; rm_max_history := rm_max_history x; rm_history := v; rm_redoStack := rm_redoStack x; rm_snapshot := rm_snapshot x; rm_layerSnapshot := rm_layerSnapshot x; rm_isUndoing := rm_isUndoing x |}.
Definition set_rm_redoStack v (x : RevMgr) : RevMgr :=
  {| rm_canvasManager := rm_canvasManager x; rm_scene := rm_scene x; rm_max_history := rm_max_history x; rm_history := rm_history x; rm_redoStack := v; rm_snapshot := rm_snapshot x; rm_layerSnapshot := rm_layerSnapshot x; rm_isUndoing := rm_isUndoing x |}.
Definition set_rm_snapshot v (x : RevMgr) : RevMgr :=
  {| rm_canvasManager := rm_canvasManager x; rm_scene := rm_scene x; rm_max_history := rm_max_history x; rm_history := rm_history x; rm_redoStack := rm_redoStack x; rm_snapshot := v; rm_layerSnapshot := rm_layerSnapshot x; rm_isUndoing := rm_isUndoing x |}.
Definition set_rm_layerSnapshot v (x : RevMgr) : RevMgr :=
  {| rm_canvasManager := rm_canvasManager x; rm_scene := rm_scene x; rm_max_history := rm_max_history x; rm_history := rm_history x; rm_redoStack := rm_redoStack x; rm_snapshot := rm_snapshot x; rm_layerSnapshot := v; rm_isUndoing := rm_isUndoing x |}.
Definition set_rm_isUndoing v (x : RevMgr) : RevMgr :=
  {| rm_canvasManager := rm_canvasManager x; rm_scene := rm_scene x; rm_max_history := rm_max_history x; rm_history := rm_history x; rm_redoStack := rm_redoStack x; rm_snapshot := rm_snapshot x; rm_layerSnapshot := rm_layerSnapshot x; rm_isUndoing := v |}.

Definition set_cm_layers v (x : CanvasMgr) : CanvasMgr :=
  {| cm_scene := cm_scene x; cm_layers := v; cm_currentLayerIndex := cm_currentLayerIndex x |}.
Definition set_cm_currentLayerIndex v (x : CanvasMgr) : CanvasMgr :=
  {| cm_scene := cm_scene x; cm_layers := cm_layers x; cm_currentLayerIndex := v |}.

Definition set_w_ents v (x : World) : World :=
  {| w_ents := v; w_cells := w_cells x; w_next_uuid := w_next_uuid x; w_klayers := w_klayers x; w_poseLayers := w_poseLayers x; w_lstates := w_lstates x; w_rm := w_rm x; w_cm := w_cm x; w_templates := w_templates x; w_imageFiles := w_imageFiles x |}.
Definition set_w_cells v (x : World) : World :=
  {| w_ents := w_ents x; w_cells := v; w_next_uuid := w_next_uuid x; w_klayers := w_klayers x; w_poseLayers := w_poseLayers x; w_lstates := w_lstates x; w_rm := w_rm x; w_cm := w_cm x; w_templates := w_templates x; w_imageFiles := w_imageFiles x |}.
Definition set_w_next_uuid v (x : World) : World :=
  {| w_ents := w_ents x; w_cells := w_cells x; w_next_uuid := v; w_klayers := w_klayers x; w_poseLayers := w_poseLayers x; w_lstates := w_lstates x; w_rm := w_rm x; w_cm := w_cm x; w_templates := w_templates x; w_imageFiles := w_imageFiles x |}.
Definition set_w_klayers v (x : World) : World :=
  {| w_ents := w_ents x; w_cells := w_cells x; w_next_uuid := w_next_uuid x; w_klayers := v; w_poseLayers := w_poseLayers x; w_lstates := w_lstates x; w_rm := w_rm x; w_cm := w_cm x; w_templates := w_templates x; w_imageFiles := w_imageFiles x |}.
Definition set_w_poseLayers v (x : World) : World :=
  {| w_ents := w_ents x; w_cells := w_cells x; w_next_uuid := w_next_uuid x; w_klayers := w_klayers x; w_poseLayers := v; w_lstates := w_lstates x; w_rm := w_rm x; w_cm := w_cm x; w_templates := w_templates x; w_imageFiles := w_imageFiles x |}.
Definition set_w_lstates v (x : World) : World :=
  {| w_ents := w_ents x; w_cells := w_cells x; w_next_uuid := w_next_uuid x; w_klayers := w_klayers x; w_poseLayers := w_poseLayers x; w_lstates := v; w_rm := w_rm x; w_cm := w_cm x; w_templates := w_templates x; w_imageFiles := w_imageFiles x |}.
Definition set_w_rm v (x : World) : World :=
  {| w_ents := w_ents x; w_cells := w_cells x; w_next_uuid := w_next_uuid x; w_klayers := w_klayers x; w_poseLayers := w_poseLayers x; w_lstates := w_lstates x; w_rm := v; w_cm := w_cm x; w_templates := w_templates x; w_imageFiles := w_imageFiles x |}.
Definition set_w_cm v (x : World) : World :=
  {| w_ents := w_ents x; w_cells := w_cells x; w_next_uuid := w_next_uuid x; w_klayers := w_klayers x; w_poseLayers := w_poseLayers x; w_lstates := w_lstates x; w_rm := w_rm x; w_cm := v; w_templates := w_templates x; w_imageFiles := w_imageFiles x |}.

(** ** Methods: state and exceptions *)

Inductive outcome (A : Type) : Type :=
| Ret (a : A) (w : World)
| Throw (msg : string) (w : World).
Arguments Ret {A} _ _.
Arguments Throw {A} _ _.

Definition M (A : Type) : Type := World -> outcome A.

Definition ret {A} (a : A) : M A := fun w => Ret a w.
Definition bind {A B} (m : M A) (k : A -> M B) : M B :=
  fun w => match m w with Ret a w' => k a w' | Throw s w' => Throw s w' end.
Definition throw {A} (s : string) : M A := fun w => Throw s w.
Definition gets {A} (f : World -> A) : M A := fun w => Ret (f w) w.
Definition modify (f : World -> World) : M unit := fun w => Ret tt (f w).
Definition try_catch {A} (m : M A) (handler : string -> M A) : M A :=
  fun w => match m w with Ret a w' => Ret a w' | Throw s w' => handler s w' end.

Declare Scope js_scope.
Delimit Scope js_scope with js.
Notation "x <- m ;; k" := (bind m (fun x => k))
  (at level 100, m at next level, right associativity) : js_scope.
Notation "m ;; k" := (bind m (fun _ => k))
  (at level 100, right associativity) : js_scope.
Local Open Scope js_scope.

Definition when (b : bool) (m : M unit) : M unit := if b then m else ret tt.

(** [l.forEach(f)] and [for (const x of l)], on an array that [f] does not resize. *)
Fixpoint forEach {A} (l : list A) (f : A -> M unit) : M unit :=
  match l with
  | [] => ret tt
  | x :: l' => f x ;; forEach l' f
  end.

(** The world an outcome leaves behind, thrown or not. *)
Definition final {A} (o : outcome A) : World :=
  match o with Ret _ w => w | Throw _ w => w end.

(** ** The heaps *)

Definition ent (w : World) (e : eid) : option Entity := w_ents w !! e.

Definition no_entity : Entity :=
  mkEntity "" 0 None false None [] None None None None None None false 0 None KLimb.
Definition look (w : World) (e : eid) : Entity := default no_entity (ent w e).

Definition upd (e : eid) (f : Entity -> Entity) (w : World) : World :=
  set_w_ents (alter f e (w_ents w)) w.
Definition upd_rm (f : RevMgr -> RevMgr) (w : World) : World := set_w_rm (f (w_rm w)) w.
Definition upd_cm (f : CanvasMgr -> CanvasMgr) (w : World) : World := set_w_cm (f (w_cm w)) w.
Definition upd_klayer (l : lref) (f : KLayer -> KLayer) (w : World) : World :=
  set_w_klayers (alter f l (w_klayers w)) w.
Definition upd_pl (p : plref) (f : PoseLayer -> PoseLayer) (w : World) : World :=
  set_w_poseLayers (alter f p (w_poseLayers w)) w.
Definition upd_ls (r : lsref) (f : LayerState -> LayerState) (w : World) : World :=
  set_w_lstates (alter f r (w_lstates w)) w.

(** [new]: the object is appended to its heap. *)
Definition alloc (x : Entity) : M eid :=
  fun w => Ret (length (w_ents w)) (set_w_ents (w_ents w ++ [x]) w).
Definition alloc_cell (v : Z) : M cellid :=
  fun w => Ret (length (w_cells w)) (set_w_cells (w_cells w ++ [v]) w).
Definition alloc_klayer (l : KLayer) : M lref :=
  fun w => Ret (length (w_klayers w)) (set_w_klayers (w_klayers w ++ [l]) w).
Definition alloc_pl (p : PoseLayer) : M plref :=
  fun w => Ret (length (w_poseLayers w)) (set_w_poseLayers (w_poseLayers w ++ [p]) w).
Definition alloc_ls (s : LayerState) (w : World) : lsref * World :=
  (length (w_lstates w), set_w_lstates (w_lstates w ++ [s]) w).

(** [crypto.randomUUID()]. *)
Definition randomUUID : M Uuid :=
  fun w => Ret (w_next_uuid w) (set_w_next_uuid (S (w_next_uuid w)) w).

(** The bound on a walk along [parent] or [children]. *)
Definition fuel (w : World) : nat := S (length (w_ents w)).

Definition scene_data (w : World) (s : eid) : option SceneData :=
  match e_kind (look w s) with KScene sd => Some sd | _ => None end.
Definition drawable_data (w : World) (d : eid) : option DrawableData :=
  match e_kind (look w d) with KDrawable dd => Some dd | _ => None end.

Definition is_keypoint (w : World) (e : eid) : bool :=
  match e_kind (look w e) with KKeypoint _ _ => true | _ => false end.
Definition is_bone (w : World) (e : eid) : bool :=
  match e_kind (look w e) with KBone _ _ => true | _ => false end.
Definition is_drawable (w : World) (e : eid) : bool :=
  match e_kind (look w e) with KDrawable _ => true | _ => false end.
Definition is_scene (w : World) (e : eid) : bool :=
  match e_kind (look w e) with KScene _ => true | _ => false end.
Definition class_of (w : World) (d : eid) : DrawableClass :=
  match drawable_data w d with Some dd => d_class dd | None => CDrawable end.

Definition upd_drawable (d : eid) (f : DrawableData -> DrawableData) : World -> World :=
  upd d (fun x => match e_kind x with
                  | KDrawable dd => set_e_kind (KDrawable (f dd)) x
                  | _ => x
                  end).
Definition upd_scene (s : eid) (f : SceneData -> SceneData) : World -> World :=
  upd s (fun x => match e_kind x with
                  | KScene sd => set_e_kind (KScene (f sd)) x
                  | _ => x
                  end).
Definition upd_shape (e : eid) (f : Shape -> Shape) : World -> World :=
  upd e (fun x => set_e_shape (f <$> e_shape x) x).

(** [scene.drawables], [scene.persons], [scene.images]. *)
Definition drawables (w : World) (s : eid) : list eid :=
  filter (fun c => is_drawable w c = true) (e_children (look w s)).
Definition persons (w : World) (s : eid) : list eid :=
  filter (fun d => class_of w d = CPerson) (drawables w s).
Definition images (w : World) (s : eid) : list eid :=
  filter (fun d => class_of w d = CDistortableImage) (drawables w s).
Definition poseLayers (w : World) (s : eid) : list plref :=
  match scene_data w s with Some sd => sc_poseLayers sd | None => [] end.

(** ** Entity: the read-only methods *)

(** The common shape of [getVisible], [getAlpha], [getStrokeColor],
    [getFillColor] and [getStrokeWidth]: the explicit argument, else the own
    value, else the parent's answer. *)
Fixpoint inherit {A} (own : Entity -> option A) (n : nat) (w : World) (e : eid)
    (explicit : option A) : option A :=
  match explicit with
  | Some v => Some v
  | None =>
    match own (look w e) with
    | Some v => Some v
    | None =>
      match e_parent (look w e), n with
      | Some p, S n' => inherit own n' w p None
      | _, _ => None
      end
    end
  end.

Definition getVisible (w : World) (e : eid) (visible : option bool) : option bool :=
  inherit e_visible (fuel w) w e visible.
Definition getAlpha (w : World) (e : eid) (alpha : option float) : option float :=
  inherit e_alpha (fuel w) w e alpha.
Definition getStrokeColor (w : World) (e : eid) (color : option string) : option string :=
  inherit e_strokeColor (fuel w) w e color.
Definition getFillColor (w : World) (e : eid) (color : option string) : option string :=
  inherit e_fillColor (fuel w) w e color.
Definition getColor := getStrokeColor.
Definition getStrokeWidth (w : World) (e : eid) (width : option float) : option float :=
  inherit e_strokeWidth (fuel w) w e width.

(** [!this.getVisible()]. *)
Definition visible_truthy (w : World) (e : eid) : bool :=
  from_option id false (getVisible w e None).

Fixpoint getParents_fuel (n : nat) (w : World) (e : eid) : list eid :=
  match e_parent (look w e), n with
  | Some p, S n' => p :: getParents_fuel n' w p
  | _, _ => []
  end.
Definition getParents (w : World) (e : eid) : list eid := getParents_fuel (fuel w) w e.

Definition stateChanged (w : World) (e : eid) : bool := e_stateChanged (look w e).

Definition isStateChangeLock (w : World) (e : eid) : bool :=
  bool_decide (0 < default 0 (w_cells w !! e_lock (look w e)))%Z.

(** [traverseChildren] of the revision manager: the entities in the order
    in which the callback sees them. *)
Fixpoint traverse_fuel (n : nat) (w : World) (e : eid) : list eid :=
  match n with
  | 0 => []
  | S n' => e :: flat_map (traverse_fuel n' w) (e_children (look w e))
  end.
Definition traverseChildren (w : World) (e : eid) : list eid := traverse_fuel (fuel w) w e.

Definition push_new (acc : list eid) (k : eid) : list eid :=
  if includes k acc then acc else acc ++ [k].

Fixpoint getAllKeypoints_fuel (n : nat) (w : World) (e : eid) : list eid :=
  match e_kind (look w e) with
  | KBone s t => [s; t]
  | k =>
    let own := match k with KKeypoint _ _ => [e] | _ => [] end in
    match n with
    | 0 => own
    | S n' =>
      foldl (fun acc child => foldl push_new acc (getAllKeypoints_fuel n' w child))
            own (e_children (look w e))
    end
  end.
Definition getAllKeypoints (w : World) (e : eid) : list eid := getAllKeypoints_fuel (fuel w) w e.

(** ** Positions *)

Definition Keypoint_getPosition (w : World) (k : eid) : option Pos :=
  match e_kind (look w k) with KKeypoint p _ => p | _ => None end.

Definition half_sum (a b : coord) : coord :=
  Some (PrimFloat.div (PrimFloat.add (to_number a) (to_number b)) 2%float).

(** [Bone.getPosition]; the endpoints of a bone are Keypoints. *)
Definition Bone_getPosition (w : World) (b : eid) : option Pos :=
  match e_kind (look w b) with
  | KBone s t =>
    match Keypoint_getPosition w s, Keypoint_getPosition w t with
    | Some startPos, Some endPos =>
      Some (mkPos (half_sum (pos_x startPos) (pos_x endPos))
                  (half_sum (pos_y startPos) (pos_y endPos)))
    | _, _ => None
    end
  | _ => None
  end.

Fixpoint all_positions (w : World) (kps : list eid) : option (list Pos) :=
  match kps with
  | [] => Some []
  | kp :: rest =>
    match Keypoint_getPosition w kp with
    | None => None
    | Some p => cons p <$> all_positions w rest
    end
  end.

(** The number [n] (exact below 2^53). *)
Fixpoint float_of_nat (n : nat) : float :=
  match n with
  | 0 => 0%float
  | S n' => PrimFloat.add (float_of_nat n') 1%float
  end.

Definition Limb_getPosition (w : World) (l : eid) : option Pos :=
  match getAllKeypoints w l with
  | [] => None
  | kps =>
    match all_positions w kps with
    | None => None
    | Some positions =>
      let sumX := foldl (fun sum p => PrimFloat.add sum (to_number (pos_x p))) 0%float positions in
      let sumY := foldl (fun sum p => PrimFloat.add sum (to_number (pos_y p))) 0%float positions in
      let n := float_of_nat (length positions) in
      Some (mkPos (Some (PrimFloat.div sumX n)) (Some (PrimFloat.div sumY n)))
    end
  end.

Definition Drawable_getPosition (w : World) (d : eid) : option Pos :=
  match drawable_data w d with
  | Some dd =>
    match d_class dd with
    | CPerson => kp ← sget "Neck" (d_keypointsDict dd); Keypoint_getPosition w kp
    | CDistortableImage => kp ← sget "TopLeft" (d_keypointsDict dd); Keypoint_getPosition w kp
    | CDrawable => kp ← head (d_keypointsDict dd).*2; Keypoint_getPosition w kp
    end
  | None => None
  end.

Definition getPosition (w : World) (e : eid) : option Pos :=
  match e_kind (look w e) with
  | KKeypoint _ _ => Keypoint_getPosition w e
  | KBone _ _ => Bone_getPosition w e
  | KLimb => Limb_getPosition w e
  | KDrawable _ => Drawable_getPosition w e
  | KScene _ => Some (mkPos (Some 0%float) (Some 0%float))
  end.

(** ** RevisionManager: snapshots and diffs *)

Definition layer_id (w : World) (l : lref) : string :=
  from_option kl_id "" (w_klayers w !! l).

Definition getConstructionArgs (w : World) (d : eid) : ConstructionArgs :=
  let x := look w d in
  match drawable_data w d with
  | Some dd =>
    match d_class dd with
    | CPerson => mkArgs (e_name x) (d_originalBBox dd) (Some (d_format dd)) None None
    | CDistortableImage =>
      mkArgs (e_name x) (d_originalBBox dd) None (d_imagePath dd) (d_constrainedImageSize dd)
    | CDrawable => mkArgs (e_name x) (d_originalBBox dd) None None None
    end
  | None => mkArgs (e_name x) (mkBBox None None None None) None None None
  end.

Definition captureChild (w : World) (child : eid) : ChildState :=
  let x := look w child in
  {| cs_position := if is_keypoint w child then Keypoint_getPosition w child else None;
     cs_visible := getVisible w child None;
     cs_strokeColor := e_strokeColor x;
     cs_fillColor := e_fillColor x |}.

Definition captureDrawableState (w : World) (drawable : eid) : DState :=
  let x := look w drawable in
  {| st_type := class_of w drawable;
     st_uuid := e_uuid x;
     st_constructionArgs := getConstructionArgs w drawable;
     st_attributes :=
       {| at_visible := getVisible w drawable None;
          at_alpha := e_alpha x;
          at_fillColor := e_fillColor x;
          at_strokeColor := e_strokeColor x;
          at_layer := layer_id w <$> e_layer x |};
     st_children :=
       foldl (fun children child =>
                if Nat.eqb child drawable then children
                else sset (e_name (look w child)) (captureChild w child) children)
             [] (traverseChildren w drawable) |}.

Definition diffChild (oldChild newChild : ChildState) : option ChildDiff :=
  let position :=
    if json_pos_eq (cs_position oldChild) (cs_position newChild) then None
    else Some (mkFromTo (cs_position oldChild) (cs_position newChild)) in
  let visible :=
    if obool_eqb (cs_visible oldChild) (cs_visible newChild) then None
    else Some (mkFromTo (cs_visible oldChild) (cs_visible newChild)) in
  let strokeColor :=
    if ostr_eqb (cs_strokeColor oldChild) (cs_strokeColor newChild) then None
    else Some (mkFromTo (cs_strokeColor oldChild) (cs_strokeColor newChild)) in
  let fillColor :=
    if ostr_eqb (cs_fillColor oldChild) (cs_fillColor newChild) then None
    else Some (mkFromTo (cs_fillColor oldChild) (cs_fillColor newChild)) in
  match position, visible, strokeColor, fillColor with
  | None, None, None, None => None
  | _, _, _, _ => Some (mkChildDiff position visible strokeColor fillColor)
  end.

Definition diffAttributes (o n : Attributes) : AttrDiff :=
  {| da_visible := if obool_eqb (at_visible o) (at_visible n) then None
                   else Some (mkFromTo (at_visible o) (at_visible n));
     da_alpha := if json_coord_eq (at_alpha o) (at_alpha n) then None
                 else Some (mkFromTo (at_alpha o) (at_alpha n));
     da_fillColor := if ostr_eqb (at_fillColor o) (at_fillColor n) then None
                     else Some (mkFromTo (at_fillColor o) (at_fillColor n));
     da_strokeColor := if ostr_eqb (at_strokeColor o) (at_strokeColor n) then None
                       else Some (mkFromTo (at_strokeColor o) (at_strokeColor n));
     da_layer := if ostr_eqb (at_layer o) (at_layer n) then None
                 else Some (mkFromTo (at_layer o) (at_layer n)) |}.

Definition no_attr_diff (a : AttrDiff) : bool :=
  match da_visible a, da_alpha a, da_fillColor a, da_strokeColor a, da_layer a with
  | None, None, None, None, None => true
  | _, _, _, _, _ => false
  end.

Definition diffChildren (oldChildren newChildren : list (string * ChildState))
    : list (string * ChildDiff) :=
  omap (fun '(name, newChild) =>
          oldChild ← sget name oldChildren;
          childDiff ← diffChild oldChild newChild;
          Some (name, childDiff))
       newChildren.

Definition diffStates (oldState newState : DState) : option Diff :=
  let attributes := diffAttributes (st_attributes oldState) (st_attributes newState) in
  let children := diffChildren (st_children oldState) (st_children newState) in
  if no_attr_diff attributes && bool_decide (children = []) then None
  else Some (mkDiff attributes children).

Definition captureLayerState (w : World) (poseLayer : plref) : LayerState :=
  match w_poseLayers w !! poseLayer with
  | Some pl =>
    let l := pl_layer pl in
    {| ls_layerId := layer_id w l;
       ls_layerName := from_option kl_name "" (w_klayers w !! l);
       ls_layerIndex := indexOf poseLayer (poseLayers w (rm_scene (w_rm w)));
       ls_visible := from_option kl_visible true (w_klayers w !! l);
       ls_opacity := from_option kl_opacity 1%float (w_klayers w !! l);
       ls_drawables := (fun d => e_uuid (look w d)) <$> pl_drawables pl |}
  | None => mkLayerState "" "" None true 1%float []
  end.

Definition poseLayer_id (w : World) (poseLayer : plref) : string :=
  from_option (fun pl => layer_id w (pl_layer pl)) "" (w_poseLayers w !! poseLayer).

(** [layerState.drawables.splice(indexOf(uuid), 1)] on the state of [layerId],
    when there is one and it lists [uuid]. *)
Definition layerState_remove (layerId : string) (uuid : Uuid) (w : World) : World :=
  match sget layerId (rm_layerSnapshot (w_rm w)) with
  | Some r =>
    upd_ls r (fun s => match indexOf uuid (ls_drawables s) with
                       | Some i => set_ls_drawables (splice1 i (ls_drawables s)) s
                       | None => s
                       end) w
  | None => w
  end.
(** [layerState.drawables.push(uuid)]. *)
Definition layerState_push (layerId : string) (uuid : Uuid) (w : World) : World :=
  match sget layerId (rm_layerSnapshot (w_rm w)) with
  | Some r => upd_ls r (fun s => set_ls_drawables (ls_drawables s ++ [uuid]) s) w
  | None => w
  end.
(** The same, guarded by [!layerState.drawables.includes(uuid)]. *)
Definition layerState_add (layerId : string) (uuid : Uuid) (w : World) : World :=
  match sget layerId (rm_layerSnapshot (w_rm w)) with
  | Some r =>
    upd_ls r (fun s => if includes uuid (ls_drawables s) then s
                       else set_ls_drawables (ls_drawables s ++ [uuid]) s) w
  | None => w
  end.

Definition detectLayerChanges (w : World) : list Change * World :=
  let currentLayers := poseLayers w (rm_scene (w_rm w)) in
  let currentLayerIds := poseLayer_id w <$> currentLayers in
  let snapshotLayerIds := (rm_layerSnapshot (w_rm w)).*1 in
  let destroyed :=
    foldl (fun '(changes, w) layerId =>
             if existsb (String.eqb layerId) currentLayerIds then (changes, w)
             else match sget layerId (rm_layerSnapshot (w_rm w)) with
                  | Some oldState =>
                    (changes ++ [LayerDestroy layerId oldState],
                     upd_rm (fun r => set_rm_layerSnapshot
                                        (dict_delete String.eqb layerId (rm_layerSnapshot r)) r) w)
                  | None => (changes, w)
                  end)
          ([], w) snapshotLayerIds in
  foldl (fun '(changes, w) poseLayer =>
           if existsb (String.eqb (poseLayer_id w poseLayer)) snapshotLayerIds then (changes, w)
           else
             let state := captureLayerState w poseLayer in
             let '(r, w) := alloc_ls state w in
             (changes ++ [LayerCreate (ls_layerId state) r],
              upd_rm (fun m => set_rm_layerSnapshot
                                 (sset (ls_layerId state) r (rm_layerSnapshot m)) m) w))
        destroyed currentLayers.

Fixpoint resetStateFlags_fuel (n : nat) (entity : eid) (w : World) : World :=
  match n with
  | 0 => w
  | S n' =>
    let w := upd entity (set_e_stateChanged false) w in
    foldl (fun w c => resetStateFlags_fuel n' c w) w (e_children (look w entity))
  end.
Definition resetStateFlags (entity : eid) (w : World) : World :=
  resetStateFlags_fuel (fuel w) entity w.

Definition initializeSnapshot (w : World) : World :=
  let scene := rm_scene (w_rm w) in
  let snapshot :=
    foldl (fun snapshot d => nset (e_uuid (look w d)) (captureDrawableState w d) snapshot)
          [] (drawables w scene) in
  let w := upd_rm (fun r => set_rm_layerSnapshot [] (set_rm_snapshot snapshot r)) w in
  foldl (fun w poseLayer =>
           let '(r, w) := alloc_ls (captureLayerState w poseLayer) w in
           upd_rm (fun m => set_rm_layerSnapshot
                              (sset (poseLayer_id w poseLayer) r (rm_layerSnapshot m)) m) w)
        w (poseLayers w scene).

(** Step 2 of [handleStateChange]: the snapshot entries whose Drawable is gone. *)
Definition detectDestructions (currentUUIDs snapshotUUIDs : list Uuid)
    (acc : list Change * World) : list Change * World :=
  foldl (fun '(changes, w) uuid =>
           if includes uuid currentUUIDs then (changes, w)
           else match nget uuid (rm_snapshot (w_rm w)) with
                | Some oldState =>
                  let w := upd_rm (fun r => set_rm_snapshot (ndelete uuid (rm_snapshot r)) r) w in
                  let w := match at_layer (st_attributes oldState) with
                           | Some layerId =>
                             if truthy_str layerId then layerState_remove layerId uuid w else w
                           | None => w
                           end in
                  (changes ++ [Destroy uuid oldState], w)
                | None => (changes, w)
                end)
        acc snapshotUUIDs.

(** Steps 3 and 4: creations, and the attribute changes of dirty Drawables. *)
Definition detectCreationsAndChanges (currentDrawables : list eid) (snapshotUUIDs : list Uuid)
    (acc : list Change * World) : list Change * World :=
  foldl (fun '(changes, w) d =>
           let uuid := e_uuid (look w d) in
           if negb (includes uuid snapshotUUIDs) then
             let state := captureDrawableState w d in
             let w := upd_rm (fun r => set_rm_snapshot (nset uuid state (rm_snapshot r)) r) w in
             let w := match e_layer (look w d) with
                      | Some l => layerState_push (layer_id w l) uuid w
                      | None => w
                      end in
             (changes ++ [Create uuid state], w)
           else if stateChanged w d then
             match nget uuid (rm_snapshot (w_rm w)) with
             | Some oldState =>
               let newState := captureDrawableState w d in
               match diffStates oldState newState with
               | Some diff =>
                 (changes ++ [Modify uuid diff],
                  upd_rm (fun r => set_rm_snapshot (nset uuid newState (rm_snapshot r)) r) w)
               | None => (changes, w)
               end
             | None => (changes, w)
             end
           else (changes, w))
        acc currentDrawables.

Definition detectChanges (w : World) : list Change * World :=
  let currentDrawables := drawables w (rm_scene (w_rm w)) in
  let currentUUIDs := (fun d => e_uuid (look w d)) <$> currentDrawables in
  let snapshotUUIDs := (rm_snapshot (w_rm w)).*1 in
  detectCreationsAndChanges currentDrawables snapshotUUIDs
    (detectDestructions currentUUIDs snapshotUUIDs (detectLayerChanges w)).

(** Step 5: [history.push(changes)], the redo stack is cleared, and the
    oldest transactions beyond [max_history] are spliced off. *)
Definition pushTransaction (changes : Transaction) (r : RevMgr) : RevMgr :=
  let history := rm_history r ++ [changes] in
  let history :=
    if negb (Z.eqb (rm_max_history r) 0)
       && bool_decide (rm_max_history r < Z.of_nat (length history))%Z
    then drop (Z.to_nat (Z.of_nat (length history) - rm_max_history r)) history
    else history in
  set_rm_redoStack [] (set_rm_history history r).

Definition handleStateChange (w : World) : World :=
  if rm_isUndoing (w_rm w) then w
  else
    let '(changes, w) := detectChanges w in
    let w := match changes with
             | [] => w
             | _ => upd_rm (pushTransaction changes) w
             end in
    resetStateFlags (rm_scene (w_rm w)) w.

(** ** Entity: dirty flags and the state-change lock *)

Definition lockStateChange (e : eid) (w : World) : World :=
  set_w_cells (alter (fun v => v + 1)%Z (e_lock (look w e)) (w_cells w)) w.

Definition unlockStateChange (e : eid) (w : World) : World :=
  set_w_cells (alter (fun v => v - 1)%Z (e_lock (look w e)) (w_cells w)) w.

(** [Scene.changeState] after [super.changeState]: the registered callback
    runs unless the lock is held.  The callback is the revision manager's
    [handleStateChange]. *)
Definition notify (s : eid) (w : World) : World :=
  match scene_data w s with
  | Some sd =>
    if sc_onStateChanged sd then
      if isStateChangeLock w s then w
      else handleStateChange (upd_scene s (fun sd => set_sc_notified (S (sc_notified sd)) sd) w)
    else w
  | None => w
  end.

Fixpoint changeState_fuel (n : nat) (e : eid) (statusChanged : bool) (w : World) : World :=
  let w := upd e (set_e_stateChanged statusChanged) w in
  let w := match e_parent (look w e), n with
           | Some p, S n' => changeState_fuel n' p statusChanged w
           | _, _ => w
           end in
  notify e w.
Definition changeState (e : eid) (statusChanged : bool) (w : World) : World :=
  changeState_fuel (fuel w) e statusChanged w.

(** [overStateChange(callable)]: a callable that throws leaves the lock held. *)
Definition overStateChange (e : eid) (callable : M unit) : M unit :=
  modify (lockStateChange e) ;;
  callable ;;
  modify (unlockStateChange e) ;;
  modify (changeState e true).

Definition addChild (p child : eid) (withLock : bool) (w : World) : World :=
  let w := upd p (fun x => set_e_children (e_children x ++ [child]) x) w in
  let w := if withLock then upd child (set_e_lock (e_lock (look w p))) w else w in
  changeState p true w.

Definition removeChild (p child : eid) (w : World) : World :=
  match indexOf child (e_children (look w p)) with
  | Some index =>
    let w := upd p (fun x => set_e_children (splice1 index (e_children x)) x) w in
    let w := changeState p true w in
    if Nat.eqb (e_lock (look w p)) (e_lock (look w child)) then
      upd child (set_e_lock (length (w_cells w))) (set_w_cells (w_cells w ++ [0%Z]) w)
    else w
  | None => w
  end.

(** [new Entity(name, parent, withLock)] for the subclass whose own fields are
    [kind].  The fields are initialised before [parent.addChild(this)] runs. *)
Definition new_entity (name : string) (parent : option eid) (withLock : bool) (kind : Kind)
    : M eid :=
  lock <- match parent with
          | Some p => if withLock then gets (fun w => e_lock (look w p)) else alloc_cell 0%Z
          | None => alloc_cell 0%Z
          end ;;
  uuid <- randomUUID ;;
  e <- alloc (mkEntity name uuid parent true (Some true) [] None None (Some 4%float) None None
                       None false lock None kind) ;;
  match parent with
  | Some p => modify (addChild p e withLock)
  | None => ret tt
  end ;;
  ret e.

(** ** Entity: inherited attributes *)

Definition Keypoint_updateVisibility (k : eid) (w : World) : World :=
  upd_shape k (set_sh_visible (visible_truthy w k && bool_decide (is_Some (Keypoint_getPosition w k)))) w.

Definition Bone_updateVisibility (b : eid) (w : World) : World :=
  match e_kind (look w b) with
  | KBone s t =>
    upd_shape b (set_sh_visible (visible_truthy w b
                                 && bool_decide (is_Some (Keypoint_getPosition w s))
                                 && bool_decide (is_Some (Keypoint_getPosition w t)))) w
  | _ => w
  end.

Definition updateVisibility (e : eid) (w : World) : World :=
  match e_kind (look w e) with
  | KKeypoint _ _ => Keypoint_updateVisibility e w
  | KBone _ _ => Bone_updateVisibility e w
  | _ => w
  end.

Definition setVisible (e : eid) (visible : option bool) (w : World) : World :=
  updateVisibility e (upd e (set_e_visible visible) w).

Fixpoint setStrokeColor_fuel (n : nat) (e : eid) (color : option string) (w : World) : World :=
  let w := match color with
           | Some c => upd e (set_e_strokeColor (Some c)) w
           | None => w
           end in
  let w := upd_shape e (set_sh_stroke (attr_of_color (getStrokeColor w e None))) w in
  match n with
  | 0 => w
  | S n' => foldl (fun w ch => setStrokeColor_fuel n' ch None w) w (e_children (look w e))
  end.
Definition setStrokeColor (e : eid) (color : option string) (w : World) : World :=
  setStrokeColor_fuel (fuel w) e color w.

Fixpoint setFillColor_fuel (n : nat) (e : eid) (color : option string) (w : World) : World :=
  let w := match color with
           | Some c => upd e (set_e_fillColor (Some c)) w
           | None => w
           end in
  let w := upd_shape e (set_sh_fill (attr_of_color (getFillColor w e None))) w in
  match n with
  | 0 => w
  | S n' => foldl (fun w ch => setFillColor_fuel n' ch None w) w (e_children (look w e))
  end.
Definition setFillColor (e : eid) (color : option string) (w : World) : World :=
  setFillColor_fuel (fuel w) e color w.

(** [setStrokeWidth]: the shape's [fill] is given the width, and the children
    are only asked for theirs ([ch.getStrokeWidth(null)]). *)
Definition setStrokeWidth (e : eid) (width : option float) (w : World) : World :=
  let w := match width with
           | Some v => upd e (set_e_strokeWidth (Some v)) w
           | None => w
           end in
  upd_shape e (set_sh_fill (attr_of_width (getStrokeWidth w e None))) w.

(** ** Keypoint *)

Definition set_position (pos : option Pos) (x : Entity) : Entity :=
  match e_kind x with
  | KKeypoint _ r => set_e_kind (KKeypoint pos r) x
  | _ => x
  end.

Definition Keypoint_setPosition_ (k : eid) (pos : option Pos) (updateShape : bool) (w : World)
    : World :=
  let w := upd k (set_position pos) w in
  if updateShape then
    match pos with
    | Some p => upd_shape k (fun sh => set_sh_visible true (set_sh_pos (Some p) sh)) w
    | None => upd_shape k (set_sh_visible false) w
    end
  else w.

Definition setRadius (k : eid) (radius : float) (updateShape : bool) (w : World) : World :=
  let w := upd k (fun x => match e_kind x with
                           | KKeypoint p _ => set_e_kind (KKeypoint p radius) x
                           | _ => x
                           end) w in
  if updateShape then upd_shape k (set_sh_radius radius) w else w.

Definition keypoint_radius (w : World) (k : eid) : float :=
  match e_kind (look w k) with KKeypoint _ r => r | _ => 5%float end.

(** The body of the drag listener installed by [setupDragListeners]. *)
Definition Keypoint_onDrag (k : eid) (pos : Pos) (w : World) : World :=
  changeState k true (upd k (set_position (Some pos)) w).

(** [layer.add(shape)] and [shape.moveTo(layer)] on an undefined layer. *)
Definition TypeError : string := "TypeError".

Definition Keypoint_render (k : eid) (layer : option lref) : M unit :=
  w <- gets id ;;
  let x := look w k in
  match Keypoint_getPosition w k with
  | Some p =>
    if visible_truthy w k then
      match e_shape x with
      | None =>
        modify (upd k (set_e_shape (Some
          {| sh_class := Point; sh_name := e_name x; sh_pos := Some p;
             sh_fill := attr_of_color (getFillColor w k None);
             sh_stroke := attr_of_color (getStrokeColor w k None);
             sh_strokeWidth := ANum 2%float; sh_radius := keypoint_radius w k;
             sh_visible := true; sh_layer := None; sh_points := [] |}))) ;;
        match layer with
        | Some l => modify (upd_shape k (set_sh_layer (Some l)))
        | None => throw TypeError
        end
      | Some sh =>
        match layer with
        | Some l => modify (upd_shape k (set_sh_layer (Some l)))
        | None => modify (upd_shape k (set_sh_layer None)) ;; throw TypeError
        end ;;
        modify (upd_shape k (fun sh => set_sh_visible true (set_sh_pos (Some p) sh)))
      end
    else modify (upd_shape k (set_sh_visible false))
  | None => modify (upd_shape k (set_sh_visible false))
  end.

(** ** Bone *)

Definition has_shape (w : World) (e : eid) : bool := bool_decide (is_Some (e_shape (look w e))).

Definition shape_xy (w : World) (k : eid) : list coord :=
  match e_shape (look w k) with
  | Some sh => match sh_pos sh with
               | Some p => [pos_x p; pos_y p]
               | None => [None; None]
               end
  | None => []
  end.

Definition Bone_render (b : eid) (layer : option lref) : M unit :=
  w <- gets id ;;
  match e_kind (look w b) with
  | KBone s t =>
    if e_isDestroyed (look w b) then ret tt
    else
      match layer with
      | Some l => modify (upd b (set_e_layer (Some l)))
      | None => ret tt
      end ;;
      if negb (visible_truthy w b) then modify (upd_shape b (set_sh_visible false))
      else
        match Keypoint_getPosition w s, Keypoint_getPosition w t with
        | Some startPos, Some endPos =>
          modify (upd s (set_e_fillColor None)) ;;
          modify (setFillColor s None) ;;
          modify (upd t (set_e_fillColor None)) ;;
          modify (setFillColor t None) ;;
          match e_shape (look w b) with
          | None =>
            w <- gets id ;;
            when (negb (has_shape w s) && negb (e_isDestroyed (look w s))) (Keypoint_render s layer) ;;
            w <- gets id ;;
            when (negb (has_shape w t) && negb (e_isDestroyed (look w t))) (Keypoint_render t layer) ;;
            w <- gets id ;;
            if has_shape w s && has_shape w t then
              modify (upd b (set_e_shape (Some
                {| sh_class := Line; sh_name := e_name (look w b); sh_pos := None;
                   sh_fill := attr_of_color (getFillColor w b None);
                   sh_stroke := attr_of_color (getStrokeColor w b None);
                   sh_strokeWidth := attr_of_width (getStrokeWidth w b None);
                   sh_radius := 0%float; sh_visible := true; sh_layer := None;
                   sh_points := shape_xy w s ++ shape_xy w t |}))) ;;
              match layer with
              | Some l => modify (upd_shape b (set_sh_layer (Some l)))
              | None => throw TypeError
              end
            else ret tt
          | Some sh =>
            match layer with
            | Some l => modify (upd_shape b (set_sh_layer (Some l)))
            | None => modify (upd_shape b (set_sh_layer None)) ;; throw TypeError
            end ;;
            modify (upd_shape b (fun sh =>
              set_sh_visible true
                (set_sh_points [pos_x startPos; pos_y startPos; pos_x endPos; pos_y endPos] sh)))
          end
        | startPos, endPos =>
          modify (upd_shape b (set_sh_visible false)) ;;
          when (bool_decide (is_Some endPos)) (modify (setFillColor t (Some "yellow"))) ;;
          when (bool_decide (is_Some startPos)) (modify (setFillColor s (Some "yellow")))
        end
  | _ => ret tt
  end.

(** [_updateConnectedBones]: the bones of the owning Drawable that end in this
    keypoint are rendered again on the Drawable's layer. *)
Fixpoint owning_drawable (n : nat) (w : World) (e : option eid) : option eid :=
  match e with
  | None => None
  | Some d =>
    if is_drawable w d then Some d
    else match n with
         | 0 => None
         | S n' => owning_drawable n' w (e_parent (look w d))
         end
  end.

Definition Keypoint_updateConnectedBones (k : eid) : M unit :=
  w <- gets id ;;
  match owning_drawable (fuel w) w (e_parent (look w k)) with
  | Some drawable =>
    match e_layer (look w drawable), drawable_data w drawable with
    | Some layer, Some dd =>
      forEach (d_limbs dd) (fun limb =>
        w <- gets id ;;
        forEach (e_children (look w limb)) (fun bone =>
          w <- gets id ;;
          match e_kind (look w bone) with
          | KBone s t =>
            when (Nat.eqb s k || Nat.eqb t k) (Bone_render bone (Some layer))
          | _ => ret tt
          end))
    | _, _ => ret tt
    end
  | None => ret tt
  end.

Definition Keypoint_setPosition (k : eid) (pos : option Pos) (updateShape : bool) : M unit :=
  modify (changeState k true) ;;
  modify (Keypoint_setPosition_ k pos updateShape) ;;
  when updateShape (Keypoint_updateConnectedBones k).

(** ** Moving entities *)

Definition add_offset (offset : Pos) (p : Pos) : Pos :=
  mkPos (Some (PrimFloat.add (to_number (pos_x p)) (to_number (pos_x offset))))
        (Some (PrimFloat.add (to_number (pos_y p)) (to_number (pos_y offset)))).
Definition offset_to (pos currentPos : Pos) : Pos :=
  mkPos (Some (PrimFloat.sub (to_number (pos_x pos)) (to_number (pos_x currentPos))))
        (Some (PrimFloat.sub (to_number (pos_y pos)) (to_number (pos_y currentPos)))).

(** [Entity.setOffset]; the entities returned by [getAllKeypoints] are Keypoints. *)
Definition Entity_setOffset (e : eid) (offset : Pos) (updateShape : bool) : M unit :=
  modify (changeState e true) ;;
  w <- gets id ;;
  forEach (if is_keypoint w e then [e] else getAllKeypoints w e) (fun kp =>
    w <- gets id ;;
    match Keypoint_getPosition w kp with
    | Some pos => Keypoint_setPosition kp (Some (add_offset offset pos)) updateShape
    | None => ret tt
    end).

Definition setOffset (e : eid) (offset : Pos) (updateShape : bool) : M unit :=
  w <- gets id ;;
  match e_kind (look w e) with
  | KBone s t => Entity_setOffset s offset updateShape ;; Entity_setOffset t offset updateShape
  | _ => Entity_setOffset e offset updateShape
  end.

Definition Bone_setPosition_ (b : eid) (pos : option Pos) (updateShape : bool) : M unit :=
  w <- gets id ;;
  match pos, Bone_getPosition w b, e_kind (look w b) with
  | Some pos, Some currentPos, KBone s t =>
    let offset := offset_to pos currentPos in
    Entity_setOffset s offset updateShape ;; Entity_setOffset t offset updateShape
  | _, _, _ => ret tt
  end.

Definition Limb_setPosition_ (l : eid) (pos : option Pos) (updateShape : bool) : M unit :=
  w <- gets id ;;
  match pos, Limb_getPosition w l with
  | Some pos, Some currentPos =>
    let offset := offset_to pos currentPos in
    forEach (getAllKeypoints w l) (fun kp => Entity_setOffset kp offset updateShape)
  | _, _ => ret tt
  end.

(** [Drawable._setPosition(pos)]: [pos.x] throws on a null [pos]. *)
Definition Drawable_setPosition_ (d : eid) (pos : option Pos) : M unit :=
  w <- gets id ;;
  match Drawable_getPosition w d with
  | None => ret tt
  | Some currentPos =>
    match pos with
    | None => throw TypeError
    | Some pos =>
      let offset := offset_to pos currentPos in
      forEach (getAllKeypoints w d) (fun kp =>
        w <- gets id ;;
        match Keypoint_getPosition w kp with
        | Some kpPos => modify (Keypoint_setPosition_ kp (Some (add_offset offset kpPos)) true)
        | None => ret tt
        end)
    end
  end.

Definition setPosition (e : eid) (pos : option Pos) (updateShape : bool) : M unit :=
  w <- gets id ;;
  match e_kind (look w e) with
  | KKeypoint _ _ => Keypoint_setPosition e pos updateShape
  | KBone _ _ => modify (changeState e true) ;; Bone_setPosition_ e pos updateShape
  | KLimb => modify (changeState e true) ;; Limb_setPosition_ e pos updateShape
  | KDrawable _ => modify (changeState e true) ;; Drawable_setPosition_ e pos
  | KScene _ => modify (changeState e true)
  end.

(** ** Rendering and destruction *)

(** [getPerspectiveTransformedImage()?.toKonvaConfig()] yields an image when
    the image object exists and the four corners have positions; the warp
    itself belongs to the perspective-transform collaborator. *)
Definition transformedImage_config (w : World) (d : eid) : bool :=
  match drawable_data w d with
  | Some dd =>
    d_image dd
    && forallb (fun name =>
                  match sget name (d_keypointsDict dd) with
                  | Some kp => bool_decide (is_Some (Keypoint_getPosition w kp))
                  | None => false
                  end)
               ["TopLeft"; "TopRight"; "BotRight"; "BotLeft"]
  | None => false
  end.

Definition upd_imageShape (d : eid) (f : Shape -> Shape) : World -> World :=
  upd_drawable d (fun dd => set_d_imageShape (f <$> d_imageShape dd) dd).

(** The part of [DistortableImage.render] after [super.render(layer)]. *)
Definition DistortableImage_renderImage (d : eid) (layer : option lref) : M unit :=
  w <- gets id ;;
  if negb (visible_truthy w d) then modify (upd_imageShape d (set_sh_visible false))
  else if transformedImage_config w d then
    match drawable_data w d with
    | Some dd =>
      match d_imageShape dd with
      | None =>
        modify (upd_drawable d (set_d_imageShape (Some
          {| sh_class := Image; sh_name := ""; sh_pos := None; sh_fill := ANull;
             sh_stroke := ANull; sh_strokeWidth := ANull; sh_radius := 0%float;
             sh_visible := true; sh_layer := None; sh_points := [] |}))) ;;
        match layer with
        | Some l => modify (upd_imageShape d (set_sh_layer (Some l)))
        | None => throw TypeError
        end
      | Some _ => modify (upd_imageShape d (set_sh_visible true))
      end
    | None => ret tt
    end
  else ret tt.

Fixpoint render_fuel (n : nat) (e : eid) (layer : option lref) : M unit :=
  w <- gets id ;;
  match e_kind (look w e) with
  | KKeypoint _ _ => Keypoint_render e layer
  | KBone _ _ => Bone_render e layer
  | KLimb =>
    forEach (getAllKeypoints w e) (fun kp => Keypoint_render kp layer) ;;
    match n with
    | 0 => ret tt
    | S n' => w <- gets id ;; forEach (e_children (look w e)) (fun ch => render_fuel n' ch layer)
    end
  | k =>
    match layer with
    | Some l => modify (upd e (set_e_layer (Some l)))
    | None => ret tt
    end ;;
    (if visible_truthy w e then
       match n with
       | 0 => ret tt
       | S n' => forEach (e_children (look w e)) (fun ch => render_fuel n' ch layer)
       end
     else ret tt) ;;
    match k with
    | KDrawable dd =>
      if bool_decide (d_class dd = CDistortableImage) then DistortableImage_renderImage e layer
      else ret tt
    | _ => ret tt
    end
  end.
Definition render (e : eid) (layer : option lref) : M unit :=
  w <- gets id ;; render_fuel (fuel w) e layer.

Fixpoint destroy_fuel (n : nat) (e : eid) : M unit :=
  w <- gets id ;;
  match e_kind (look w e) with
  | KKeypoint _ _ | KBone _ _ => modify (upd e (set_e_shape None))
  | KDrawable dd =>
    if bool_decide (d_class dd = CDistortableImage) then
      forEach (getAllKeypoints w e) (fun kp =>
        w <- gets id ;; if has_shape w kp then ret tt else throw TypeError) ;;
      modify (upd_drawable e (fun dd => set_d_image false (set_d_imageShape None dd)))
    else ret tt
  | _ => ret tt
  end ;;
  modify (upd e (set_e_isDestroyed true)) ;;
  w <- gets id ;;
  match n with
  | 0 => ret tt
  | S n' => forEach (e_children (look w e)) (destroy_fuel n')
  end ;;
  modify (upd e (set_e_children [])).
Definition destroy (e : eid) : M unit :=
  w <- gets id ;; destroy_fuel (fuel w) e.

(** ** PoseLayer *)

Definition PoseLayer_renderDrawable (poseLayer : plref) (drawable : eid) : M unit :=
  w <- gets id ;;
  match w_poseLayers w !! poseLayer with
  | Some pl =>
    render drawable (Some (pl_layer pl)) ;;
    modify (upd_pl poseLayer (fun pl =>
      if includes drawable (pl_drawables pl) then pl
      else set_pl_drawables (pl_drawables pl ++ [drawable]) pl))
  | None => throw TypeError
  end.

Definition PoseLayer_removeDrawable (poseLayer : plref) (drawable : eid) (w : World) : World :=
  upd_pl poseLayer (fun pl =>
    match indexOf drawable (pl_drawables pl) with
    | Some index => set_pl_drawables (splice1 index (pl_drawables pl)) pl
    | None => pl
    end) w.

(** [clear()]: [this.layer.destroy()]. *)
Definition PoseLayer_clear (poseLayer : plref) (w : World) : World :=
  match w_poseLayers w !! poseLayer with
  | Some pl => upd_klayer (pl_layer pl) (set_kl_destroyed true) w
  | None => w
  end.

(** [new PoseLayer(layer, scene)] with a scene given. *)
Definition new_PoseLayer (layer : lref) (scene : eid) : M plref :=
  p <- alloc_pl (mkPoseLayer layer [] scene) ;;
  modify (upd_scene scene (fun sd =>
    if includes p (sc_poseLayers sd) then sd
    else set_sc_poseLayers (sc_poseLayers sd ++ [p]) sd)) ;;
  ret p.

(** ** SkeletonDataAccess: templates *)

Definition loadSkeletonData (w : World) (formatId : string) : option SkeletonData :=
  sget formatId (w_templates w).

Definition getEdge (skeletonData : SkeletonData) (edgeIndex : nat) : option nat * option nat :=
  (sk_edges skeletonData !! (edgeIndex * 2), sk_edges skeletonData !! (edgeIndex * 2 + 1)).

(** An entry of the position array that is missing counts as [null]. *)
Definition getVertexPosition (skeletonData : SkeletonData) (index : nat) (bbox : BBox) : Pos :=
  let rawX := mjoin (sk_positions skeletonData !! (index * 2)) in
  let rawY := mjoin (sk_positions skeletonData !! (index * 2 + 1)) in
  match rawX, rawY with
  | None, None => mkPos None None
  | _, _ =>
    match sk_naturalBounds skeletonData with
    | Some nb =>
      if truthy_coord (bb_width bbox) && truthy_coord (bb_height bbox) then
        let scaleX := if truthy_num (nb_width nb)
                      then PrimFloat.div (to_number (bb_width bbox)) (nb_width nb) else 1%float in
        let scaleY := if truthy_num (nb_height nb)
                      then PrimFloat.div (to_number (bb_height bbox)) (nb_height nb) else 1%float in
        mkPos (Some (PrimFloat.add (to_number (bb_x bbox))
                       (PrimFloat.mul (PrimFloat.sub (to_number rawX) (nb_minX nb)) scaleX)))
              (Some (PrimFloat.add (to_number (bb_y bbox))
                       (PrimFloat.mul (PrimFloat.sub (to_number rawY) (nb_minY nb)) scaleY)))
      else
        mkPos (Some (PrimFloat.add (to_number rawX)
                       (if truthy_coord (bb_x bbox) then to_number (bb_x bbox) else 0%float)))
              (Some (PrimFloat.add (to_number rawY)
                       (if truthy_coord (bb_y bbox) then to_number (bb_y bbox) else 0%float)))
    | None =>
      mkPos (Some (PrimFloat.add (to_number rawX)
                     (if truthy_coord (bb_x bbox) then to_number (bb_x bbox) else 0%float)))
            (Some (PrimFloat.add (to_number rawY)
                     (if truthy_coord (bb_y bbox) then to_number (bb_y bbox) else 0%float)))
    end
  end.

(** ** Drawable: building the skeleton *)

Record BoneSpec := mkBoneSpec { bs_name : string; bs_start : string; bs_end : string }.
Record LimbSpec := mkLimbSpec { lm_name : string; lm_bones : list BoneSpec }.
Record Structure := mkStructure {
  str_names : list string;
  str_positions : list Pos;
  str_limbs : list LimbSpec
}.

(** [names[i]] inside a template literal or as a property key. *)
Definition name_at (names : list string) (i : option nat) : string :=
  default "undefined" (i ≫= fun i => names !! i).

Definition has_index (vertexSet : list nat) (i : option nat) : bool :=
  from_option (fun i => includes i vertexSet) false i.

Definition allBones (personData : SkeletonData) : list (BoneSpec * (option nat * option nat)) :=
  (fun i =>
     let '(startIdx, endIdx) := getEdge personData i in
     let names := sk_names personData in
     (mkBoneSpec (name_at names startIdx ++ "To" ++ name_at names endIdx)%string
                 (name_at names startIdx) (name_at names endIdx),
      (startIdx, endIdx)))
  <$> seq 0 (length (sk_edges personData) / 2).

Definition in_limb (vertexSet : list nat) (bone : BoneSpec * (option nat * option nat)) : bool :=
  has_index vertexSet bone.2.1 && has_index vertexSet bone.2.2.

(** [buildStructure]: a template that does not load, or a limb name without
    its vertex set, throws (inside the [try] of [buildSkeleton]). *)
Definition buildStructure (d : eid) (cx cy width height : coord)
    (personData : option SkeletonData) : M Structure :=
  w <- gets id ;;
  let format := from_option d_format "" (drawable_data w d) in
  match (match personData with Some p => Some p | None => loadSkeletonData w format end) with
  | None => throw TypeError
  | Some personData =>
    let bones := allBones personData in
    let limbVertexSets := sk_limbs personData in
    if bool_decide (bones <> [])
       && bool_decide (length limbVertexSets < length (sk_limbNames personData))
    then throw TypeError
    else
      let limbs :=
        imap (fun limbIndex limbName =>
                let vertexSet := default [] (limbVertexSets !! limbIndex) in
                mkLimbSpec limbName (fst <$> filter (fun b => in_limb vertexSet b = true) bones))
             (sk_limbNames personData) in
      let assigned (b : BoneSpec * (option nat * option nat)) :=
        existsb (fun vertexSet => in_limb vertexSet b)
                (take (length (sk_limbNames personData)) limbVertexSets) in
      let othersBones := fst <$> filter (fun b => assigned b = false) bones in
      let limbs := match othersBones with
                   | [] => limbs
                   | _ => limbs ++ [mkLimbSpec "Others" othersBones]
                   end in
      ret (mkStructure (sk_names personData)
             (imap (fun i _ => getVertexPosition personData i (mkBBox cx cy width height))
                   (sk_names personData))
             limbs)
  end.

(** [['Face', 'LHand', 'RHand'].some(partName => name.startsWith(partName + '_'))]. *)
Definition is_detail_name (name : string) : bool :=
  existsb (fun partName => String.prefix (partName ++ "_")%string name) ["Face"; "LHand"; "RHand"].

Definition keypointsDict (w : World) (d : eid) : list (string * eid) :=
  from_option d_keypointsDict [] (drawable_data w d).
Definition limbs (w : World) (d : eid) : list eid :=
  from_option d_limbs [] (drawable_data w d).

(** [new Keypoint(name, x, y, parent)]. *)
Definition new_Keypoint (name : string) (x y : coord) (parent : option eid) : M eid :=
  new_entity name parent true
    (KKeypoint (match x, y with Some _, Some _ => Some (mkPos x y) | _, _ => None end) 5%float).
Definition new_Limb (name : string) (parent : option eid) : M eid :=
  new_entity name parent true KLimb.
Definition new_Bone (name : string) (startKeypoint endKeypoint : eid) (parent : option eid)
    : M eid :=
  new_entity name parent true (KBone startKeypoint endKeypoint).

(** The body of [skeletonData.names.forEach] in [buildSkeleton]; the result
    tells whether the keypoint was there already. *)
Definition buildKeypoint (d : eid) (name : string) (pos : Pos) : M bool :=
  w <- gets id ;;
  existed <- match sget name (keypointsDict w d) with
             | None =>
               kp <- new_Keypoint name (pos_x pos) (pos_y pos) (Some d) ;;
               modify (upd_drawable d (fun dd =>
                 set_d_keypointsDict (sset name kp (d_keypointsDict dd)) dd)) ;;
               ret false
             | Some kp =>
               modify (Keypoint_setPosition_ kp (Some pos) true) ;;
               ret true
             end ;;
  w <- gets id ;;
  match sget name (keypointsDict w d) with
  | Some kp =>
    when (is_detail_name name)
      (modify (setRadius kp 1%float true) ;;
       modify (setStrokeColor kp (Some "gray")) ;;
       modify (setFillColor kp (Some "gray")))
  | None => ret tt
  end ;;
  ret existed.

Fixpoint buildKeypoints (d : eid) (names : list string) (positions : list Pos)
    (skeletonExists : bool) : M bool :=
  match names, positions with
  | name :: names', pos :: positions' =>
    existed <- buildKeypoint d name pos ;;
    buildKeypoints d names' positions' (skeletonExists || existed)
  | _, _ => ret skeletonExists
  end.

Definition buildBone (d limbObj : eid) (bone : BoneSpec) : M unit :=
  w <- gets id ;;
  match sget (bs_start bone) (keypointsDict w d), sget (bs_end bone) (keypointsDict w d) with
  | Some startKp, Some endKp =>
    boneEn <- new_Bone (bs_name bone) startKp endKp (Some limbObj) ;;
    when (is_detail_name (bs_name bone))
      (modify (setStrokeColor boneEn (Some "gray")) ;;
       modify (setStrokeWidth boneEn (Some 1%float)))
  | _, _ => ret tt
  end.

Definition buildLimb (d : eid) (limb : LimbSpec) : M unit :=
  limbObj <- new_Limb (lm_name limb) (Some d) ;;
  modify (upd_drawable d (fun dd => set_d_limbs (d_limbs dd ++ [limbObj]) dd)) ;;
  forEach (lm_bones limb) (buildBone d limbObj).

(** [buildSkeleton]: whatever is thrown inside is caught and logged. *)
Definition buildSkeleton (d : eid) (cx cy width height : coord)
    (personData : option SkeletonData) : M unit :=
  try_catch
    (skeletonData <- buildStructure d cx cy width height personData ;;
     skeletonExists <- buildKeypoints d (str_names skeletonData) (str_positions skeletonData)
                         false ;;
     (if skeletonExists then ret tt
      else forEach (str_limbs skeletonData) (buildLimb d)) ;;
     modify (changeState d true))
    (fun error => ret tt).

(** [new Drawable(...)] and its subclasses. *)
Definition new_Drawable (cls : DrawableClass) (name : string) (cx cy width height : coord)
    (parent : option eid) (format : string) (withLock : bool) (imagePath : option string)
    : M eid :=
  d <- new_entity name parent withLock
         (KDrawable {| d_class := cls; d_keypointsDict := []; d_limbs := [];
                       d_format := format;
                       d_originalBBox := mkBBox cx cy width height;
                       d_imagePath := imagePath; d_image := false; d_imageShape := None;
                       d_constrainedImageSize := None; d_imageNaturalSize := None |}) ;;
  modify (lockStateChange d) ;;
  modify (upd d (set_e_alpha (Some 1%float))) ;;
  ret d.

(** [Drawable.create] as inherited by Person. *)
Definition Drawable_create (cls : DrawableClass) (name : string) (cx cy width height : coord)
    (parent : option eid) (format : string) (withLock : bool)
    (personData : option SkeletonData) : M eid :=
  obj <- new_Drawable cls name cx cy width height parent format withLock None ;;
  buildSkeleton obj cx cy width height personData ;;
  modify (unlockStateChange obj) ;;
  ret obj.

Definition resetPose (d : eid) (x y width height : coord) : M unit :=
  w <- gets id ;;
  let bbox := from_option d_originalBBox (mkBBox None None None None) (drawable_data w d) in
  let or_else (a b : coord) := match a with Some _ => a | None => b end in
  buildSkeleton d (or_else x (bb_x bbox)) (or_else y (bb_y bbox))
                (or_else width (bb_width bbox)) (or_else height (bb_height bbox)) None.

(** [loadImage]: the promise rejects when the image does not load. *)
Definition loadImage (d : eid) (imagePath : option string) : M unit :=
  w <- gets id ;;
  let current := drawable_data w d ≫= d_imagePath in
  path <- match imagePath with
          | Some p =>
            if ostr_eqb (Some p) current then ret current
            else modify (upd_drawable d (set_d_imagePath (Some p))) ;;
                 modify (changeState d true) ;;
                 ret (Some p)
          | None => ret current
          end ;;
  match path with
  | None =>
    modify (upd_drawable d (fun dd => set_d_imageNaturalSize None (set_d_image false dd)))
  | Some p =>
    modify (upd_drawable d (set_d_image true)) ;;
    match sget p (w_imageFiles w) with
    | Some natural =>
      modify (upd_drawable d (set_d_imageNaturalSize (Some natural))) ;;
      w <- gets id ;;
      let imageSize := default natural (drawable_data w d ≫= d_constrainedImageSize) in
      resetPose d None None (sz_width imageSize) (sz_height imageSize)
    | None => throw ("Failed to load image: " ++ p)%string
    end
  end.

Definition DistortableImage_create (name : string) (cx cy width height : coord)
    (imagePath : option string) (parent : option eid) : M eid :=
  obj <- new_Drawable CDistortableImage name cx cy width height parent "IMAGE" true imagePath ;;
  buildSkeleton obj cx cy width height None ;;
  try_catch (loadImage obj None) (fun error => ret tt) ;;
  modify (unlockStateChange obj) ;;
  ret obj.

(** ** Scene *)

Definition COLORS : list string :=
  ["black"; "blue"; "green"; "red"; "purple"; "orange"; "cyan"; "magenta"; "brown"].

Definition addPerson (scene : eid) (bbox : BBox) (personData : option SkeletonData)
    (strokeColor fillColor : option string) (format : string) : M eid :=
  w <- gets id ;;
  let personNum := length (persons w scene) + 1 in
  modify (lockStateChange scene) ;;
  person <- Drawable_create CPerson ("Person" ++ pretty personNum)%string
              (bb_x bbox) (bb_y bbox) (bb_width bbox) (bb_height bbox)
              (Some scene) format true personData ;;
  let strokeColor :=
    if truthy_ostr strokeColor then strokeColor
    else
      let colorArr := filter (fun color => ostr_eqb (Some color) fillColor = false) COLORS in
      colorArr !! ((personNum - 1) mod length colorArr) in
  modify (setStrokeColor person strokeColor) ;;
  modify (setFillColor person fillColor) ;;
  modify (unlockStateChange scene) ;;
  modify (changeState person true) ;;
  ret person.

Definition addImage (scene : eid) (bbox : BBox) (imagePath : option string)
    (strokeColor fillColor : option string) : M eid :=
  w <- gets id ;;
  let imageNum := length (images w scene) + 1 in
  modify (lockStateChange scene) ;;
  image <- DistortableImage_create ("Image" ++ pretty imageNum)%string
             (bb_x bbox) (bb_y bbox) (bb_width bbox) (bb_height bbox)
             imagePath (Some scene) ;;
  match bb_height bbox, bb_width bbox with
  | Some _, Some _ =>
    modify (upd_drawable image
              (set_d_constrainedImageSize (Some (mkSize (bb_width bbox) (bb_height bbox)))))
  | _, _ => ret tt
  end ;;
  let strokeColor :=
    if truthy_ostr strokeColor then strokeColor
    else COLORS !! ((imageNum - 1) mod length COLORS) in
  modify (setStrokeColor image strokeColor) ;;
  modify (setFillColor image fillColor) ;;
  modify (unlockStateChange scene) ;;
  modify (changeState image true) ;;
  ret image.

Definition removeDrawable (scene drawable : eid) : M unit :=
  w <- gets id ;;
  if includes drawable (drawables w scene) then
    modify (removeChild scene drawable) ;;
    w <- gets id ;;
    forEach (poseLayers w scene) (fun poseLayer =>
      modify (PoseLayer_removeDrawable poseLayer drawable)) ;;
    destroy drawable
  else ret tt.

(** [deletePoseLayer]: [splice(indexOf(poseLayer), 1)] removes the last pose
    layer when [poseLayer] is not registered. *)
Definition deletePoseLayer (scene : eid) (poseLayer : option plref) : M unit :=
  match poseLayer with
  | None => throw TypeError
  | Some p =>
    modify (PoseLayer_clear p) ;;
    modify (upd_scene scene (fun sd =>
      set_sc_poseLayers
        (match indexOf p (sc_poseLayers sd) with
         | Some i => splice1 i (sc_poseLayers sd)
         | None => take (length (sc_poseLayers sd) - 1) (sc_poseLayers sd)
         end) sd))
  end.

(** ** CanvasManager *)

(** The argument of [setCurrentLayer]: the revision manager passes an index,
    and, in [restoreLayer], what [getCurrentLayer()] returned (a layer or
    null). *)
Inductive LayerArg := ArgIndex (i : Z) | ArgLayer (l : lref) | ArgNull.

Definition getLayers (w : World) : list lref := cm_layers (w_cm w).

Definition getCurrentLayer (w : World) : option lref :=
  match cm_currentLayerIndex (w_cm w) with
  | Some i => if bool_decide (0 <= i)%Z then getLayers w !! Z.to_nat i else None
  | None => None
  end.

Definition updateLayerOpacities (w : World) : World :=
  foldl (fun w '(idx, layer) =>
           upd_klayer layer
             (set_kl_opacity (if bool_decide (cm_currentLayerIndex (w_cm w) = Some (Z.of_nat idx))
                              then 1%float else 0.5%float)) w)
        w (imap pair (getLayers w)).

Definition in_range (i : Z) (w : World) : bool :=
  bool_decide (0 <= i)%Z && bool_decide (i < Z.of_nat (length (getLayers w)))%Z.

Definition setCurrentLayer (index : LayerArg) (w : World) : World :=
  match index with
  | ArgIndex i =>
    if in_range i w then updateLayerOpacities (upd_cm (set_cm_currentLayerIndex (Some i)) w)
    else w
  | ArgLayer _ => w
  | ArgNull =>
    if in_range 0 w then updateLayerOpacities (upd_cm (set_cm_currentLayerIndex None) w)
    else w
  end.

Definition index_arg (i : option nat) : Z :=
  match i with Some n => Z.of_nat n | None => (-1)%Z end.

Definition layer_arg (l : option lref) : LayerArg :=
  match l with Some l => ArgLayer l | None => ArgNull end.

Definition reorderLayers (fromIndex toIndex : Z) (w : World) : World :=
  if in_range fromIndex w && in_range toIndex w then
    let from := Z.to_nat fromIndex in
    let to := Z.to_nat toIndex in
    let scene := cm_scene (w_cm w) in
    let w := match getLayers w !! from with
             | Some movedLayer =>
               upd_cm (set_cm_layers (splice_in to movedLayer (splice1 from (getLayers w)))) w
             | None => w
             end in
    let w := match poseLayers w scene !! from with
             | Some movedPoseLayer =>
               upd_scene scene (fun sd =>
                 set_sc_poseLayers (splice_in to movedPoseLayer (splice1 from (sc_poseLayers sd)))
                                   sd) w
             | None => w
             end in
    upd_cm (set_cm_currentLayerIndex (Some toIndex)) w
  else w.

Definition deleteLayer (index : Z) : M unit :=
  w <- gets id ;;
  if in_range index w then
    modify (upd_cm (set_cm_layers (splice1 (Z.to_nat index) (getLayers w)))) ;;
    deletePoseLayer (cm_scene (w_cm w)) (poseLayers w (cm_scene (w_cm w)) !! Z.to_nat index) ;;
    modify (fun w =>
      let len := Z.of_nat (length (getLayers w)) in
      if bool_decide (len <= default 0%Z (cm_currentLayerIndex (w_cm w)))%Z
      then upd_cm (set_cm_currentLayerIndex (Some (Z.max 0 (len - 1)))) w
      else w) ;;
    modify updateLayerOpacities
  else ret tt.

(** Modelled from the spec: the CanvasManager under src/ has [addLayer()]
    without a parameter and no [moveDrawableToLayer]; the layer-aware revision
    manager calls [addLayer(layer)] and [moveDrawableToLayer(drawable, index)]
    ("supports re-binding a Drawable to a different surface").  [addLayer]
    follows the body of the parameterless one with the given layer. *)
Definition addLayer (layer : lref) : M unit :=
  modify (upd_cm (fun c => set_cm_layers (cm_layers c ++ [layer]) c)) ;;
  w <- gets id ;;
  new_PoseLayer layer (cm_scene (w_cm w)) ;;
  modify (fun w => upd_cm (set_cm_currentLayerIndex
                             (Some (Z.of_nat (length (getLayers w)) - 1)%Z)) w) ;;
  modify updateLayerOpacities.

(** Modelled from the spec: [moveDrawableToLayer] is missing from the
    CanvasManager under src/; it follows the method of that name of the
    object inspector, which re-binds a Drawable from the pose layer of its
    old surface to the pose layer of the new one. *)
Definition moveDrawableToLayer (drawable : eid) (newLayerIndex : nat) : M unit :=
  w <- gets id ;;
  match getLayers w !! newLayerIndex with
  | None => ret tt
  | Some newLayer =>
    let oldLayer := e_layer (look w drawable) in
    if bool_decide (oldLayer = Some newLayer) then ret tt
    else
      let scene := cm_scene (w_cm w) in
      match list_find (fun p => (pl_layer <$> w_poseLayers w !! p) = oldLayer
                                /\ is_Some oldLayer)
                      (poseLayers w scene) with
      | Some (_, oldPoseLayer) => modify (PoseLayer_removeDrawable oldPoseLayer drawable)
      | None => ret tt
      end ;;
      match poseLayers w scene !! newLayerIndex with
      | Some newPoseLayer => PoseLayer_renderDrawable newPoseLayer drawable
      | None => ret tt
      end ;;
      modify (upd drawable (set_e_layer (Some newLayer))) ;;
      match oldLayer with
      | Some _ => ret tt
      | None => throw TypeError
      end ;;
      when (rm_canvasManager (w_rm w)) (modify (changeState scene true))
  end.

(** ** RevisionManager: undo and redo *)

Definition findDrawable (w : World) (uuid : Uuid) : option eid :=
  snd <$> list_find (fun d => e_uuid (look w d) = uuid) (drawables w (rm_scene (w_rm w))).

Definition findPoseLayer (w : World) (layerId : string) : option plref :=
  snd <$> list_find (fun p => poseLayer_id w p = layerId) (poseLayers w (rm_scene (w_rm w))).

(** [childrenMap]: the last entity of a name wins. *)
Definition childrenMap (w : World) (drawable : eid) : list (string * eid) :=
  foldl (fun m c => sset (e_name (look w c)) c m) [] (traverseChildren w drawable).

Definition applyState (drawable : eid) (state : DState) : M unit :=
  let attributes := st_attributes state in
  when (truthy_ostr (at_strokeColor attributes))
       (modify (setStrokeColor drawable (at_strokeColor attributes))) ;;
  when (truthy_ostr (at_fillColor attributes))
       (modify (setFillColor drawable (at_fillColor attributes))) ;;
  modify (setVisible drawable (at_visible attributes)) ;;
  w <- gets id ;;
  let map := childrenMap w drawable in
  forEach (st_children state) (fun '(name, childState) =>
    match sget name map with
    | None => ret tt
    | Some child =>
      match cs_position childState with
      | Some p => setPosition child (Some p) false
      | None => ret tt
      end ;;
      modify (setVisible child (cs_visible childState)) ;;
      when (truthy_ostr (cs_strokeColor childState))
           (modify (upd child (set_e_strokeColor (cs_strokeColor childState)))) ;;
      when (truthy_ostr (cs_fillColor childState))
           (modify (upd child (set_e_fillColor (cs_fillColor childState))))
    end).

Definition restoreDrawable (state : DState) : M unit :=
  w <- gets id ;;
  let scene := rm_scene (w_rm w) in
  let args := st_constructionArgs state in
  drawable <- match st_type state with
              | CPerson =>
                person <- addPerson scene (ca_originalBBox args) None None (Some "white")
                            (default "BODY18" (ca_format args)) ;;
                ret (Some person)
              | CDistortableImage =>
                image <- addImage scene (ca_originalBBox args) (ca_imagePath args) None
                           (Some "white") ;;
                ret (Some image)
              | CDrawable => ret None
              end ;;
  match drawable with
  | None => ret tt
  | Some drawable =>
    modify (upd drawable (set_e_uuid (st_uuid state))) ;;
    modify (upd drawable (set_e_name (ca_name args))) ;;
    applyState drawable state ;;
    match at_layer (st_attributes state) with
    | Some targetLayerId =>
      w <- gets id ;;
      if truthy_str targetLayerId && rm_canvasManager (w_rm w) then
        let targetLayer :=
          snd <$> list_find (fun l => layer_id w l = targetLayerId) (getLayers w) in
        render drawable targetLayer ;;
        modify (fun w => layerState_add targetLayerId (e_uuid (look w drawable)) w)
      else ret tt
    | None => ret tt
    end
  end.

Definition restoreLayer (state : lsref) : M unit :=
  w <- gets id ;;
  if negb (rm_canvasManager (w_rm w)) then ret tt
  else
    match w_lstates w !! state with
    | None => throw TypeError
    | Some st =>
      let scene := cm_scene (w_cm w) in
      modify (lockStateChange scene) ;;
      layer <- alloc_klayer (mkKLayer (ls_layerId st) (ls_layerName st) (ls_visible st)
                                      (ls_opacity st) false) ;;
      let currentLayer := getCurrentLayer w in
      addLayer layer ;;
      w <- gets id ;;
      let newIndex := indexOf layer (getLayers w) in
      when (negb (bool_decide (newIndex = ls_layerIndex st)))
           (modify (reorderLayers (index_arg newIndex) (index_arg (ls_layerIndex st)))) ;;
      w <- gets id ;;
      let poseLayer := ls_layerIndex st ≫= fun i => poseLayers w scene !! i in
      forEach (ls_drawables st) (fun drawableUuid =>
        w <- gets id ;;
        match findDrawable w drawableUuid with
        | Some existingDrawable =>
          match poseLayer with
          | Some p => PoseLayer_renderDrawable p existingDrawable
          | None => throw TypeError
          end ;;
          modify (layerState_add (ls_layerId st) drawableUuid)
        | None =>
          match nget drawableUuid (rm_snapshot (w_rm w)) with
          | Some drawableState =>
            let savedCurrentLayer := getCurrentLayer w in
            modify (setCurrentLayer (ArgIndex (index_arg (ls_layerIndex st)))) ;;
            restoreDrawable drawableState ;;
            modify (setCurrentLayer (layer_arg savedCurrentLayer)) ;;
            modify (layerState_add (ls_layerId st) drawableUuid)
          | None => ret tt
          end
        end) ;;
      modify (fun w =>
        setCurrentLayer
          (ArgIndex (index_arg (currentLayer ≫= fun l => indexOf l (getLayers w)))) w) ;;
      modify (unlockStateChange scene)
    end.

Inductive Mode := UndoMode | RedoMode.
Definition dir {A} (mode : Mode) (d : FromTo A) : A :=
  match mode with UndoMode => ft_from d | RedoMode => ft_to d end.
Definition other_dir {A} (mode : Mode) (d : FromTo A) : A :=
  match mode with UndoMode => ft_to d | RedoMode => ft_from d end.

(** The [layer] key of [applyDiff]. *)
Definition applyLayerDiff (drawable : eid) (d : FromTo (option string)) (mode : Mode) : M unit :=
  w <- gets id ;;
  let val := dir mode d in
  let layerIndex :=
    if rm_canvasManager (w_rm w) then
      fst <$> list_find (fun l => Some (layer_id w l) = val) (getLayers w)
    else None in
  match layerIndex with
  | Some layerIndex =>
    moveDrawableToLayer drawable layerIndex ;;
    modify (fun w =>
      match other_dir mode d with
      | Some oldLayerId =>
        if truthy_str oldLayerId then layerState_remove oldLayerId (e_uuid (look w drawable)) w
        else w
      | None => w
      end) ;;
    modify (fun w =>
      match val with
      | Some newLayerId =>
        if truthy_str newLayerId then layerState_add newLayerId (e_uuid (look w drawable)) w
        else w
      | None => w
      end)
  | None => ret tt
  end.

Definition applyChildDiff (child : eid) (d : ChildDiff) (mode : Mode) : M unit :=
  match cd_position d with
  | Some p => setPosition child (dir mode p) true
  | None => ret tt
  end ;;
  match cd_visible d with
  | Some v => modify (setVisible child (dir mode v))
  | None => ret tt
  end ;;
  match cd_fillColor d with
  | Some c => modify (upd child (set_e_fillColor (dir mode c)))
  | None => ret tt
  end ;;
  match cd_strokeColor d with
  | Some c => modify (upd child (set_e_strokeColor (dir mode c)))
  | None => ret tt
  end.

Definition applyDiff (drawable : eid) (diff : Diff) (mode : Mode) : M unit :=
  w <- gets id ;;
  let cm := rm_canvasManager (w_rm w) in
  when cm (modify (lockStateChange (cm_scene (w_cm w)))) ;;
  let attributes := df_attributes diff in
  match da_visible attributes with
  | Some v => modify (setVisible drawable (dir mode v))
  | None => ret tt
  end ;;
  match da_fillColor attributes with
  | Some c => modify (setFillColor drawable (dir mode c))
  | None => ret tt
  end ;;
  match da_strokeColor attributes with
  | Some c => modify (setStrokeColor drawable (dir mode c))
  | None => ret tt
  end ;;
  match da_layer attributes with
  | Some l => applyLayerDiff drawable l mode
  | None => ret tt
  end ;;
  w <- gets id ;;
  let map := childrenMap w drawable in
  forEach (df_children diff) (fun '(name, d) =>
    match sget name map with
    | Some child => applyChildDiff child d mode
    | None => ret tt
    end) ;;
  when cm (modify (unlockStateChange (cm_scene (w_cm w)))).

(** Removing the Drawable of a [create] (undo) or [destroy] (redo) record. *)
Definition removeRecorded (uuid : Uuid) : M unit :=
  w <- gets id ;;
  match findDrawable w uuid with
  | Some d =>
    match e_layer (look w d) with
    | Some l => modify (layerState_remove (layer_id w l) (e_uuid (look w d)))
    | None => ret tt
    end ;;
    removeDrawable (rm_scene (w_rm w)) d
  | None => ret tt
  end.

(** Rebuilding the Drawable of a [destroy] (undo) or [create] (redo) record. *)
Definition restoreRecorded (state : DState) : M unit :=
  restoreDrawable state ;;
  match at_layer (st_attributes state) with
  | Some targetLayerId =>
    when (truthy_str targetLayerId) (modify (layerState_add targetLayerId (st_uuid state)))
  | None => ret tt
  end.

Definition deleteRecordedLayer (layerId : string) : M unit :=
  w <- gets id ;;
  match findPoseLayer w layerId with
  | Some poseLayer =>
    if rm_canvasManager (w_rm w) then
      deleteLayer (index_arg (w_poseLayers w !! poseLayer ≫= fun pl =>
                                indexOf (pl_layer pl) (getLayers w)))
    else ret tt
  | None => ret tt
  end.

Definition undoChange (change : Change) : M unit :=
  match change with
  | Create uuid _ => removeRecorded uuid
  | Destroy _ state => restoreRecorded state
  | Modify uuid diff =>
    w <- gets id ;;
    match findDrawable w uuid with
    | Some d => applyDiff d diff UndoMode
    | None => ret tt
    end
  | LayerCreate layerId _ => deleteRecordedLayer layerId
  | LayerDestroy _ state => restoreLayer state
  end.

Definition redoChange (change : Change) : M unit :=
  match change with
  | Create _ state => restoreRecorded state
  | Destroy uuid _ => removeRecorded uuid
  | Modify uuid diff =>
    w <- gets id ;;
    match findDrawable w uuid with
    | Some d => applyDiff d diff RedoMode
    | None => ret tt
    end
  | LayerCreate _ state => restoreLayer state
  | LayerDestroy layerId _ => deleteRecordedLayer layerId
  end.

(** [canvasManager.deselectAll()] clears the selection of the transformer
    tool and [onHistoryChange] refreshes the toolbar: neither touches the
    scene or the revision manager. *)
Definition undo : M unit :=
  w <- gets id ;;
  match last (rm_history (w_rm w)) with
  | None => ret tt
  | Some transaction =>
    modify (upd_rm (set_rm_isUndoing true)) ;;
    modify (upd_rm (fun r => set_rm_redoStack (rm_redoStack r ++ [transaction])
                               (set_rm_history (removelast (rm_history r)) r))) ;;
    forEach (reverse transaction) undoChange ;;
    modify (fun w => updateVisibility (rm_scene (w_rm w)) w) ;;
    modify initializeSnapshot ;;
    modify (upd_rm (set_rm_isUndoing false))
  end.

Definition redo : M unit :=
  w <- gets id ;;
  match last (rm_redoStack (w_rm w)) with
  | None => ret tt
  | Some transaction =>
    modify (upd_rm (set_rm_isUndoing true)) ;;
    modify (upd_rm (fun r => set_rm_history (rm_history r ++ [transaction])
                               (set_rm_redoStack (removelast (rm_redoStack r)) r))) ;;
    forEach transaction redoChange ;;
    modify (fun w => updateVisibility (rm_scene (w_rm w)) w) ;;
    modify initializeSnapshot ;;
    modify (upd_rm (set_rm_isUndoing false))
  end.

(** [init()], with the scene already known. *)
Definition init (w : World) : World :=
  initializeSnapshot (upd_scene (rm_scene (w_rm w)) (set_sc_onStateChanged true) w).

(** ** SkeletonDataAccess: export *)

Record PersonJson := mkPersonJson {
  pose_keypoints_2d : list coord;
  face_keypoints_2d : list coord;
  hand_left_keypoints_2d : list coord;
  hand_right_keypoints_2d : list coord
}.

Record CanvasJson := mkCanvasJson {
  cj_people : list PersonJson;
  canvas_width : float;
  canvas_height : float
}.

(** The [toJson] argument and the result: [{people: [...]}] or an array of
    canvases. *)
Inductive Json :=
| JPeople (people : list PersonJson)
| JCanvases (canvases : list CanvasJson).

Definition format_of (w : World) (person : eid) : string :=
  from_option d_format "" (drawable_data w person).

Definition missingKeypoints (w : World) (person : eid) (skeletonData : SkeletonData)
    : list string :=
  filter (fun name => shas name (keypointsDict w person) = false) (sk_names skeletonData).

(** [validatePersonFormatCompatibility]: [inl] is the message of the Error thrown. *)
Definition validatePersonFormatCompatibility (w : World) (person : eid)
    (skeletonData : SkeletonData) : string + bool :=
  let currentFormat := if truthy_str (format_of w person) then format_of w person else "UNKNOWN" in
  let currentKeypoints := (keypointsDict w person).*1 in
  let targetFormat := sk_format skeletonData in
  let missing := missingKeypoints w person skeletonData in
  match missing with
  | [] => inr true
  | _ =>
    let listed := String.concat ", " missing in
    if String.eqb currentFormat "BODY18" && ostr_eqb targetFormat (Some "BODY25") then
      inl ("Cannot export BODY18 pose (18 keypoints) to BODY25 format (25 keypoints). BODY25 requires additional foot/toe keypoints that are not present: "
           ++ listed ++ ". Use ControlNet Standard format instead.")%string
    else if String.eqb currentFormat "BODY25" && ostr_eqb targetFormat (Some "BODY18") then
      inl ("Exporting BODY25 pose (25 keypoints) to ControlNet format (18 keypoints) will lose foot/toe detail: "
           ++ listed ++ ". This is allowed but some pose precision will be lost.")%string
    else
      inl ("Format incompatibility: Current pose (" ++ currentFormat ++ ", "
           ++ pretty (length currentKeypoints) ++ " keypoints) cannot be converted to "
           ++ default "undefined" targetFormat ++ " ("
           ++ pretty (length (sk_names skeletonData)) ++ " keypoints). Missing: "
           ++ listed)%string
  end.

Definition confidence (w : World) (kp : eid) : coord :=
  Some (if visible_truthy w kp then 1%float else 0%float).

Definition exportKeypoints (w : World) (keypointDict : list (string * eid))
    (keypointType : string) : list coord :=
  let selected :=
    filter (fun '(name, _) => String.prefix (keypointType ++ "_")%string name = true)
           keypointDict in
  let keypoints :=
    flat_map (fun '(_, kp) =>
                match Keypoint_getPosition w kp with
                | Some pos => [pos_x pos; pos_y pos; confidence w kp]
                | None => [Some 0%float; Some 0%float; Some 0%float]
                end) selected in
  if existsb (fun '(_, kp) => bool_decide (is_Some (Keypoint_getPosition w kp))) selected
  then keypoints else [].

(** The person record pushed by [createBODY18]; a name without keypoint makes
    [kp.getPosition()] throw. *)
Fixpoint poseKeypoints (w : World) (dict : list (string * eid)) (names : list string)
    : option (list coord) :=
  match names with
  | [] => Some []
  | name :: names' =>
    if is_detail_name name then poseKeypoints w dict names'
    else
      match sget name dict with
      | None => None
      | Some kp =>
        let triple := match Keypoint_getPosition w kp with
                      | Some pos => [pos_x pos; pos_y pos; confidence w kp]
                      | None => [Some 0%float; Some 0%float; Some 0%float]
                      end in
        app triple <$> poseKeypoints w dict names'
      end
  end.

Definition personJson (w : World) (person : eid) (skeletonData : SkeletonData)
    : string + PersonJson :=
  let dict := keypointsDict w person in
  match poseKeypoints w dict (sk_names skeletonData) with
  | None => inl TypeError
  | Some pose =>
    inr (mkPersonJson pose (exportKeypoints w dict "Face") (exportKeypoints w dict "LHand")
                      (exportKeypoints w dict "RHand"))
  end.

Definition createBODY18 (w : World) (person : eid) (skeletonData : SkeletonData)
    (toJson : option Json) : string + Json :=
  match personJson w person skeletonData with
  | inl error => inl error
  | inr p =>
    match toJson with
    | None => inr (JPeople [p])
    | Some (JPeople people) => inr (JPeople (people ++ [p]))
    | Some (JCanvases _) => inl TypeError
    end
  end.

Section OpenPoseJson.
(** [Math.round], [Math.min] and [Math.max] on numbers. *)
Variable Math_round : float -> float.

Definition Math_max (a b : float) : float :=
  if is_nan a || is_nan b then nan else if PrimFloat.ltb a b then b else a.
Definition Math_min (a b : float) : float :=
  if is_nan a || is_nan b then nan else if PrimFloat.ltb b a then b else a.

Definition createBODY18COMFYUI (w : World) (person : eid) (skeletonData : SkeletonData)
    (toJson : option Json) : string + Json :=
  let canvases := match toJson with
                  | None => Some [mkCanvasJson [] 0%float 0%float]
                  | Some (JCanvases cs) => Some cs
                  | Some (JPeople _) => None
                  end in
  match canvases ≫= fun cs => pair (removelast cs) <$> last cs with
  | None => inl TypeError
  | Some (before, data) =>
    match personJson w person skeletonData with
    | inl error => inl error
    | inr p =>
      let positions :=
        omap (fun name => sget name (keypointsDict w person) ≫= Keypoint_getPosition w)
             (sk_names skeletonData) in
      let data := mkCanvasJson (cj_people data ++ [p]) (canvas_width data) (canvas_height data) in
      let data :=
        match positions with
        | [] => data
        | _ =>
          let xs := (fun p => to_number (pos_x p)) <$> positions in
          let ys := (fun p => to_number (pos_y p)) <$> positions in
          let minX := foldr Math_min infinity xs in
          let maxX := foldr Math_max neg_infinity xs in
          let minY := foldr Math_min infinity ys in
          let maxY := foldr Math_max neg_infinity ys in
          mkCanvasJson (cj_people data)
            (Math_max (Math_round (PrimFloat.add (PrimFloat.sub maxX minX) 100%float))
                      (canvas_width data))
            (Math_max (Math_round (PrimFloat.add (PrimFloat.sub maxY minY) 100%float))
                      (canvas_height data))
        end in
      inr (JCanvases (before ++ [data]))
    end
  end.

Definition createBODY25 := createBODY18.

(** [exportPersonAsOpenPoseJson]: [inl] is the message of the Error the
    promise rejects with. *)
Definition exportPersonAsOpenPoseJson (w : World) (person : eid) (format : option string)
    (toJson : option Json) : string + Json :=
  let targetFormat := if truthy_ostr format then default "" format else format_of w person in
  let attempt : string + Json :=
    match loadSkeletonData w targetFormat with
    | None => inl "Cannot read properties of undefined (reading 'names')"
    | Some skeletonData =>
      match validatePersonFormatCompatibility w person skeletonData with
      | inl error => inl error
      | inr false =>
        inl ("Cannot convert to " ++ targetFormat ++ ": incompatible keypoint structure")%string
      | inr true =>
        if String.eqb targetFormat "BODY18" then createBODY18 w person skeletonData toJson
        else if String.eqb targetFormat "BODY18COMFYUI"
             then createBODY18COMFYUI w person skeletonData toJson
        else if String.eqb targetFormat "BODY25" then createBODY25 w person skeletonData toJson
        else inl ("Unsupported format: " ++ targetFormat
                  ++ ". Supported formats: BODY18, BODY18COMFYUI, BODY25")%string
      end
    end in
  match attempt with
  | inl message =>
    inl ("Failed to generate OpenPose JSON data for " ++ targetFormat ++ ": " ++ message)%string
  | inr json => inr json
  end.
End OpenPoseJson.

(** [message] has [part] inside. *)
Definition contains (message part : string) : Prop :=
  exists before after, message = (before ++ part ++ after)%string.

(** ** Sample worlds *)

(** A three-vertex template: a chain A - B - C in one limb. *)
Definition sample_template : SkeletonData :=
  {| sk_positions := [Some 0%float; Some 0%float; Some 10%float; Some 0%float;
                      Some 10%float; Some 10%float];
     sk_edges := [0; 1; 1; 2];
     sk_names := ["A"; "B"; "C"];
     sk_limbs := [[0; 1; 2]];
     sk_limbNames := ["Body"];
     sk_naturalBounds := Some (mkNB 0 0 10 10);
     sk_format := None |}.

(** A template without vertices that still names a limb. *)
Definition bare_template : SkeletonData :=
  {| sk_positions := []; sk_edges := []; sk_names := []; sk_limbs := [[]];
     sk_limbNames := ["Body"]; sk_naturalBounds := None; sk_format := None |}.

(** A template with one face detail point. *)
Definition face_template : SkeletonData :=
  {| sk_positions := [Some 1%float; Some 2%float]; sk_edges := []; sk_names := ["Face_0"];
     sk_limbs := []; sk_limbNames := []; sk_naturalBounds := None; sk_format := None |}.

Definition new_Scene : Entity :=
  mkEntity "Scene" 0 None true (Some true) [] None None (Some 4%float) None None None false 0
           None (KScene (mkSceneData false [] 0)).

(** A scene (entity 0) observed by a revision manager without canvas manager. *)
Definition scene_world (max_history : Z) : World :=
  init {| w_ents := [new_Scene]; w_cells := [0%Z]; w_next_uuid := 1; w_klayers := [];
          w_poseLayers := []; w_lstates := [];
          w_rm := mkRevMgr false 0 max_history [] [] [] [] false;
          w_cm := mkCanvasMgr 0 [] (Some 0%Z);
          w_templates := [("BODY18", sample_template); ("BARE", bare_template);
                          ("FACE", face_template)];
          w_imageFiles := [] |}.

Definition sample_bbox : BBox := mkBBox (Some 100%float) (Some 100%float) None None.

(** The scene after [addPerson]: Person1 is entity 1, its keypoints A, B, C
    are 2, 3, 4, its limb is 5 and the bones AToB and BToC are 6 and 7. *)
Definition person_world : World :=
  Eval vm_compute in
    final (addPerson 0 sample_bbox None None (Some "white") "BODY18" (scene_world 100)).

(** The person of [person_world] rendered on a Konva layer: the keypoints
    carry Point shapes and the bones Line shapes. *)
Definition rendered_world : World :=
  Eval vm_compute in
    final ((layer <- alloc_klayer (mkKLayer "layer-1" "Layer 1" true 1%float false) ;;
            poseLayer <- new_PoseLayer layer 0 ;;
            person <- addPerson 0 sample_bbox None None (Some "white") "BODY18" ;;
            PoseLayer_renderDrawable poseLayer person) (scene_world 100)).

(** A scene with a revision manager that keeps no bound on its history,
    and a Person just added under the lock (no capture has run yet). *)
Definition uncapped_world : World :=
  Eval vm_compute in
    final ((modify (lockStateChange 0) ;;
            addPerson 0 sample_bbox None None (Some "white") "BODY18" ;;
            modify (unlockStateChange 0)) (scene_world 0)).

(** * Auxiliary definitions *)

(** What a capture may not touch before it pushes: the two stacks, the cap,
    the guard and the scene. *)
Definition log_of (w : World) :=
  (rm_history (w_rm w), rm_redoStack (w_rm w), rm_max_history (w_rm w),
   rm_isUndoing (w_rm w), rm_scene (w_rm w), rm_canvasManager (w_rm w)).

(** A parent is older than its children: [parent] is set once, by the
    constructor, to an entity that exists already. *)
Definition wf_parents (w : World) : Prop :=
  forall e p, e_parent (look w e) = Some p -> p < e.

Definition wf_parentsb (w : World) : bool :=
  forallb (fun '(e, x) => match e_parent x with Some p => p <? e | None => true end)
          (imap pair (w_ents w)).

(** The nearest own value along a chain of entities. *)
Definition nearest {A} (own : Entity -> option A) (w : World) (chain : list eid) : option A :=
  head (omap (fun a => own (look w a)) chain).

(** ** Modifies clauses

    Every method of the entity graph writes a known part of the entities it
    touches.  A [Footprint] names the parts of one entity that may be
    written, a [Scope] gives a footprint to every entity and says whether
    the revision manager and the heaps may change.  What rendering owns
    (a shape, the layer, the image shape, and the fill colour of a Keypoint,
    which [Bone.render] uses as its missing-partner signal) is in every
    footprint; names, uuids, parents and the class of an entity are in none. *)

Record Footprint := mkFp {
  fp_flags : bool;      (* [_stateChanged]; for a Scene, the notification count *)
  fp_position : bool;   (* the position of a Keypoint *)
  fp_visible : bool;    (* [_visible] *)
  fp_stroke : bool;     (* [_strokeColor] *)
  fp_fill : bool;       (* [_fillColor] of an entity that is no Keypoint *)
  fp_look : bool;       (* [_strokeWidth] and the radius *)
  fp_build : bool       (* children, lock, [_isDestroyed], [_alpha] and the fields of a
                           Drawable or a Scene *)
}.

Definition fp_leb (a b : Footprint) : bool :=
  implb (fp_flags a) (fp_flags b) && implb (fp_position a) (fp_position b)
  && implb (fp_visible a) (fp_visible b) && implb (fp_stroke a) (fp_stroke b)
  && implb (fp_fill a) (fp_fill b) && implb (fp_look a) (fp_look b)
  && implb (fp_build a) (fp_build b).

Definition fp_join (a b : Footprint) : Footprint :=
  mkFp (fp_flags a || fp_flags b) (fp_position a || fp_position b)
       (fp_visible a || fp_visible b) (fp_stroke a || fp_stroke b)
       (fp_fill a || fp_fill b) (fp_look a || fp_look b) (fp_build a || fp_build b).

Definition nothing : Footprint := mkFp false false false false false false false.
Definition flags : Footprint := mkFp true false false false false false false.
Definition position : Footprint := mkFp false true false false false false false.
Definition visibility : Footprint := mkFp false false true false false false false.
Definition stroke : Footprint := mkFp false false false true false false false.
Definition fill : Footprint := mkFp false false false false true false false.
Definition looks : Footprint := mkFp false false false false false true false.
Definition everything : Footprint := mkFp true true true true true true true.

Definition erase_drawable (fp : Footprint) (dd : DrawableData) : DrawableData :=
  if fp_build fp then
    {| d_class := d_class dd; d_keypointsDict := []; d_limbs := []; d_format := "";
       d_originalBBox := mkBBox None None None None; d_imagePath := None; d_image := false;
       d_imageShape := None; d_constrainedImageSize := None; d_imageNaturalSize := None |}
  else set_d_imageShape None dd.

Definition erase_scene (fp : Footprint) (sd : SceneData) : SceneData :=
  {| sc_onStateChanged := sc_onStateChanged sd;
     sc_poseLayers := if fp_build fp then [] else sc_poseLayers sd;
     sc_notified := if fp_flags fp then 0 else sc_notified sd |}.

Definition erase_kind (fp : Footprint) (k : Kind) : Kind :=
  match k with
  | KKeypoint p r => KKeypoint (if fp_position fp then None else p)
                               (if fp_look fp then 0%float else r)
  | KBone s t => KBone s t
  | KLimb => KLimb
  | KDrawable dd => KDrawable (erase_drawable fp dd)
  | KScene sd => KScene (erase_scene fp sd)
  end.

Definition kind_is_keypoint (k : Kind) : bool :=
  match k with KKeypoint _ _ => true | _ => false end.

(** What the footprint does not cover. *)
Definition erase (fp : Footprint) (x : Entity) : Entity :=
  {| e_name := e_name x; e_uuid := e_uuid x; e_parent := e_parent x;
     e_stateChanged := if fp_flags fp then false else e_stateChanged x;
     e_visible := if fp_visible fp then None else e_visible x;
     e_children := if fp_build fp then [] else e_children x;
     e_strokeColor := if fp_stroke fp then None else e_strokeColor x;
     e_fillColor := if fp_fill fp || kind_is_keypoint (e_kind x) then None else e_fillColor x;
     e_strokeWidth := if fp_look fp then None else e_strokeWidth x;
     e_alpha := if fp_build fp then None else e_alpha x;
     e_isSelected := e_isSelected x;
     e_shape := None;
     e_isDestroyed := if fp_build fp then false else e_isDestroyed x;
     e_lock := if fp_build fp then 0 else e_lock x;
     e_layer := None;
     e_kind := erase_kind fp (e_kind x) |}.

Record Scope := mkScope {
  on : eid -> Footprint;
  revisions : bool;              (* the revision manager and its layer states *)
  heap : bool;                   (* new entities, lock cells and uuids *)
  births : eid -> Uuid -> Prop   (* the new Drawables, and their uuids *)
}.

Definition scope_le (S S' : Scope) : Prop :=
  (forall i, fp_leb (on S i) (on S' i) = true)
  /\ (revisions S = true -> revisions S' = true)
  /\ (heap S = true -> heap S' = true)
  /\ (forall i u, births S i u -> births S' i u).

Definition nobody : eid -> Uuid -> Prop := fun _ _ => False.

(** Rendering. *)
Definition vis : Scope := mkScope (fun _ => nothing) false false nobody.
(** One entity, and rendering. *)
Definition at_ (e : eid) (fp : Footprint) : Scope :=
  mkScope (fun i => if decide (i = e) then fp else nothing) false false nobody.
(** The same footprint on every entity. *)
Definition all_ (fp : Footprint) : Scope := mkScope (fun _ => fp) false false nobody.
(** Dirty flags, notifications and what a capture records. *)
Definition dirty : Scope := mkScope (fun _ => flags) true false nobody.
(** Construction and destruction. *)
Definition build : Scope := mkScope (fun _ => everything) true true nobody.
Definition build_with (new : eid -> Uuid -> Prop) : Scope :=
  mkScope (fun _ => everything) true true new.
Definition join (S S' : Scope) : Scope :=
  mkScope (fun i => fp_join (on S i) (on S' i)) (revisions S || revisions S')
          (heap S || heap S') (fun i u => births S i u \/ births S' i u).

(** The count of the invocations of a Scene's callback. *)
Definition notified (x : Entity) : nat :=
  match e_kind x with KScene sd => sc_notified sd | _ => 0 end.

Definition registered (w : World) (s : eid) : bool :=
  match e_kind (look w s) with KScene sd => sc_onStateChanged sd | _ => false end.

(** Every Scene that has a callback holds its lock. *)
Definition quiet (w : World) : Prop :=
  forall s, registered w s = true -> isStateChangeLock w s = true.

Definition structural (S : Scope) : Prop :=
  heap S = true \/ exists i, fp_build (on S i) = true.

Definition world_kept (S : Scope) (w w' : World) : Prop :=
  w_templates w' = w_templates w
  /\ w_imageFiles w' = w_imageFiles w
  /\ w_next_uuid w <= w_next_uuid w'
  /\ rm_scene (w_rm w') = rm_scene (w_rm w)
  /\ rm_canvasManager (w_rm w') = rm_canvasManager (w_rm w)
  /\ (heap S = false ->
      length (w_ents w') = length (w_ents w)
      /\ w_cells w' = w_cells w /\ w_next_uuid w' = w_next_uuid w)
  /\ (revisions S = false -> w_rm w' = w_rm w /\ w_lstates w' = w_lstates w)
  /\ (rm_isUndoing (w_rm w) = true -> w_rm w' = w_rm w).

(** While every callback is locked out, nothing is notified and no dirty flag
    is reset. *)
Definition quiet_kept (S : Scope) (w w' : World) : Prop :=
  ~ structural S -> quiet w ->
  forall i, notified (look w' i) = notified (look w i)
            /\ (e_stateChanged (look w i) = true -> e_stateChanged (look w' i) = true).

Definition frame (S : Scope) (w w' : World) : Prop :=
  length (w_ents w) <= length (w_ents w')
  /\ (forall i, i < length (w_ents w) -> erase (on S i) (look w' i) = erase (on S i) (look w i))
  /\ (forall i, length (w_ents w) <= i ->
        is_scene w' i = false
        /\ (is_drawable w' i = true -> births S i (e_uuid (look w' i))))
  /\ world_kept S w w'
  /\ quiet_kept S w w'.

(** What a capture leaves alone, seen through a projection [f] of the
    entities. *)
Definition untouched {X : Type} (f : Entity -> X) (w : World) :=
  (f <$> w_ents w, w_cells w, w_next_uuid w, w_templates w,
   w_imageFiles w, rm_scene (w_rm w), rm_canvasManager (w_rm w)).

(** Dirty flags anywhere and the position of one Keypoint. *)
Definition moved (k : eid) : Scope := join dirty (at_ k position).
(** Dirty flags and positions. *)
Definition moving : Scope := mkScope (fun _ => fp_join flags position) true false nobody.

Definition radius_of (x : Entity) : option float :=
  match e_kind x with KKeypoint _ r => Some r | _ => None end.
Definition position_of (x : Entity) : option Pos :=
  match e_kind x with KKeypoint p _ => p | _ => None end.

(** Lock cells and uuids. *)
Definition counters : Scope := mkScope (fun _ => nothing) false true nobody.
(** The layer states of the revision manager. *)
Definition records : Scope := mkScope (fun _ => nothing) true false nobody.

Definition kind_is_drawable (k : Kind) : bool :=
  match k with KDrawable _ => true | _ => false end.
Definition kind_is_scene (k : Kind) : bool :=
  match k with KScene _ => true | _ => false end.

(** The new Drawable, if the entity is one. *)
Definition newborn (w : World) (k : Kind) : Scope :=
  build_with (fun i _ => i = length (w_ents w) /\ kind_is_drawable k = true).

(** One new Drawable, the entity that the constructor returns. *)
Definition one_new (w : World) : Scope := build_with (fun i _ => i = length (w_ents w)).

(** What replaying a recorded state or diff writes on an entity. *)
Definition edited : Footprint := mkFp true true true true true false false.
Definition editing : Scope := mkScope (fun _ => edited) true false nobody.
(** The same behind the lock of the scene. *)
Definition batching : Scope := mkScope (fun _ => edited) true true nobody.

(** The new Drawables carry the uuid [u]. *)
Definition reborn (u : Uuid) : Scope := build_with (fun _ u' => u' = u).

(** ** Batched mutations *)

(** The calls by which the tools change an entity; each reports the change
    with [changeState(true)]. *)
Inductive Mutation :=
| CallChangeState (e : eid)
| CallSetPosition (e : eid) (pos : option Pos) (updateShape : bool)
| CallSetOffset (e : eid) (offset : Pos) (updateShape : bool)
| Drag (k : eid) (pos : Pos).

Definition mutate (m : Mutation) : M unit :=
  match m with
  | CallChangeState e => modify (changeState e true)
  | CallSetPosition e pos updateShape => setPosition e pos updateShape
  | CallSetOffset e offset updateShape => setOffset e offset updateShape
  | Drag k pos => modify (Keypoint_onDrag k pos)
  end.

(** The entities that the call mutates: [Bone.setOffset] moves the two ends
    of the bone, which has no position of its own. *)
Definition mutated (w : World) (m : Mutation) : list eid :=
  match m with
  | CallChangeState e | CallSetPosition e _ _ | Drag e _ => [e]
  | CallSetOffset e _ _ =>
    match e_kind (look w e) with KBone s t => [s; t] | _ => [e] end
  end.

(** The callable handed to [overStateChange]. *)
Definition batch (fn : list Mutation) : M unit := forEach fn mutate.

(** ** Rebuilding a skeleton *)

(** What a rebuild writes on the Keypoint registered under [name]: its
    position, and for a detail point of the face or the hands also the
    radius and the colours. *)
Definition rebuilt (name : string) : Footprint :=
  if is_detail_name name then mkFp false true false true true true false else position.

Definition rebuild_on (dict : list (string * eid)) (names : list string) (i : eid) : Footprint :=
  foldr (fun name fp => if decide (sget name dict = Some i) then fp_join (rebuilt name) fp else fp)
        nothing names.

Definition rebuilding (dict : list (string * eid)) (names : list string) : Scope :=
  mkScope (rebuild_on dict names) false false nobody.

(** ** Replaying a transaction *)

(** The new Drawables carry uuids that satisfy [P]. *)
Definition historic (P : Uuid -> Prop) : Scope := build_with (fun _ u => P u).

(** An undo or a redo is in flight, and the uuid of every saved state of the
    snapshot satisfies [P]. *)
Definition replaying (P : Uuid -> Prop) (w : World) : Prop :=
  rm_isUndoing (w_rm w) = true
  /\ forall k state, nget k (rm_snapshot (w_rm w)) = Some state -> P (st_uuid state).

(** The saved state of a [create] or [destroy] record. *)
Definition recorded (change : Change) : option DState :=
  match change with
  | Create _ state | Destroy _ state => Some state
  | _ => None
  end.

(** The uuids that the saved states hold when a transaction is replayed:
    those of its [create] and [destroy] records, and those of the snapshot
    (which restoring a layer reads). *)
Definition historical (w : World) (transaction : option Transaction) : list Uuid :=
  omap (fun change => st_uuid <$> recorded change) (default [] transaction)
  ++ map (fun entry => st_uuid entry.2) (rm_snapshot (w_rm w)).

(** A scene whose only Person was added and then removed, each under its
    own capture: the history ends with the [destroy] record of uuid 1. *)
Definition removed_world : World :=
  Eval vm_compute in
    final ((person <- addPerson 0 sample_bbox None None (Some "white") "BODY18" ;;
            modify handleStateChange ;;
            removeDrawable 0 person ;;
            modify handleStateChange) (scene_world 100)).

(** A Drawable of the heap. *)
Definition alive (w : World) (d : eid) : Prop :=
  d < length (w_ents w) /\ is_drawable w d = true.

(** ** A diff, undone and redone *)

(** [d] is a Drawable and the entities below it are in the heap and are
    not [d] itself. *)
Definition owned (w : World) (d : eid) : bool :=
  is_drawable w d
  && forallb (fun c => (c <? length (w_ents w)) && negb (c =? d)) (tail (traverseChildren w d)).

(** The heap has the same entities, and each of them reads the same outside
    its footprint. *)
Definition kept (f : eid -> Footprint) (w w' : World) : Prop :=
  length (w_ents w') = length (w_ents w)
  /\ forall i, erase (f i) (look w' i) = erase (f i) (look w i).

(** The entities that the child entries of a diff name. *)
Definition named (map : list (string * eid)) (entries : list (string * ChildDiff)) : list eid :=
  omap (fun entry => sget entry.1 map) entries.

(** What replaying child entries writes: the recorded fields of the named
    entities, and dirty flags. *)
Definition touching (children : list eid) (i : eid) : Footprint :=
  if decide (i ∈ children) then edited else flags.

(** The person of [rendered_world] after its keypoint B was moved and its
    keypoint A was given a green fill. *)
Definition recoloured_world : World :=
  Eval vm_compute in
    final ((setPosition 3 (Some (mkPos (Some 7%float) (Some 9%float))) true ;;
            modify (setFillColor 2 (Some "green"))) rendered_world).

(** The diff from the capture of [rendered_world] to that of
    [recoloured_world], and the worlds after it is applied to
    [recoloured_world] in undo direction and then in redo direction. *)
Definition recoloured_diff : Diff :=
  Eval vm_compute in
    default (mkDiff (mkAttrDiff None None None None None) [])
            (diffStates (captureDrawableState rendered_world 1)
                        (captureDrawableState recoloured_world 1)).

Definition undone_world : World :=
  Eval vm_compute in final (applyDiff 1 recoloured_diff UndoMode recoloured_world).

Definition redone_world : World :=
  Eval vm_compute in final (applyDiff 1 recoloured_diff RedoMode undone_world).

(** ** Auxiliary definitions of the further properties *)

(** * Properties *)

(** ** Heap lemmas *)

#[local] Arguments upd : simpl never.
#[local] Arguments upd_shape : simpl never.
#[local] Arguments upd_drawable : simpl never.
#[local] Arguments upd_scene : simpl never.
#[local] Arguments look : simpl never.

Lemma ent_upd e f w i :
  ent (upd e f w) i = if decide (e = i) then f <$> ent w i else ent w i.
Proof.
  unfold ent, upd. destruct w; simpl. rewrite list_lookup_alter.
  repeat case_decide; subst; done.
Qed.

Lemma look_upd_ne e f w i : e <> i -> look (upd e f w) i = look w i.
Proof. intros Hne. unfold look. rewrite ent_upd. by destruct (decide (e = i)). Qed.

Lemma look_upd_eq e f w x : ent w e = Some x -> look (upd e f w) e = f x.
Proof. intros He. unfold look. rewrite ent_upd, decide_True by done. by rewrite He. Qed.

(** A field that [f] leaves alone reads the same after [upd e f]. *)
Lemma look_upd_field {A} (field : Entity -> A) e f w i :
  (forall x, field (f x) = field x) ->
  field (look (upd e f w) i) = field (look w i).
Proof.
  intros Hf. unfold look. rewrite ent_upd. destruct (decide (e = i)) as [->|]; [|done].
  destruct (ent w i); simpl; [apply Hf | done].
Qed.

Lemma length_upd e f w : length (w_ents (upd e f w)) = length (w_ents w).
Proof. unfold upd; simpl. apply length_alter. Qed.

Lemma fuel_upd e f w : fuel (upd e f w) = fuel w.
Proof. unfold fuel. by rewrite length_upd. Qed.

Lemma look_no_entity w e : length (w_ents w) <= e -> look w e = no_entity.
Proof. intros Hle. unfold look, ent. by rewrite lookup_ge_None_2. Qed.

(** ** C7: the position of a bone *)

(** C7.  For every Bone, [getPosition()] is the midpoint
    [{(start.x + end.x) / 2, (start.y + end.y) / 2}] of the positions of its
    two endpoint keypoints when both are non-null, and null as soon as one
    of them is null. *)
Theorem Bone_getPosition_midpoint (w : World) (b s t : eid) :
  e_kind (look w b) = KBone s t ->
  (forall startPos endPos,
     Keypoint_getPosition w s = Some startPos ->
     Keypoint_getPosition w t = Some endPos ->
     getPosition w b
     = Some {| pos_x := Some (PrimFloat.div (PrimFloat.add (to_number (pos_x startPos))
                                                           (to_number (pos_x endPos))) 2%float);
               pos_y := Some (PrimFloat.div (PrimFloat.add (to_number (pos_y startPos))
                                                           (to_number (pos_y endPos))) 2%float) |})
  /\ (Keypoint_getPosition w s = None \/ Keypoint_getPosition w t = None ->
      getPosition w b = None).
Proof.
  intros Hkind. unfold getPosition, Bone_getPosition. rewrite Hkind. split.
  - intros startPos endPos -> ->. reflexivity.
  - intros [-> | ->]; [done|]. by destruct (Keypoint_getPosition w s).
Qed.

Lemma Bone_getPosition_midpoint_witness :
  getPosition person_world 6
  = Some {| pos_x := Some 105%float; pos_y := Some 100%float |}
  /\ (Keypoint_getPosition person_world 2 = None \/ Keypoint_getPosition person_world 3 = None ->
      getPosition person_world 6 = None).
Proof.
  destruct (Bone_getPosition_midpoint person_world 6 2 3 eq_refl) as [Hmid Hnull].
  split; [|exact Hnull].
  exact (Hmid (mkPos (Some 100%float) (Some 100%float)) (mkPos (Some 110%float) (Some 100%float))
              eq_refl eq_refl).
Defined.

(** ** C10: undo and redo with nothing to replay *)

(** C10.  [undo()] on an empty history and [redo()] on an empty redo stack
    return at once: the world (history, redo stack, snapshot, [isUndoing],
    every entity) is the one before the call. *)
Theorem undo_redo_nothing_to_replay (w : World) :
  (rm_history (w_rm w) = [] -> undo w = Ret tt w)
  /\ (rm_redoStack (w_rm w) = [] -> redo w = Ret tt w).
Proof.
  split; intros Hempty.
  - unfold undo, bind, gets. simpl. by rewrite Hempty.
  - unfold redo, bind, gets. simpl. by rewrite Hempty.
Qed.

Lemma undo_redo_nothing_to_replay_witness :
  undo (scene_world 100) = Ret tt (scene_world 100)
  /\ redo (scene_world 100) = Ret tt (scene_world 100).
Proof.
  destruct (undo_redo_nothing_to_replay (scene_world 100)) as [Hundo Hredo].
  split; [apply Hundo | apply Hredo]; reflexivity.
Defined.

(** ** C9: export of a Person that lacks keypoints *)

Lemma string_app_assoc (a b c : string) : ((a ++ b) ++ c = a ++ (b ++ c))%string.
Proof.
  induction a as [|ch a IH]; [done|].
  change (String ch ((a ++ b) ++ c) = String ch (a ++ (b ++ c)))%string. by rewrite IH.
Qed.

Lemma string_app_empty (a : string) : (a ++ "")%string = a.
Proof.
  induction a as [|ch a IH]; [done|].
  change (String ch (a ++ "") = String ch a)%string. by rewrite IH.
Qed.

Lemma contains_prefixed (p message part : string) :
  contains message part -> contains (p ++ message) part.
Proof.
  intros (before & after & ->). exists (p ++ before)%string, after.
  by rewrite string_app_assoc.
Qed.

Lemma contains_infix (before part after : string) : contains (before ++ part ++ after) part.
Proof. by exists before, after. Qed.

Lemma contains_suffix (before part : string) : contains (before ++ part) part.
Proof.
  exists before, ""%string. by rewrite string_app_empty.
Qed.

Lemma contains_here (part after : string) : contains (part ++ after) part.
Proof. by exists ""%string, after. Qed.

Ltac find_part :=
  repeat first [ apply contains_here | apply contains_suffix | apply contains_prefixed ].

Lemma validate_names_missing w person skeletonData :
  missingKeypoints w person skeletonData <> [] ->
  exists message,
    validatePersonFormatCompatibility w person skeletonData = inl message
    /\ contains message (String.concat ", " (missingKeypoints w person skeletonData)).
Proof.
  intros Hmissing. unfold validatePersonFormatCompatibility.
  destruct (missingKeypoints w person skeletonData) as [|name rest] eqn:Hm; [done|].
  repeat match goal with
         | |- context [if ?b then _ else _] => destruct b
         end;
    eexists; (split; [reflexivity|]); find_part.
Qed.



(** ** C8: setStrokeWidth *)

(** C8.  On the rendered bone AToB (Line shape, stroke width 4, fill white),
    [setStrokeWidth(1)] stores 1 locally but leaves the shape's stroke width
    at 4 and writes 1 into the shape's fill; the children are only read. *)
Theorem setStrokeWidth_writes_fill :
  let w' := setStrokeWidth 6 (Some 1%float) rendered_world in
  (sh_strokeWidth <$> e_shape (look rendered_world 6) = Some (ANum 4%float)
   /\ sh_fill <$> e_shape (look rendered_world 6) = Some (AStr "white"))
  /\ e_strokeWidth (look w' 6) = Some 1%float
  /\ getStrokeWidth w' 6 None = Some 1%float
  /\ sh_strokeWidth <$> e_shape (look w' 6) = Some (ANum 4%float)
  /\ sh_fill <$> e_shape (look w' 6) = Some (ANum 1%float).
Proof. vm_compute. repeat split. Qed.

(** ** C6: the history cap *)

Lemma foldl_invariant {A B} (P : B -> Prop) (f : B -> A -> B) (l : list A) (b : B) :
  P b -> (forall b a, P b -> P (f b a)) -> P (foldl f b l).
Proof. revert b. induction l as [|a l IH]; simpl; auto. Qed.

Lemma log_of_upd e f w : log_of (upd e f w) = log_of w.
Proof. done. Qed.

Lemma log_of_upd_ls r f w : log_of (upd_ls r f w) = log_of w.
Proof. done. Qed.

Lemma log_of_layerState_remove layerId uuid w : log_of (layerState_remove layerId uuid w) = log_of w.
Proof. unfold layerState_remove. by case_match. Qed.

Lemma log_of_layerState_push layerId uuid w : log_of (layerState_push layerId uuid w) = log_of w.
Proof. unfold layerState_push. by case_match. Qed.

Lemma log_of_layerState_add layerId uuid w : log_of (layerState_add layerId uuid w) = log_of w.
Proof. unfold layerState_add. by case_match. Qed.

Ltac log_solve :=
  repeat case_match; simpl in *;
  rewrite ?log_of_layerState_remove, ?log_of_layerState_push, ?log_of_layerState_add;
  first [ done | unfold alloc_ls in *; simplify_eq/=; unfold log_of in *; simpl in *; congruence ].

Lemma log_of_detectLayerChanges w : log_of (detectLayerChanges w).2 = log_of w.
Proof.
  unfold detectLayerChanges. apply foldl_invariant.
  - apply foldl_invariant; [done|]. intros [changes w1] layerId Hinv. log_solve.
  - intros [changes w1] poseLayer Hinv. log_solve.
Qed.

Lemma log_of_detectDestructions current snapshot acc :
  log_of (detectDestructions current snapshot acc).2 = log_of acc.2.
Proof.
  unfold detectDestructions.
  apply (foldl_invariant (fun a => log_of a.2 = log_of acc.2)); [done|].
  intros [changes w1] uuid Hinv. log_solve.
Qed.

Lemma log_of_detectCreationsAndChanges current snapshot acc :
  log_of (detectCreationsAndChanges current snapshot acc).2 = log_of acc.2.
Proof.
  unfold detectCreationsAndChanges.
  apply (foldl_invariant (fun a => log_of a.2 = log_of acc.2)); [done|].
  intros [changes w1] d Hinv. log_solve.
Qed.

Lemma log_of_detectChanges w : log_of (detectChanges w).2 = log_of w.
Proof.
  unfold detectChanges.
  by rewrite log_of_detectCreationsAndChanges, log_of_detectDestructions, log_of_detectLayerChanges.
Qed.

Lemma w_rm_resetStateFlags_fuel n e w : w_rm (resetStateFlags_fuel n e w) = w_rm w.
Proof.
  revert e w. induction n as [|n IH]; intros e w; simpl; [done|].
  apply (foldl_invariant (fun w' => w_rm w' = w_rm w)); [done|].
  intros w' c Hinv. by rewrite IH.
Qed.

Lemma w_rm_resetStateFlags e w : w_rm (resetStateFlags e w) = w_rm w.
Proof. apply w_rm_resetStateFlags_fuel. Qed.

(** What [handleStateChange] leaves in the log when it detects changes. *)
Lemma handleStateChange_pushes w :
  rm_isUndoing (w_rm w) = false ->
  (detectChanges w).1 <> [] ->
  rm_redoStack (w_rm (handleStateChange w)) = []
  /\ rm_history (w_rm (handleStateChange w))
     = rm_history (pushTransaction (detectChanges w).1 (w_rm w))
  /\ rm_max_history (w_rm (handleStateChange w)) = rm_max_history (w_rm w).
Proof.
  intros Hguard Hchanges. unfold handleStateChange. rewrite Hguard.
  pose proof (log_of_detectChanges w) as Hlog.
  destruct (detectChanges w) as [changes w1]. simpl in *.
  destruct changes as [|c changes]; [done|].
  rewrite w_rm_resetStateFlags. unfold log_of in Hlog. simplify_eq.
  unfold upd_rm, pushTransaction; simpl.
  repeat match goal with H : _ = _ |- _ => rewrite H end. done.
Qed.

Lemma pushTransaction_history changes r :
  rm_history (pushTransaction changes r)
  = if negb (Z.eqb (rm_max_history r) 0)
       && bool_decide (rm_max_history r < Z.of_nat (length (rm_history r ++ [changes])))%Z
    then drop (Z.to_nat (Z.of_nat (length (rm_history r ++ [changes])) - rm_max_history r))
              (rm_history r ++ [changes])
    else rm_history r ++ [changes].
Proof. unfold pushTransaction. by case_match. Qed.




(** ** Ownership is well founded *)

Lemma wf_parentsb_correct w : wf_parentsb w = true -> wf_parents w.
Proof.
  intros Hb e p Hp. unfold look, ent in Hp.
  destruct (w_ents w !! e) as [x|] eqn:He; simpl in Hp; [|done].
  unfold wf_parentsb in Hb. rewrite forallb_forall in Hb.
  specialize (Hb (e, x)). simpl in Hb. rewrite Hp in Hb.
  apply Nat.ltb_lt, Hb, list_elem_of_In, list_elem_of_lookup. exists e.
  by rewrite list_lookup_imap, He.
Qed.

Lemma inherit_nearest {A} (own : Entity -> option A) w n e :
  wf_parents w -> e < n ->
  inherit own n w e None = nearest own w (e :: getParents_fuel n w e).
Proof.
  intros Hwf. revert e. induction n as [|n IH]; intros e Hlt; [lia|].
  unfold nearest. simpl. destruct (own (look w e)) as [v|] eqn:Hown; simpl; [done|].
  destruct (e_parent (look w e)) as [p|] eqn:Hp; [|done].
  rewrite IH by (apply Hwf in Hp; lia). done.
Qed.

Lemma getParents_no_entity w n e : length (w_ents w) <= e -> getParents_fuel n w e = [].
Proof. intros Hle. destruct n; simpl; by rewrite look_no_entity. Qed.

Lemma inherit_getParents {A} (own : Entity -> option A) w e :
  wf_parents w ->
  inherit own (fuel w) w e None = nearest own w (e :: getParents w e).
Proof.
  intros Hwf. destruct (decide (e < fuel w)) as [Hlt|Hge].
  - by apply inherit_nearest.
  - unfold getParents. rewrite getParents_no_entity by (unfold fuel in Hge; lia).
    unfold nearest, fuel. simpl. rewrite look_no_entity by (unfold fuel in Hge; lia).
    by destruct (own no_entity).
Qed.

(** Two worlds that agree on [own] away from [e], and on [parent], resolve
    alike from every entity older than [e]. *)
Lemma inherit_agree {A} (own : Entity -> option A) w w' e n a :
  wf_parents w ->
  (forall i, i <> e -> own (look w' i) = own (look w i)) ->
  (forall i, e_parent (look w' i) = e_parent (look w i)) ->
  a < e ->
  inherit own n w' a None = inherit own n w a None.
Proof.
  intros Hwf Hown Hparent. revert a. induction n as [|n IH]; intros a Hlt; simpl.
  - rewrite Hown, Hparent by lia. done.
  - rewrite Hown, Hparent by lia. destruct (own (look w a)); [done|].
    destruct (e_parent (look w a)) as [p|] eqn:Hp; [|done].
    apply IH. apply Hwf in Hp. lia.
Qed.

(** ** C5: stroke colour inheritance *)

Lemma setStrokeColor_fuel_parent n e color w i :
  e_parent (look (setStrokeColor_fuel n e color w) i) = e_parent (look w i).
Proof.
  revert e color w. induction n as [|n IH]; intros e color w; cbn [setStrokeColor_fuel].
  - unfold upd_shape. rewrite look_upd_field by done.
    destruct color; [by rewrite look_upd_field|done].
  - apply (foldl_invariant (fun w' => e_parent (look w' i) = e_parent (look w i))).
    + unfold upd_shape. rewrite look_upd_field by done.
      destruct color; [by rewrite look_upd_field|done].
    + intros w' ch Hinv. by rewrite IH.
Qed.

Lemma setStrokeColor_fuel_length n e color w :
  length (w_ents (setStrokeColor_fuel n e color w)) = length (w_ents w).
Proof.
  revert e color w. induction n as [|n IH]; intros e color w; cbn [setStrokeColor_fuel].
  - unfold upd_shape. rewrite length_upd. destruct color; [by rewrite length_upd|done].
  - apply (foldl_invariant (fun w' => length (w_ents w') = length (w_ents w))).
    + unfold upd_shape. rewrite length_upd. destruct color; [by rewrite length_upd|done].
    + intros w' ch Hinv. by rewrite IH.
Qed.

(** Re-resolution ([color] null) writes no own colour. *)
Lemma setStrokeColor_fuel_null n e w i :
  e_strokeColor (look (setStrokeColor_fuel n e None w) i) = e_strokeColor (look w i).
Proof.
  revert e w. induction n as [|n IH]; intros e w; cbn [setStrokeColor_fuel].
  - unfold upd_shape. by rewrite look_upd_field.
  - apply (foldl_invariant (fun w' => e_strokeColor (look w' i) = e_strokeColor (look w i))).
    + unfold upd_shape. by rewrite look_upd_field.
    + intros w' ch Hinv. by rewrite IH.
Qed.

Lemma setStrokeColor_own e c w i :
  is_Some (ent w e) ->
  e_strokeColor (look (setStrokeColor e (Some c) w) i)
  = if decide (i = e) then Some c else e_strokeColor (look w i).
Proof.
  intros [x Hx]. unfold setStrokeColor. destruct (fuel w) as [|n]; cbn [setStrokeColor_fuel].
  - unfold upd_shape. rewrite look_upd_field by done.
    destruct (decide (i = e)) as [->|Hne].
    + by rewrite (look_upd_eq _ _ _ x).
    + by rewrite look_upd_ne.
  - apply (foldl_invariant
             (fun w' => e_strokeColor (look w' i)
                        = if decide (i = e) then Some c else e_strokeColor (look w i))).
    + unfold upd_shape. rewrite look_upd_field by done.
      destruct (decide (i = e)) as [->|Hne].
      * by rewrite (look_upd_eq _ _ _ x).
      * by rewrite look_upd_ne.
    + intros w' ch Hinv. by rewrite setStrokeColor_fuel_null.
Qed.

(** C5.  An Entity E whose own stroke color is unset resolves
    [getStrokeColor()] to the own color of the nearest ancestor that has one
    set, and to the root's default (null) when no ancestor has; after
    [E.setStrokeColor(c)] with a non-null [c], E resolves to [c] and every
    sibling of E resolves as before. *)
Theorem getStrokeColor_inherits (w : World) (e : eid) :
  wf_parents w ->
  is_Some (ent w e) ->
  (e_strokeColor (look w e) = None ->
   getStrokeColor w e None = nearest e_strokeColor w (getParents w e))
  /\ (forall c,
        let w' := setStrokeColor e (Some c) w in
        getStrokeColor w' e None = Some c
        /\ forall s, s <> e -> e_parent (look w s) = e_parent (look w e) ->
                     getStrokeColor w' s None = getStrokeColor w s None).
Proof.
  intros Hwf He. split.
  - intros Hown. unfold getStrokeColor. rewrite inherit_getParents by done.
    unfold nearest. simpl. by rewrite Hown.
  - intros c w'. subst w'. split.
    + unfold getStrokeColor, fuel. simpl.
      rewrite setStrokeColor_own, decide_True by done. done.
    + intros s Hne Hsib. unfold getStrokeColor.
      assert (fuel (setStrokeColor e (Some c) w) = fuel w) as ->.
      { unfold fuel, setStrokeColor. by rewrite setStrokeColor_fuel_length. }
      unfold fuel. simpl.
      rewrite setStrokeColor_own, decide_False by done.
      destruct (e_strokeColor (look w s)); [done|].
      unfold setStrokeColor at 1. rewrite setStrokeColor_fuel_parent.
      destruct (e_parent (look w s)) as [p|] eqn:Hp; [|done].
      apply (inherit_agree e_strokeColor w _ e); [done| | |].
      * intros i Hi. by rewrite setStrokeColor_own, decide_False.
      * intros i. apply setStrokeColor_fuel_parent.
      * apply Hwf. by rewrite <- Hsib.
Qed.

Lemma getStrokeColor_inherits_witness :
  getStrokeColor person_world 2 None = Some "black"
  /\ getStrokeColor (setStrokeColor 2 (Some "red") person_world) 2 None = Some "red"
  /\ getStrokeColor (setStrokeColor 2 (Some "red") person_world) 3 None = Some "black".
Proof.
  assert (wf_parents person_world) as Hwf by (apply wf_parentsb_correct; reflexivity).
  assert (is_Some (ent person_world 2)) as He by (vm_compute; eauto).
  destruct (getStrokeColor_inherits person_world 2 Hwf He) as [Hinherit Hset].
  split; [exact (Hinherit eq_refl)|].
  destruct (Hset "red") as [Hown Hsiblings].
  split; [exact Hown|].
  exact (Hsiblings 3 ltac:(discriminate) eq_refl).
Defined.

Lemma fp_leb_spec a b :
  fp_leb a b = true ->
  (fp_flags a = true -> fp_flags b = true) /\ (fp_position a = true -> fp_position b = true)
  /\ (fp_visible a = true -> fp_visible b = true) /\ (fp_stroke a = true -> fp_stroke b = true)
  /\ (fp_fill a = true -> fp_fill b = true) /\ (fp_look a = true -> fp_look b = true)
  /\ (fp_build a = true -> fp_build b = true).
Proof.
  unfold fp_leb. rewrite !andb_true_iff.
  intros ((((((H1 & H2) & H3) & H4) & H5) & H6) & H7).
  repeat split; intros Ha; rewrite Ha in *; done.
Qed.

Lemma fp_leb_refl a : fp_leb a a = true.
Proof. by destruct a as [[] [] [] [] [] [] []]. Qed.

Lemma fp_leb_nothing a : fp_leb nothing a = true.
Proof. done. Qed.

Lemma fp_leb_everything a : fp_leb a everything = true.
Proof. by destruct a as [[] [] [] [] [] [] []]. Qed.

Lemma erase_absorb fp fp' x : fp_leb fp fp' = true -> erase fp' (erase fp x) = erase fp' x.
Proof.
  intros (H1 & H2 & H3 & H4 & H5 & H6 & H7)%fp_leb_spec.
  destruct x as [? ? ? ? ? ? ? ? ? ? ? ? ? ? ? k]. unfold erase; simpl. f_equal.
  - clear -H1. by destruct (fp_flags fp); [rewrite H1|destruct (fp_flags fp')].
  - clear -H3. by destruct (fp_visible fp); [rewrite H3|destruct (fp_visible fp')].
  - clear -H7. by destruct (fp_build fp); [rewrite H7|destruct (fp_build fp')].
  - clear -H4. by destruct (fp_stroke fp); [rewrite H4|destruct (fp_stroke fp')].
  - clear -H5. assert (kind_is_keypoint (erase_kind fp k) = kind_is_keypoint k) as ->
      by (by destruct k).
    destruct (kind_is_keypoint k); [by rewrite !orb_true_r|]. rewrite !orb_false_r.
    by destruct (fp_fill fp); [rewrite H5|destruct (fp_fill fp')].
  - clear -H6. by destruct (fp_look fp); [rewrite H6|destruct (fp_look fp')].
  - clear -H7. by destruct (fp_build fp); [rewrite H7|destruct (fp_build fp')].
  - clear -H7. by destruct (fp_build fp); [rewrite H7|destruct (fp_build fp')].
  - clear -H7. by destruct (fp_build fp); [rewrite H7|destruct (fp_build fp')].
  - destruct k as [p r| | |dd|sd]; simpl; try done.
    + f_equal.
      * clear -H2. by destruct (fp_position fp); [rewrite H2|destruct (fp_position fp')].
      * clear -H6. by destruct (fp_look fp); [rewrite H6|destruct (fp_look fp')].
    + f_equal. unfold erase_drawable. clear -H7.
      destruct (fp_build fp); [by rewrite H7|]. by destruct (fp_build fp'), dd.
    + f_equal. unfold erase_scene; simpl. f_equal.
      * clear -H7. by destruct (fp_build fp); [rewrite H7|destruct (fp_build fp')].
      * clear -H1. by destruct (fp_flags fp); [rewrite H1|destruct (fp_flags fp')].
Qed.

Lemma erase_mono fp fp' x y :
  fp_leb fp fp' = true -> erase fp x = erase fp y -> erase fp' x = erase fp' y.
Proof.
  intros Hle Heq. rewrite <- (erase_absorb fp fp' x), <- (erase_absorb fp fp' y) by done.
  by rewrite Heq.
Qed.

(** What no footprint covers. *)
Lemma erase_class fp x y :
  erase fp x = erase fp y ->
  e_name x = e_name y /\ e_uuid x = e_uuid y /\ e_parent x = e_parent y
  /\ erase_kind everything (e_kind x) = erase_kind everything (e_kind y).
Proof.
  intros Heq. apply (erase_mono fp everything) in Heq; [|apply fp_leb_everything].
  by injection Heq.
Qed.

Lemma erase_kind_tag fp x y :
  erase fp x = erase fp y ->
  match e_kind x, e_kind y with
  | KKeypoint _ _, KKeypoint _ _ | KLimb, KLimb | KDrawable _, KDrawable _
  | KScene _, KScene _ => True
  | KBone s t, KBone s' t' => s = s' /\ t = t'
  | _, _ => False
  end.
Proof.
  intros (_ & _ & _ & Hk)%erase_class.
  destruct (e_kind x), (e_kind y); simpl in Hk; try done. by simplify_eq.
Qed.

Lemma erase_is_drawable fp w w' i :
  erase fp (look w' i) = erase fp (look w i) -> is_drawable w' i = is_drawable w i.
Proof.
  intros Heq%erase_kind_tag. unfold is_drawable.
  by destruct (e_kind (look w' i)), (e_kind (look w i)).
Qed.

Lemma erase_is_scene fp w w' i :
  erase fp (look w' i) = erase fp (look w i) -> is_scene w' i = is_scene w i.
Proof.
  intros Heq%erase_kind_tag. unfold is_scene.
  by destruct (e_kind (look w' i)), (e_kind (look w i)).
Qed.

Lemma erase_is_keypoint fp w w' i :
  erase fp (look w' i) = erase fp (look w i) -> is_keypoint w' i = is_keypoint w i.
Proof.
  intros Heq%erase_kind_tag. unfold is_keypoint.
  by destruct (e_kind (look w' i)), (e_kind (look w i)).
Qed.

(** What a footprint without [fp_build] leaves alone. *)
Lemma erase_structure fp x y :
  fp_build fp = false -> erase fp x = erase fp y ->
  e_children x = e_children y /\ e_lock x = e_lock y /\ e_isDestroyed x = e_isDestroyed y
  /\ e_alpha x = e_alpha y
  /\ match e_kind x, e_kind y with
     | KDrawable dd, KDrawable dd' => set_d_imageShape None dd = set_d_imageShape None dd'
     | KScene sd, KScene sd' =>
       sc_onStateChanged sd = sc_onStateChanged sd' /\ sc_poseLayers sd = sc_poseLayers sd'
     | KKeypoint _ _, KKeypoint _ _ | KLimb, KLimb => True
     | KBone s t, KBone s' t' => s = s' /\ t = t'
     | _, _ => False
     end.
Proof.
  intros Hb Heq. unfold erase in Heq. rewrite Hb in Heq.
  injection Heq as _ _ _ _ _ Hc _ _ _ Ha _ Hd Hl Hk. split_and!; try done.
  destruct (e_kind x), (e_kind y); simpl in Hk; try done.
  - split; congruence.
  - unfold erase_drawable in Hk. rewrite Hb in Hk. congruence.
  - unfold erase_scene in Hk. rewrite Hb in Hk. split; congruence.
Qed.

Lemma scope_le_refl S : scope_le S S.
Proof. unfold scope_le. split_and!; try done. intros i. apply fp_leb_refl. Qed.

Lemma not_structural S :
  ~ structural S <-> heap S = false /\ forall i, fp_build (on S i) = false.
Proof.
  unfold structural. split.
  - intros Hn. split.
    + destruct (heap S); [|done]. destruct Hn. by left.
    + intros i. destruct (fp_build (on S i)) eqn:Hb; [|done]. destruct Hn. right. by exists i.
  - intros [Hh Hb] [Hh'|[i Hi]]; [congruence|]. rewrite Hb in Hi. done.
Qed.

Lemma structural_mono S S' : scope_le S S' -> structural S -> structural S'.
Proof.
  intros (Hon & _ & Hh & _) [Hs|[i Hi]]; [left; auto|].
  right. exists i. by apply (fp_leb_spec _ _ (Hon i)).
Qed.

Lemma world_kept_refl S w : world_kept S w w.
Proof. unfold world_kept. by repeat split. Qed.

Lemma world_kept_trans S w1 w2 w3 :
  world_kept S w1 w2 -> world_kept S w2 w3 -> world_kept S w1 w3.
Proof.
  unfold world_kept. intros (T1 & I1 & U1 & S1 & C1 & B1 & D1 & G1)
                            (T2 & I2 & U2 & S2 & C2 & B2 & D2 & G2).
  split; [congruence|]. split; [congruence|]. split; [lia|]. split; [congruence|].
  split; [congruence|]. split; [|split].
  - intros Hb. destruct (B1 Hb) as (? & ? & ?), (B2 Hb) as (? & ? & ?).
    repeat split; congruence.
  - intros Hb. destruct (D1 Hb), (D2 Hb). split; congruence.
  - intros Hu. rewrite G2, G1; [done..|]. by rewrite G1.
Qed.

Lemma world_kept_mono S S' w w' : scope_le S S' -> world_kept S w w' -> world_kept S' w w'.
Proof.
  unfold world_kept. intros (_ & Hr & Hh & _) (T & I & U & Sc & C & B & D & G).
  do 5 (split; [done|]). split; [|split; [|done]].
  - intros Hb. apply B. destruct (heap S); [|done]. rewrite Hh in Hb; done.
  - intros Hb. apply D. destruct (revisions S); [|done]. rewrite Hr in Hb; done.
Qed.

Lemma frame_refl S w : frame S w w.
Proof.
  unfold frame. split; [done|]. split; [done|]. split; [|split; [apply world_kept_refl|]].
  - intros i Hi. unfold is_drawable, is_scene. by rewrite look_no_entity.
  - intros _ _. done.
Qed.

(** A frame that is not structural keeps the callbacks locked out. *)
Lemma frame_quiet S w w' : frame S w w' -> ~ structural S -> quiet w -> quiet w'.
Proof.
  intros (L & E & N & K & Q) [Hh Hb]%not_structural Hq s Hs.
  destruct K as (_ & _ & _ & _ & _ & B & _). destruct (B Hh) as (Hlen & Hcells & _).
  destruct (decide (s < length (w_ents w))) as [Hlt|Hge].
  - specialize (E s Hlt). apply (erase_structure _ _ _ (Hb s)) in E as (_ & Hlock & _ & _ & Hk).
    unfold isStateChangeLock. rewrite Hcells, Hlock. apply Hq.
    unfold registered in *. destruct (e_kind (look w' s)), (e_kind (look w s)); try done.
    destruct Hk as [<- _]. done.
  - unfold registered in Hs. rewrite look_no_entity in Hs by lia. done.
Qed.

Lemma frame_trans S w1 w2 w3 : frame S w1 w2 -> frame S w2 w3 -> frame S w1 w3.
Proof.
  intros F1 F2. pose proof (frame_quiet _ _ _ F1) as Hq.
  destruct F1 as (L1 & E1 & N1 & K1 & Q1), F2 as (L2 & E2 & N2 & K2 & Q2).
  split; [lia|]. split; [|split; [|split]].
  - intros i Hi. rewrite E2 by lia. by apply E1.
  - intros i Hi. destruct (decide (i < length (w_ents w2))) as [Hlt|Hge].
    + specialize (E2 i Hlt). destruct (erase_class _ _ _ E2) as (_ & Hu & _ & _).
      rewrite (erase_is_drawable _ w2 w3), (erase_is_scene _ w2 w3), Hu by done.
      by apply N1.
    + apply N2. lia.
  - by eapply world_kept_trans.
  - intros Hs Hquiet i. destruct (Q1 Hs Hquiet i) as [Hn1 Hf1].
    destruct (Q2 Hs (Hq Hs Hquiet) i) as [Hn2 Hf2]. split; [congruence | auto].
Qed.

Lemma frame_mono S S' w w' : scope_le S S' -> frame S w w' -> frame S' w w'.
Proof.
  intros Hle (L & E & N & K & Q). pose proof Hle as (Hon & _ & _ & Hbirths).
  split; [done|]. split; [|split; [|split]].
  - intros i Hi. apply (erase_mono (on S i)); [apply Hon | by apply E].
  - intros i Hi. destruct (N i Hi) as [Hs Hd]. split; [done|]. auto.
  - by eapply world_kept_mono.
  - intros Hs. apply Q. intros Hs'. apply Hs. by eapply structural_mono.
Qed.

(** An update of one entity by a function that writes within the scope and
    neither counts a notification nor resets a dirty flag. *)
Lemma frame_upd S e f w :
  (forall x, ent w e = Some x ->
             erase (on S e) (f x) = erase (on S e) x
             /\ notified (f x) = notified x
             /\ (e_stateChanged x = true -> e_stateChanged (f x) = true)) ->
  frame S w (upd e f w).
Proof.
  intros Hf. split; [by rewrite length_upd|]. split; [|split; [|split]].
  - intros i Hi. unfold look. rewrite ent_upd.
    destruct (decide (e = i)) as [->|]; [|done].
    destruct (ent w i) eqn:Hi'; simpl; [by apply Hf | done].
  - intros i Hi. unfold is_drawable, is_scene.
    rewrite look_no_entity by (rewrite length_upd; lia). done.
  - unfold world_kept. rewrite length_upd. by repeat split.
  - intros _ _ i. unfold look. rewrite ent_upd.
    destruct (decide (e = i)) as [->|]; [|done].
    destruct (ent w i) eqn:Hi'; simpl; [|done]. split; by apply Hf.
Qed.

(** ** Modifies clauses: the rules *)

Lemma frame_step S w w1 w2 :
  frame S w w1 -> (frame S w w1 -> frame S w1 w2) -> frame S w w2.
Proof. intros H1 H2. eapply frame_trans; eauto. Qed.

Lemma frame_bind S {A B} (m : M A) (k : A -> M B) w :
  frame S w (final (m w)) ->
  (forall a w1, m w = Ret a w1 -> frame S w w1 -> frame S w1 (final (k a w1))) ->
  frame S w (final (bind m k w)).
Proof.
  intros Hm Hk. unfold bind. destruct (m w) as [a w1|s w1]; simpl in *; [|done].
  eapply frame_trans; [exact Hm | by apply Hk].
Qed.

Lemma frame_try_catch S {A} (m : M A) handler w :
  frame S w (final (m w)) ->
  (forall s w1, m w = Throw s w1 -> frame S w w1 -> frame S w1 (final (handler s w1))) ->
  frame S w (final (try_catch m handler w)).
Proof.
  intros Hm Hh. unfold try_catch. destruct (m w) as [a w1|s w1]; simpl in *; [done|].
  eapply frame_trans; [exact Hm | by apply Hh].
Qed.

Lemma frame_forEach S {A} (xs : list A) (f : A -> M unit) w :
  (forall x w1, frame S w w1 -> frame S w1 (final (f x w1))) ->
  frame S w (final (forEach xs f w)).
Proof.
  intros Hf. cut (forall w1, frame S w w1 -> frame S w (final (forEach xs f w1))).
  { intros Hcut. apply Hcut, frame_refl. }
  induction xs as [|x xs IH]; intros w1 H1; simpl; [done|].
  unfold bind. specialize (Hf x w1 H1).
  destruct (f x w1) as [[] w2|s w2]; simpl in *.
  - apply IH. by eapply frame_trans.
  - by eapply frame_trans.
Qed.

Lemma frame_foldl S {A} (f : World -> A -> World) (xs : list A) w :
  (forall a w1, frame S w w1 -> frame S w1 (f w1 a)) -> frame S w (foldl f w xs).
Proof.
  intros Hf. apply (foldl_invariant (frame S w)); [apply frame_refl|].
  intros w' a Hinv. eapply frame_trans; [exact Hinv | by apply Hf].
Qed.

(** The class of an entity is written by nothing. *)
Lemma frame_is_keypoint S w w' k :
  frame S w w' -> is_keypoint w k = true -> is_keypoint w' k = true.
Proof.
  intros (_ & E & _) Hk. destruct (decide (k < length (w_ents w))) as [Hlt|Hge].
  - by rewrite (erase_is_keypoint _ _ _ _ (E k Hlt)).
  - unfold is_keypoint in Hk. rewrite look_no_entity in Hk by lia. done.
Qed.

Lemma Keypoint_getPosition_is_keypoint w k p :
  Keypoint_getPosition w k = Some p -> is_keypoint w k = true.
Proof. unfold Keypoint_getPosition, is_keypoint. by destruct (e_kind (look w k)). Qed.

Lemma has_position_is_keypoint w k :
  bool_decide (is_Some (Keypoint_getPosition w k)) = true -> is_keypoint w k = true.
Proof.
  intros [p Hp]%bool_decide_eq_true. by eapply Keypoint_getPosition_is_keypoint.
Qed.

Ltac tags :=
  repeat match goal with
         | H : frame _ ?w ?w' |- is_keypoint ?w' _ = true =>
           tryif constr_eq w w' then fail else apply (frame_is_keypoint _ _ _ _ H)
         end;
  first [ assumption | eapply Keypoint_getPosition_is_keypoint; eassumption
        | apply has_position_is_keypoint; assumption ].

Create HintDb frames discriminated.
Create HintDb frames_coarse discriminated.
#[export] Hint Extern 1 (is_keypoint _ _ = true) => tags : frames.

Ltac unfold_scopes :=
  unfold vis, at_, all_, dirty, build, build_with, join, nobody in *.

Ltac scope_le_solve :=
  unfold scope_le; unfold_scopes; simpl;
  split_and!;
  [ intros ?; repeat case_decide; reflexivity
  | first [done | tauto | intros; reflexivity]
  | first [done | tauto | intros; reflexivity]
  | intros ? ?; unfold nobody; simpl; first [tauto | intuition congruence] ].

(** The side condition of [frame_upd]. *)
Ltac erased :=
  let x := fresh "x" in
  intros x _; unfold_scopes; simpl; repeat case_decide; try done;
  destruct x as [? ? ? ? ? ? ? ? ? ? ? ? ? ? ? [| | |[]|[]]]; simpl;
  first [ by split_and! | repeat case_match; simpl; by split_and! ].

Ltac frame_leaf :=
  first [ apply frame_refl
        | apply frame_upd; erased
        | eapply frame_mono; cycle 1; [ solve [eauto with frames nocore] | scope_le_solve ]
        | eapply frame_mono; cycle 1;
          [ solve [eauto with frames_coarse nocore] | scope_le_solve ] ].

Ltac head_of t := lazymatch t with ?f _ => head_of f | _ => t end.

(** What is known of a run that returned. *)
Ltac run_inv H :=
  lazymatch type of H with
  | ?t = _ =>
    let h := head_of t in
    lazymatch h with
    | @gets => unfold gets in H; simplify_eq
    | @modify => unfold modify in H; simplify_eq
    | @ret => unfold ret in H; simplify_eq
    | @throw => unfold throw in H; simplify_eq
    | @alloc => unfold alloc in H; simplify_eq
    | @alloc_cell => unfold alloc_cell in H; simplify_eq
    | @alloc_klayer => unfold alloc_klayer in H; simplify_eq
    | @alloc_pl => unfold alloc_pl in H; simplify_eq
    | @randomUUID => unfold randomUUID in H; simplify_eq
    | match ?x with _ => _ end => destruct x eqn:?; run_inv H
    | _ => idtac
    end
  end.

Ltac absurd_case :=
  try match goal with
      | H : bool_decide (is_Some None) = true |- _ => by vm_compute in H
      | H : ?x = ?y |- _ => discriminate H
      end.

Ltac frame1 :=
  cbv beta;
  lazymatch goal with
  | |- frame _ ?w ?w => apply frame_refl
  | |- frame ?S ?w (final ?t) =>
    let h := head_of t in
    lazymatch h with
    | match ?x with _ => _ end => destruct x eqn:?; absurd_case
    | @bind =>
      apply frame_bind;
      [| let a := fresh "a" in let w1 := fresh "w" in
         let Hrun := fresh "Hrun" in let Hfr := fresh "Hfr" in
         intros a w1 Hrun Hfr; run_inv Hrun ]
    | @ret => apply frame_refl
    | @throw => apply frame_refl
    | @gets => apply frame_refl
    | @modify => unfold modify at 1; cbv beta; cbn [final]
    | @when => unfold when at 1
    | @forEach =>
      apply frame_forEach;
      let x := fresh "x" in let w1 := fresh "w" in let Hfr := fresh "Hfr" in intros x w1 Hfr
    | @try_catch =>
      apply frame_try_catch;
      [| let s := fresh "s" in let w1 := fresh "w" in
         let Hrun := fresh "Hrun" in let Hfr := fresh "Hfr" in
         intros s w1 Hrun Hfr ]
    | _ => frame_leaf
    end
  | |- frame ?S ?w ?t =>
    let h := head_of t in
    lazymatch h with
    | match ?x with _ => _ end => destruct x eqn:?; absurd_case
    | _ =>
      lazymatch t with
      | foldl _ ?w1 _ =>
        apply (frame_step S w w1);
        [| let Hfr := fresh "Hfr" in intros Hfr; apply frame_foldl;
           let a := fresh "a" in let w2 := fresh "w" in let Hfr2 := fresh "Hfr" in
           intros a w2 Hfr2 ]
      | ?f ?w1 =>
        tryif constr_eq w w1 then frame_leaf
        else (apply (frame_step S w w1); [| let Hfr := fresh "Hfr" in intros Hfr; frame_leaf ])
      end
    end
  end.

Ltac frames := repeat frame1.

(** ** What a capture touches *)

(** A capture writes the stacks, the snapshots, the layer states and the
    dirty flags.  [untouched f] is the rest of the world, as seen through a
    view [f] of the entities that ignores the dirty flag. *)
Section Capture.
Context {X : Type} (f : Entity -> X).
Hypothesis flag_blind : forall b x, f (set_e_stateChanged b x) = f x.

Lemma untouched_upd e g w :
  (forall x, f (g x) = f x) -> untouched f (upd e g w) = untouched f w.
Proof.
  intros Hg. unfold untouched, upd; simpl. do 6 f_equal. apply list_eq. intros i.
  rewrite !list_lookup_fmap, list_lookup_alter.
  case_decide; [subst|done]. destruct (w_ents w !! i); simpl; [|done]. by rewrite Hg.
Qed.

Lemma untouched_layerState_remove layerId uuid w :
  untouched f (layerState_remove layerId uuid w) = untouched f w.
Proof. unfold layerState_remove. by case_match. Qed.

Lemma untouched_layerState_push layerId uuid w :
  untouched f (layerState_push layerId uuid w) = untouched f w.
Proof. unfold layerState_push. by case_match. Qed.

Lemma untouched_layerState_add layerId uuid w :
  untouched f (layerState_add layerId uuid w) = untouched f w.
Proof. unfold layerState_add. by case_match. Qed.

Ltac untouched_solve :=
  repeat case_match; simpl in *;
  rewrite ?untouched_layerState_remove, ?untouched_layerState_push, ?untouched_layerState_add;
  first [ done | unfold alloc_ls in *; simplify_eq/=; unfold untouched in *; simpl in *; congruence ].

Lemma untouched_detectLayerChanges w : untouched f (detectLayerChanges w).2 = untouched f w.
Proof.
  unfold detectLayerChanges. apply foldl_invariant.
  - apply foldl_invariant; [done|]. intros [changes w1] layerId Hinv. untouched_solve.
  - intros [changes w1] poseLayer Hinv. untouched_solve.
Qed.

Lemma untouched_detectDestructions current snapshot acc :
  untouched f (detectDestructions current snapshot acc).2 = untouched f acc.2.
Proof.
  unfold detectDestructions.
  apply (foldl_invariant (fun a => untouched f a.2 = untouched f acc.2)); [done|].
  intros [changes w1] uuid Hinv. untouched_solve.
Qed.

Lemma untouched_detectCreationsAndChanges current snapshot acc :
  untouched f (detectCreationsAndChanges current snapshot acc).2 = untouched f acc.2.
Proof.
  unfold detectCreationsAndChanges.
  apply (foldl_invariant (fun a => untouched f a.2 = untouched f acc.2)); [done|].
  intros [changes w1] d Hinv. untouched_solve.
Qed.

Lemma untouched_detectChanges w : untouched f (detectChanges w).2 = untouched f w.
Proof.
  unfold detectChanges.
  by rewrite untouched_detectCreationsAndChanges, untouched_detectDestructions,
    untouched_detectLayerChanges.
Qed.

Lemma untouched_resetStateFlags_fuel n e w : untouched f (resetStateFlags_fuel n e w) = untouched f w.
Proof using flag_blind.
  revert e w. induction n as [|n IH]; intros e w; simpl; [done|].
  apply (foldl_invariant (fun w' => untouched f w' = untouched f w)).
  - apply untouched_upd. intros x. apply flag_blind.
  - intros w' c Hinv. by rewrite IH.
Qed.

Lemma untouched_handleStateChange w : untouched f (handleStateChange w) = untouched f w.
Proof using flag_blind.
  unfold handleStateChange. case_match; [done|].
  pose proof (untouched_detectChanges w) as Hd.
  destruct (detectChanges w) as [changes w1]; simpl in *.
  unfold resetStateFlags. rewrite untouched_resetStateFlags_fuel.
  by destruct changes.
Qed.

Lemma untouched_look w w' i :
  untouched f w' = untouched f w -> f (look w' i) = f (look w i).
Proof.
  unfold untouched. intros Heq. simplify_eq.
  assert (f <$> ent w' i = f <$> ent w i) as Hi.
  { unfold ent. rewrite <- !list_lookup_fmap. congruence. }
  unfold look. destruct (ent w' i), (ent w i); simpl in *; congruence.
Qed.
End Capture.

(** Worlds that agree up to the dirty flags, the notification counts and the
    records of the revision manager. *)
Lemma unflagged_frame w w' :
  untouched (erase flags) w' = untouched (erase flags) w ->
  (rm_isUndoing (w_rm w) = true -> w_rm w' = w_rm w) ->
  ~ quiet w -> frame dirty w w'.
Proof.
  intros Heq Hguard Hnq.
  assert (forall i, erase flags (look w' i) = erase flags (look w i)) as Hlook
    by (intros i; by apply untouched_look).
  unfold untouched in Heq. simplify_eq.
  assert (length (w_ents w') = length (w_ents w)) as Hlen.
  { rewrite <- (length_fmap (erase flags) (w_ents w')),
      <- (length_fmap (erase flags) (w_ents w)). congruence. }
  split; [lia|]. split; [|split; [|split]].
  - intros i Hi. apply Hlook.
  - intros i Hi. unfold is_drawable, is_scene. by rewrite look_no_entity by lia.
  - unfold world_kept. split_and!; try done; try lia.
  - intros _ Hq. done.
Qed.

Lemma handleStateChange_notified w i :
  notified (look (handleStateChange w) i) = notified (look w i).
Proof. apply untouched_look, untouched_handleStateChange. by intros b []. Qed.

(** ** Modifies clauses: dirty flags and notifications *)

Lemma frame_notify s w : frame dirty w (notify s w).
Proof.
  unfold notify. destruct (scene_data w s) as [sd|] eqn:Hsd; [|apply frame_refl].
  destruct (sc_onStateChanged sd) eqn:Hreg; [|apply frame_refl].
  destruct (isStateChangeLock w s) eqn:Hlock; [apply frame_refl|].
  apply unflagged_frame.
  - rewrite untouched_handleStateChange by (by intros b []). apply untouched_upd.
    by intros [? ? ? ? ? ? ? ? ? ? ? ? ? ? ? [| | |[]|[]]].
  - intros Hu. unfold handleStateChange.
    change (w_rm (upd_scene s _ w)) with (w_rm w). by rewrite Hu.
  - intros Hq. specialize (Hq s). unfold registered, scene_data in *.
    destruct (e_kind (look w s)); simplify_eq. rewrite Hq in Hlock; done.
Qed.
#[export] Hint Resolve frame_notify : frames.

Lemma frame_changeState_fuel n e w : frame dirty w (changeState_fuel n e true w).
Proof.
  revert e w. induction n as [|n IH]; intros e w; cbn [changeState_fuel]; frames.
Qed.

Lemma frame_changeState e w : frame dirty w (changeState e true w).
Proof. apply frame_changeState_fuel. Qed.
#[export] Hint Resolve frame_changeState : frames.

(** While the callbacks are locked out, [changeState(true)] only marks. *)
Lemma notify_quiet s w : quiet w -> notify s w = w.
Proof.
  intros Hq. unfold notify. specialize (Hq s). unfold registered, scene_data in *.
  destruct (e_kind (look w s)) as [| | | |sd]; try done.
  destruct (sc_onStateChanged sd); [|done]. by rewrite Hq.
Qed.

(** ** Modifies clauses: inherited attributes *)

Lemma frame_updateVisibility e w : frame vis w (updateVisibility e w).
Proof. unfold updateVisibility, Keypoint_updateVisibility, Bone_updateVisibility. frames. Qed.
#[export] Hint Resolve frame_updateVisibility : frames.

Lemma frame_setVisible e v w : frame (at_ e visibility) w (setVisible e v w).
Proof. unfold setVisible. frames. Qed.
#[export] Hint Resolve frame_setVisible : frames.

Lemma frame_setStrokeColor_fuel n e w : frame vis w (setStrokeColor_fuel n e None w).
Proof.
  revert e w. induction n as [|n IH]; intros e w; cbn [setStrokeColor_fuel]; frames.
Qed.
#[export] Hint Resolve frame_setStrokeColor_fuel : frames.

Lemma frame_setStrokeColor e c w : frame (at_ e stroke) w (setStrokeColor e c w).
Proof.
  unfold setStrokeColor. destruct (fuel w) as [|n]; cbn [setStrokeColor_fuel]; frames.
Qed.
#[export] Hint Resolve frame_setStrokeColor : frames.

Lemma frame_setFillColor_fuel n e w : frame vis w (setFillColor_fuel n e None w).
Proof.
  revert e w. induction n as [|n IH]; intros e w; cbn [setFillColor_fuel]; frames.
Qed.
#[export] Hint Resolve frame_setFillColor_fuel : frames.

Lemma frame_setFillColor e c w : frame (at_ e fill) w (setFillColor e c w).
Proof.
  unfold setFillColor. destruct (fuel w) as [|n]; cbn [setFillColor_fuel]; frames.
Qed.
#[export] Hint Resolve frame_setFillColor : frames_coarse.

Lemma frame_setStrokeWidth e v w : frame (at_ e looks) w (setStrokeWidth e v w).
Proof. unfold setStrokeWidth. frames. Qed.
#[export] Hint Resolve frame_setStrokeWidth : frames.

Lemma frame_setRadius k r u w : frame (at_ k looks) w (setRadius k r u w).
Proof. unfold setRadius. frames. Qed.
#[export] Hint Resolve frame_setRadius : frames.

Lemma frame_Keypoint_setPosition_ k p u w :
  frame (at_ k position) w (Keypoint_setPosition_ k p u w).
Proof. unfold Keypoint_setPosition_. frames. Qed.
#[export] Hint Resolve frame_Keypoint_setPosition_ : frames.

(** ** Modifies clauses: rendering and moving *)

Lemma frame_keypoint_fill k c w :
  is_keypoint w k = true -> frame vis w (upd k (set_e_fillColor c) w).
Proof.
  intros Hk. apply frame_upd. intros x Hx. unfold is_keypoint, look in Hk. rewrite Hx in Hk.
  simpl in Hk. destruct x as [? ? ? ? ? ? ? ? ? ? ? ? ? ? ? []]; done.
Qed.
#[export] Hint Resolve frame_keypoint_fill : frames.

Lemma frame_keypoint_setFillColor k c w :
  is_keypoint w k = true -> frame vis w (setFillColor k c w).
Proof.
  intros Hk. unfold setFillColor. destruct (fuel w) as [|n]; cbn [setFillColor_fuel]; frames.
Qed.
#[export] Hint Resolve frame_keypoint_setFillColor : frames.

Lemma frame_Keypoint_render k layer w : frame vis w (final (Keypoint_render k layer w)).
Proof. unfold Keypoint_render. frames. Qed.
#[export] Hint Resolve frame_Keypoint_render : frames.

Lemma frame_Bone_render b layer w : frame vis w (final (Bone_render b layer w)).
Proof. unfold Bone_render. frames. Qed.
#[export] Hint Resolve frame_Bone_render : frames.

Lemma frame_Keypoint_updateConnectedBones k w :
  frame vis w (final (Keypoint_updateConnectedBones k w)).
Proof. unfold Keypoint_updateConnectedBones. frames. Qed.
#[export] Hint Resolve frame_Keypoint_updateConnectedBones : frames.

Lemma frame_Keypoint_setPosition k pos updateShape w :
  frame (moved k) w (final (Keypoint_setPosition k pos updateShape w)).
Proof. unfold Keypoint_setPosition, moved. frames. Qed.
#[export] Hint Resolve frame_Keypoint_setPosition : frames.

Lemma frame_Keypoint_onDrag k pos w : frame (moved k) w (Keypoint_onDrag k pos w).
Proof. unfold Keypoint_onDrag, moved. frames. Qed.
#[export] Hint Resolve frame_Keypoint_onDrag : frames.

Lemma frame_Entity_setOffset e offset updateShape w :
  frame moving w (final (Entity_setOffset e offset updateShape w)).
Proof. unfold Entity_setOffset, moving. frames. Qed.
#[export] Hint Resolve frame_Entity_setOffset : frames.

Lemma frame_setOffset e offset updateShape w :
  frame moving w (final (setOffset e offset updateShape w)).
Proof. unfold setOffset. frames. Qed.
#[export] Hint Resolve frame_setOffset : frames.

Lemma frame_Bone_setPosition_ b pos updateShape w :
  frame moving w (final (Bone_setPosition_ b pos updateShape w)).
Proof. unfold Bone_setPosition_. frames. Qed.
#[export] Hint Resolve frame_Bone_setPosition_ : frames.

Lemma frame_Limb_setPosition_ l pos updateShape w :
  frame moving w (final (Limb_setPosition_ l pos updateShape w)).
Proof. unfold Limb_setPosition_. frames. Qed.
#[export] Hint Resolve frame_Limb_setPosition_ : frames.

Lemma frame_Drawable_setPosition_ d pos w :
  frame moving w (final (Drawable_setPosition_ d pos w)).
Proof. unfold Drawable_setPosition_. frames. Qed.
#[export] Hint Resolve frame_Drawable_setPosition_ : frames.

Lemma frame_setPosition e pos updateShape w :
  frame moving w (final (setPosition e pos updateShape w)).
Proof. unfold setPosition. frames. Qed.
#[export] Hint Resolve frame_setPosition : frames.

(** ** Reading a frame *)

Lemma frame_parent S w w' i :
  frame S w w' -> heap S = false -> e_parent (look w' i) = e_parent (look w i).
Proof.
  intros (_ & E & _ & K & _) Hh. destruct K as (_ & _ & _ & _ & _ & B & _).
  destruct (B Hh) as (Hlen & _). destruct (decide (i < length (w_ents w))) as [Hlt|Hge].
  - by destruct (erase_class _ _ _ (E i Hlt)) as (_ & _ & Hp & _).
  - by rewrite !look_no_entity by lia.
Qed.

Lemma frame_length S w w' :
  frame S w w' -> heap S = false -> length (w_ents w') = length (w_ents w).
Proof. intros (_ & _ & _ & K & _) Hh. destruct K as (_ & _ & _ & _ & _ & B & _). by apply B. Qed.

Lemma frame_wf_parents S w w' :
  frame S w w' -> heap S = false -> wf_parents w -> wf_parents w'.
Proof. intros F Hh Hwf e p Hp. rewrite (frame_parent _ _ _ _ F Hh) in Hp. by apply Hwf. Qed.

Lemma getParents_fuel_ext w w' n e :
  (forall i, e_parent (look w' i) = e_parent (look w i)) ->
  getParents_fuel n w' e = getParents_fuel n w e.
Proof.
  intros Hp. revert e. induction n as [|n IH]; intros e; simpl; rewrite Hp; [done|].
  destruct (e_parent (look w e)); [|done]. by rewrite IH.
Qed.

Lemma frame_getParents_fuel S w w' n e :
  frame S w w' -> heap S = false -> getParents_fuel n w' e = getParents_fuel n w e.
Proof. intros F Hh. apply getParents_fuel_ext. intros i. by apply (frame_parent S). Qed.

Lemma frame_getParents S w w' e :
  frame S w w' -> heap S = false -> getParents w' e = getParents w e.
Proof.
  intros F Hh. unfold getParents, fuel. rewrite (frame_length _ _ _ F Hh).
  by apply (frame_getParents_fuel S).
Qed.

(** Behind the lock a dirty flag stays. *)
Lemma frame_stateChanged S w w' a :
  frame S w w' -> ~ structural S -> quiet w ->
  stateChanged w a = true -> stateChanged w' a = true.
Proof. intros (_ & _ & _ & _ & Q) Hs Hq. apply (Q Hs Hq). Qed.

Lemma frame_notified S w w' i :
  frame S w w' -> ~ structural S -> quiet w -> notified (look w' i) = notified (look w i).
Proof. intros (_ & _ & _ & _ & Q) Hs Hq. apply (Q Hs Hq). Qed.

Lemma frame_lock S w w' i :
  frame S w w' -> ~ structural S ->
  e_lock (look w' i) = e_lock (look w i) /\ registered w' i = registered w i
  /\ w_cells w' = w_cells w.
Proof.
  intros F [Hh Hb]%not_structural. pose proof (frame_length _ _ _ F Hh) as Hlen.
  destruct F as (_ & E & _ & K & _). destruct K as (_ & _ & _ & _ & _ & B & _).
  destruct (B Hh) as (_ & Hcells & _). split_and!; [| |done].
  - destruct (decide (i < length (w_ents w))) as [Hi|Hi].
    + by destruct (erase_structure _ _ _ (Hb i) (E i Hi)) as (_ & Hl & _).
    + by rewrite !look_no_entity by lia.
  - unfold registered. destruct (decide (i < length (w_ents w))) as [Hi|Hi].
    + destruct (erase_structure _ _ _ (Hb i) (E i Hi)) as (_ & _ & _ & _ & Hk).
      destruct (e_kind (look w' i)), (e_kind (look w i)); try done. by destruct Hk.
    + by rewrite !look_no_entity by lia.
Qed.

Lemma frame_erase S w w' i :
  frame S w w' -> heap S = false -> erase (on S i) (look w' i) = erase (on S i) (look w i).
Proof.
  intros F Hh. pose proof (frame_length _ _ _ F Hh) as Hlen. destruct F as (_ & E & _).
  destruct (decide (i < length (w_ents w))) as [Hi|Hi]; [by apply E|].
  by rewrite !look_no_entity by lia.
Qed.

Lemma Keypoint_getPosition_look w k : Keypoint_getPosition w k = position_of (look w k).
Proof. done. Qed.

Lemma erase_flag fp x y :
  fp_flags fp = false -> erase fp x = erase fp y ->
  e_stateChanged x = e_stateChanged y /\ notified x = notified y.
Proof.
  intros Hb Heq. unfold erase in Heq. rewrite Hb in Heq.
  injection Heq as _ _ _ Hf _ _ _ _ _ _ _ _ _ Hk. split; [done|]. unfold notified.
  destruct (e_kind x), (e_kind y); simpl in Hk; try done.
  unfold erase_scene in Hk. rewrite Hb in Hk. congruence.
Qed.

Lemma erase_visible fp x y :
  fp_visible fp = false -> erase fp x = erase fp y -> e_visible x = e_visible y.
Proof. intros Hb Heq. unfold erase in Heq. rewrite Hb in Heq. by injection Heq. Qed.

Lemma erase_stroke fp x y :
  fp_stroke fp = false -> erase fp x = erase fp y -> e_strokeColor x = e_strokeColor y.
Proof. intros Hb Heq. unfold erase in Heq. rewrite Hb in Heq. by injection Heq. Qed.

Lemma erase_fill fp x y :
  fp_fill fp = false -> kind_is_keypoint (e_kind x) = false ->
  erase fp x = erase fp y -> e_fillColor x = e_fillColor y.
Proof.
  intros Hb Hk Heq. pose proof (erase_kind_tag _ _ _ Heq) as Ht.
  assert (kind_is_keypoint (e_kind y) = false) as Hk'
    by (by destruct (e_kind x), (e_kind y)).
  unfold erase in Heq. rewrite Hb, Hk, Hk' in Heq. by injection Heq.
Qed.

Lemma erase_look fp x y :
  fp_look fp = false -> erase fp x = erase fp y ->
  e_strokeWidth x = e_strokeWidth y /\ radius_of x = radius_of y.
Proof.
  intros Hb Heq. unfold erase in Heq. rewrite Hb in Heq.
  injection Heq as _ _ _ _ _ _ _ _ Hw _ _ _ _ Hk. split; [done|]. unfold radius_of.
  destruct (e_kind x), (e_kind y); simpl in Hk; try done. rewrite Hb in Hk. congruence.
Qed.

Lemma erase_position fp x y :
  fp_position fp = false -> erase fp x = erase fp y -> position_of x = position_of y.
Proof.
  intros Hb Heq. unfold erase in Heq.
  injection Heq as _ _ _ _ _ _ _ _ _ _ _ _ _ Hk. unfold position_of.
  destruct (e_kind x), (e_kind y); simpl in Hk; try done. rewrite Hb in Hk. congruence.
Qed.

Lemma erase_drawable_data fp x y :
  fp_build fp = false -> erase fp x = erase fp y ->
  match e_kind x, e_kind y with
  | KDrawable dd, KDrawable dd' =>
    d_keypointsDict dd = d_keypointsDict dd' /\ d_limbs dd = d_limbs dd'
    /\ d_format dd = d_format dd' /\ d_originalBBox dd = d_originalBBox dd'
  | KDrawable _, _ | _, KDrawable _ => False
  | _, _ => True
  end.
Proof.
  intros Hb Heq. apply (erase_structure _ _ _ Hb) in Heq as (_ & _ & _ & _ & Hk).
  destruct (e_kind x) as [| | |dd|], (e_kind y) as [| | |dd'|]; try done.
  destruct dd, dd'. unfold set_d_imageShape in Hk; simpl in *. injection Hk. by intros; subst.
Qed.

(** ** Modifies clauses: the heaps, layers and records *)

Lemma frame_same_ents S w w' :
  w_ents w' = w_ents w -> world_kept S w w' -> frame S w w'.
Proof.
  intros He K. assert (forall i, look w' i = look w i) as Hlook
    by (intros i; unfold look, ent; by rewrite He).
  split; [by rewrite He|]. split; [|split; [|split; [done|]]].
  - intros i _. by rewrite Hlook.
  - intros i Hi. unfold is_scene, is_drawable. rewrite Hlook, look_no_entity by done. done.
  - intros _ _ i. by rewrite Hlook.
Qed.

Lemma frame_upd_cm f w : frame vis w (upd_cm f w).
Proof. apply frame_same_ents; [done|]. unfold world_kept. by repeat split. Qed.
Lemma frame_upd_klayer l f w : frame vis w (upd_klayer l f w).
Proof. apply frame_same_ents; [done|]. unfold world_kept. by repeat split. Qed.
Lemma frame_upd_pl p f w : frame vis w (upd_pl p f w).
Proof. apply frame_same_ents; [done|]. unfold world_kept. by repeat split. Qed.
Lemma frame_upd_ls r f w : frame records w (upd_ls r f w).
Proof. apply frame_same_ents; [done|]. unfold world_kept. by repeat split. Qed.
Lemma frame_alloc_ls s w : frame records w (alloc_ls s w).2.
Proof. apply frame_same_ents; [done|]. unfold world_kept. by repeat split. Qed.
Lemma frame_alloc_klayer l w : frame vis w (final (alloc_klayer l w)).
Proof. apply frame_same_ents; [done|]. unfold world_kept. by repeat split. Qed.
Lemma frame_alloc_pl p w : frame vis w (final (alloc_pl p w)).
Proof. apply frame_same_ents; [done|]. unfold world_kept. by repeat split. Qed.
Lemma frame_alloc_cell v w : frame counters w (final (alloc_cell v w)).
Proof. apply frame_same_ents; [done|]. unfold world_kept. by repeat split. Qed.
Lemma frame_randomUUID w : frame counters w (final (randomUUID w)).
Proof.
  apply frame_same_ents; [done|]. unfold world_kept; simpl. repeat split; try done. lia.
Qed.
Lemma frame_lockStateChange e w : frame counters w (lockStateChange e w).
Proof. apply frame_same_ents; [done|]. unfold world_kept. by repeat split. Qed.
Lemma frame_unlockStateChange e w : frame counters w (unlockStateChange e w).
Proof. apply frame_same_ents; [done|]. unfold world_kept. by repeat split. Qed.
#[export] Hint Resolve frame_upd_cm frame_upd_klayer frame_upd_pl frame_upd_ls frame_alloc_ls
  frame_alloc_klayer frame_alloc_pl frame_alloc_cell frame_randomUUID frame_lockStateChange
  frame_unlockStateChange : frames.

Lemma frame_layerState_remove layerId uuid w : frame records w (layerState_remove layerId uuid w).
Proof. unfold layerState_remove. frames. Qed.
Lemma frame_layerState_push layerId uuid w : frame records w (layerState_push layerId uuid w).
Proof. unfold layerState_push. frames. Qed.
Lemma frame_layerState_add layerId uuid w : frame records w (layerState_add layerId uuid w).
Proof. unfold layerState_add. frames. Qed.
#[export] Hint Resolve frame_layerState_remove frame_layerState_push frame_layerState_add : frames.

(** [new]: the only new entity, which is no Scene. *)
Lemma frame_alloc x w :
  kind_is_scene (e_kind x) = false ->
  frame (build_with (fun i _ => i = length (w_ents w) /\ kind_is_drawable (e_kind x) = true))
        w (final (alloc x w)).
Proof.
  intros Hx. unfold alloc; simpl.
  assert (forall i, i < length (w_ents w) ->
                    look (set_w_ents (w_ents w ++ [x]) w) i = look w i) as Hold.
  { intros i Hi. unfold look, ent; simpl. by rewrite lookup_app_l. }
  split; [simpl; rewrite length_app; simpl; lia|]. split; [|split; [|split]].
  - intros i Hi. by rewrite Hold.
  - intros i Hi. unfold is_scene, is_drawable, look, ent; simpl.
    destruct (decide (i = length (w_ents w))) as [->|Hne].
    + rewrite list_lookup_middle by done. simpl. split; [by destruct (e_kind x)|].
      intros Hd. split; [done|]. by destruct (e_kind x).
    + rewrite lookup_ge_None_2 by (rewrite length_app; simpl; lia). done.
  - unfold world_kept. repeat split; done.
  - intros Hn. destruct Hn. by left.
Qed.

(** ** Modifies clauses: construction and destruction *)

Lemma frame_set_w_cells c w : frame counters w (set_w_cells c w).
Proof. apply frame_same_ents; [done|]. unfold world_kept. by repeat split. Qed.
#[export] Hint Resolve frame_set_w_cells : frames.

Lemma frame_addChild p child withLock w : frame build w (addChild p child withLock w).
Proof. unfold addChild. frames. Qed.
#[export] Hint Resolve frame_addChild : frames.

Lemma frame_removeChild p child w : frame build w (removeChild p child w).
Proof. unfold removeChild. frames. Qed.
#[export] Hint Resolve frame_removeChild : frames.

Lemma frame_new_entity name parent withLock kind w :
  kind_is_scene kind = false ->
  frame (newborn w kind) w (final (new_entity name parent withLock kind w)).
Proof.
  intros Hk. unfold new_entity, newborn. frames.
  all: eapply frame_mono; [|by apply frame_alloc].
  all: unfold scope_le, build_with; simpl; split_and!; done.
Qed.

Lemma new_entity_returns name parent withLock kind w :
  exists w', new_entity name parent withLock kind w = Ret (length (w_ents w)) w'.
Proof.
  unfold new_entity, bind, gets, alloc_cell, randomUUID, alloc, modify, ret.
  destruct parent as [p|]; [destruct withLock|]; simpl; eexists; reflexivity.
Qed.

Lemma frame_new_Keypoint name x y parent w : frame build w (final (new_Keypoint name x y parent w)).
Proof.
  unfold new_Keypoint. eapply frame_mono; [|by apply frame_new_entity]. scope_le_solve.
Qed.
Lemma frame_new_Limb name parent w : frame build w (final (new_Limb name parent w)).
Proof.
  unfold new_Limb. eapply frame_mono; [|by apply frame_new_entity]. scope_le_solve.
Qed.
Lemma frame_new_Bone name s t parent w : frame build w (final (new_Bone name s t parent w)).
Proof.
  unfold new_Bone. eapply frame_mono; [|by apply frame_new_entity]. scope_le_solve.
Qed.
#[export] Hint Resolve frame_new_Keypoint frame_new_Limb frame_new_Bone : frames.

Lemma frame_buildStructure d cx cy width height personData w :
  frame vis w (final (buildStructure d cx cy width height personData w)).
Proof. unfold buildStructure. frames. Qed.
#[export] Hint Resolve frame_buildStructure : frames.

Lemma frame_buildKeypoint d name pos w : frame build w (final (buildKeypoint d name pos w)).
Proof. unfold buildKeypoint. frames. Qed.
#[export] Hint Resolve frame_buildKeypoint : frames.

Lemma frame_buildKeypoints d names : forall positions acc w,
  frame build w (final (buildKeypoints d names positions acc w)).
Proof.
  induction names as [|name names IH]; intros positions acc w; [apply frame_refl|].
  destruct positions as [|pos positions]; [apply frame_refl|].
  cbn [buildKeypoints]. frames.
Qed.
#[export] Hint Resolve frame_buildKeypoints : frames.

Lemma frame_buildBone d limbObj bone w : frame build w (final (buildBone d limbObj bone w)).
Proof. unfold buildBone. frames. Qed.
#[export] Hint Resolve frame_buildBone : frames.

Lemma frame_buildLimb d limb w : frame build w (final (buildLimb d limb w)).
Proof. unfold buildLimb. frames. Qed.
#[export] Hint Resolve frame_buildLimb : frames.

Lemma frame_buildSkeleton d cx cy width height personData w :
  frame build w (final (buildSkeleton d cx cy width height personData w)).
Proof. unfold buildSkeleton. frames. Qed.
#[export] Hint Resolve frame_buildSkeleton : frames.

Lemma buildSkeleton_returns d cx cy width height personData w :
  exists w', buildSkeleton d cx cy width height personData w = Ret tt w'.
Proof.
  unfold buildSkeleton, try_catch.
  match goal with |- context [match ?m with _ => _ end] => destruct m as [[] w'|msg w'] end;
    eexists; reflexivity.
Qed.

Lemma frame_resetPose d x y width height w :
  frame build w (final (resetPose d x y width height w)).
Proof. unfold resetPose. frames. Qed.
#[export] Hint Resolve frame_resetPose : frames.

Lemma frame_loadImage d imagePath w : frame build w (final (loadImage d imagePath w)).
Proof. unfold loadImage. frames. Qed.
#[export] Hint Resolve frame_loadImage : frames.

Lemma frame_new_Drawable cls name cx cy width height parent format withLock imagePath w :
  frame (one_new w) w
        (final (new_Drawable cls name cx cy width height parent format withLock imagePath w)).
Proof.
  unfold new_Drawable, one_new. frames.
  eapply frame_mono; [|by apply frame_new_entity]. scope_le_solve.
Qed.

Lemma new_Drawable_returns cls name cx cy width height parent format withLock imagePath w :
  exists w', new_Drawable cls name cx cy width height parent format withLock imagePath w
             = Ret (length (w_ents w)) w'.
Proof.
  unfold new_Drawable, bind at 1.
  match goal with |- context [new_entity ?a ?b ?c ?d ?w0] =>
    destruct (new_entity_returns a b c d w0) as [w1 ->] end.
  unfold bind, modify, ret. eexists; reflexivity.
Qed.

Lemma frame_Drawable_create cls name cx cy width height parent format withLock personData w :
  frame (one_new w) w
        (final (Drawable_create cls name cx cy width height parent format withLock personData w)).
Proof.
  unfold Drawable_create, one_new. frames.
  eapply frame_mono; [|apply frame_new_Drawable]. scope_le_solve.
Qed.

Lemma Drawable_create_returns cls name cx cy width height parent format withLock personData w :
  exists w', Drawable_create cls name cx cy width height parent format withLock personData w
             = Ret (length (w_ents w)) w'.
Proof.
  unfold Drawable_create, bind at 1.
  match goal with |- context [new_Drawable ?a ?b ?c ?d ?e ?f ?g ?h ?i ?j ?w0] =>
    destruct (new_Drawable_returns a b c d e f g h i j w0) as [w1 ->] end.
  unfold bind at 1.
  match goal with |- context [buildSkeleton ?a ?b ?c ?d ?e ?f ?w0] =>
    destruct (buildSkeleton_returns a b c d e f w0) as [w2 ->] end.
  unfold bind, modify, ret. eexists; reflexivity.
Qed.

Lemma frame_DistortableImage_create name cx cy width height imagePath parent w :
  frame (one_new w) w
        (final (DistortableImage_create name cx cy width height imagePath parent w)).
Proof.
  unfold DistortableImage_create, one_new. frames.
  eapply frame_mono; [|apply frame_new_Drawable]. scope_le_solve.
Qed.

Lemma DistortableImage_create_returns name cx cy width height imagePath parent w :
  exists w', DistortableImage_create name cx cy width height imagePath parent w
             = Ret (length (w_ents w)) w'.
Proof.
  unfold DistortableImage_create, bind at 1.
  match goal with |- context [new_Drawable ?a ?b ?c ?d ?e ?f ?g ?h ?i ?j ?w0] =>
    destruct (new_Drawable_returns a b c d e f g h i j w0) as [w1 ->] end.
  unfold bind at 1.
  match goal with |- context [buildSkeleton ?a ?b ?c ?d ?e ?f ?w0] =>
    destruct (buildSkeleton_returns a b c d e f w0) as [w2 ->] end.
  unfold bind at 1, try_catch.
  match goal with |- context [loadImage ?a ?b ?w0] =>
    destruct (loadImage a b w0) as [[] w3|msg w3] end;
    unfold bind, modify, ret; eexists; reflexivity.
Qed.

Lemma frame_addPerson scene bbox personData strokeColor fillColor format w :
  frame (one_new w) w
        (final (addPerson scene bbox personData strokeColor fillColor format w)).
Proof.
  unfold addPerson, one_new. frames.
  eapply frame_mono; [|apply frame_Drawable_create]. scope_le_solve.
Qed.

Lemma addPerson_returns scene bbox personData strokeColor fillColor format w :
  exists w', addPerson scene bbox personData strokeColor fillColor format w
             = Ret (length (w_ents w)) w'.
Proof.
  unfold addPerson, bind at 1, gets. cbv beta delta [id]. unfold bind at 1, modify at 1.
  unfold bind at 1.
  match goal with |- context [Drawable_create ?a ?b ?c ?d ?e ?f ?g ?h ?i ?j ?w0] =>
    destruct (Drawable_create_returns a b c d e f g h i j w0) as [w1 ->] end.
  unfold bind, modify, ret. eexists; reflexivity.
Qed.

Lemma frame_addImage scene bbox imagePath strokeColor fillColor w :
  frame (one_new w) w (final (addImage scene bbox imagePath strokeColor fillColor w)).
Proof.
  unfold addImage, one_new. frames.
  all: eapply frame_mono; [|apply frame_DistortableImage_create]; scope_le_solve.
Qed.

Lemma addImage_returns scene bbox imagePath strokeColor fillColor w :
  exists w', addImage scene bbox imagePath strokeColor fillColor w
             = Ret (length (w_ents w)) w'.
Proof.
  unfold addImage, bind at 1, gets. cbv beta delta [id]. unfold bind at 1, modify at 1.
  unfold bind at 1.
  match goal with |- context [DistortableImage_create ?a ?b ?c ?d ?e ?f ?g ?w0] =>
    destruct (DistortableImage_create_returns a b c d e f g w0) as [w1 ->] end.
  unfold bind, modify, ret. destruct (bb_height bbox), (bb_width bbox); eexists; reflexivity.
Qed.

(** ** Modifies clauses: layers, rendering a Drawable, destruction *)

Lemma frame_DistortableImage_renderImage d layer w :
  frame vis w (final (DistortableImage_renderImage d layer w)).
Proof. unfold DistortableImage_renderImage, upd_imageShape. frames. Qed.
#[export] Hint Resolve frame_DistortableImage_renderImage : frames.

Lemma frame_render_fuel n : forall e layer w, frame vis w (final (render_fuel n e layer w)).
Proof.
  induction n as [|n IH]; intros e layer w; cbn [render_fuel]; frames.
Qed.
#[export] Hint Resolve frame_render_fuel : frames.

Lemma frame_render e layer w : frame vis w (final (render e layer w)).
Proof. unfold render. frames. Qed.
#[export] Hint Resolve frame_render : frames.

Lemma frame_destroy_fuel n : forall e w, frame build w (final (destroy_fuel n e w)).
Proof.
  induction n as [|n IH]; intros e w; cbn [destroy_fuel]; frames.
Qed.
#[export] Hint Resolve frame_destroy_fuel : frames.

Lemma frame_destroy e w : frame build w (final (destroy e w)).
Proof. unfold destroy. frames. Qed.
#[export] Hint Resolve frame_destroy : frames.

Lemma frame_PoseLayer_renderDrawable p d w :
  frame vis w (final (PoseLayer_renderDrawable p d w)).
Proof. unfold PoseLayer_renderDrawable. frames. Qed.
Lemma frame_PoseLayer_removeDrawable p d w : frame vis w (PoseLayer_removeDrawable p d w).
Proof. unfold PoseLayer_removeDrawable. frames. Qed.
Lemma frame_PoseLayer_clear p w : frame vis w (PoseLayer_clear p w).
Proof. unfold PoseLayer_clear. frames. Qed.
Lemma frame_new_PoseLayer layer scene w : frame build w (final (new_PoseLayer layer scene w)).
Proof. unfold new_PoseLayer. frames. Qed.
#[export] Hint Resolve frame_PoseLayer_renderDrawable frame_PoseLayer_removeDrawable
  frame_PoseLayer_clear frame_new_PoseLayer : frames.

Lemma frame_removeDrawable scene d w : frame build w (final (removeDrawable scene d w)).
Proof. unfold removeDrawable. frames. Qed.
Lemma frame_deletePoseLayer scene p w : frame build w (final (deletePoseLayer scene p w)).
Proof. unfold deletePoseLayer. frames. Qed.
#[export] Hint Resolve frame_removeDrawable frame_deletePoseLayer : frames.

Lemma frame_updateLayerOpacities w : frame vis w (updateLayerOpacities w).
Proof. unfold updateLayerOpacities. frames. Qed.
#[export] Hint Resolve frame_updateLayerOpacities : frames.

Lemma frame_setCurrentLayer index w : frame vis w (setCurrentLayer index w).
Proof. unfold setCurrentLayer. frames. Qed.
Lemma frame_reorderLayers a b w : frame build w (reorderLayers a b w).
Proof. unfold reorderLayers. frames. Qed.
Lemma frame_deleteLayer index w : frame build w (final (deleteLayer index w)).
Proof. unfold deleteLayer. frames. Qed.
Lemma frame_addLayer layer w : frame build w (final (addLayer layer w)).
Proof. unfold addLayer. frames. Qed.
Lemma frame_moveDrawableToLayer d index w :
  frame dirty w (final (moveDrawableToLayer d index w)).
Proof. unfold moveDrawableToLayer. frames. Qed.
#[export] Hint Resolve frame_setCurrentLayer frame_reorderLayers frame_deleteLayer frame_addLayer
  frame_moveDrawableToLayer : frames.

(** ** Modifies clauses: the revision manager *)

Lemma frame_applyState d state w : frame editing w (final (applyState d state w)).
Proof. unfold applyState. frames. Qed.
#[export] Hint Resolve frame_applyState : frames.

Lemma frame_applyLayerDiff d l mode w : frame dirty w (final (applyLayerDiff d l mode w)).
Proof. unfold applyLayerDiff. frames. Qed.
#[export] Hint Resolve frame_applyLayerDiff : frames.

Lemma frame_applyChildDiff child d mode w :
  frame editing w (final (applyChildDiff child d mode w)).
Proof. unfold applyChildDiff. frames. Qed.
#[export] Hint Resolve frame_applyChildDiff : frames.

Lemma frame_applyDiff d diff mode w : frame batching w (final (applyDiff d diff mode w)).
Proof. unfold applyDiff. frames. Qed.
#[export] Hint Resolve frame_applyDiff : frames.

Lemma frame_removeRecorded uuid w : frame build w (final (removeRecorded uuid w)).
Proof. unfold removeRecorded. frames. Qed.
Lemma frame_deleteRecordedLayer layerId w : frame build w (final (deleteRecordedLayer layerId w)).
Proof. unfold deleteRecordedLayer. frames. Qed.
#[export] Hint Resolve frame_removeRecorded frame_deleteRecordedLayer : frames.

(** [drawable.uuid = state.uuid; drawable.name = args.name] on the Drawable
    that [addPerson] or [addImage] has just returned. *)
Lemma frame_renamed w w1 u name :
  frame (one_new w) w w1 ->
  frame (reborn u) w
        (upd (length (w_ents w)) (set_e_name name) (upd (length (w_ents w)) (set_e_uuid u) w1)).
Proof.
  intros (L & E & N & K & Q). set (d := length (w_ents w)) in *.
  set (w2 := upd d (set_e_name name) (upd d (set_e_uuid u) w1)).
  assert (forall i, i <> d -> look w2 i = look w1 i) as Hother.
  { intros i Hi. unfold w2. by rewrite !look_upd_ne. }
  assert (forall i, e_kind (look w2 i) = e_kind (look w1 i)) as Hkind.
  { intros i. unfold w2. by rewrite !look_upd_field. }
  split; [unfold w2; by rewrite !length_upd|]. split; [|split; [|split]].
  - intros i Hi. rewrite Hother by (unfold d; lia). by apply E.
  - intros i Hi. unfold is_scene, is_drawable. rewrite Hkind.
    destruct (N i Hi) as [Hs Hd]. split; [done|]. intros Hdr.
    specialize (Hd Hdr). unfold one_new in Hd. simpl in Hd. subst i. unfold reborn. simpl.
    unfold look in Hdr. fold d in Hdr. destruct (ent w1 d) as [x|] eqn:Hx; [|by simpl in Hdr].
    assert (ent (upd d (set_e_uuid u) w1) d = Some (set_e_uuid u x)) as Hx'
      by (by rewrite ent_upd, decide_True, Hx).
    unfold w2. fold d. by rewrite (look_upd_eq _ _ _ _ Hx').
  - destruct K as (T & I & U & Sc & C & B & D & G). unfold world_kept.
    split_and!; try done; intros Habs; discriminate Habs.
  - intros Hn. destruct Hn. by left.
Qed.

Lemma frame_restoreDrawable state w :
  frame (reborn (st_uuid state)) w (final (restoreDrawable state w)).
Proof.
  unfold restoreDrawable, bind at 1, gets. cbv beta delta [id].
  destruct (st_type state).
  - unfold reborn. frames.
  - unfold bind at 1. unfold bind at 1.
    match goal with |- context [addPerson ?a ?b ?c ?d ?e ?f w] =>
      pose proof (frame_addPerson a b c d e f w) as F1;
      destruct (addPerson_returns a b c d e f w) as [w1 Hret] end.
    rewrite Hret in *. simpl in F1. unfold ret at 1. cbv beta iota.
    unfold bind at 1, modify at 1. unfold bind at 1, modify at 1. cbv beta iota.
    eapply frame_trans; [by apply frame_renamed|]. unfold reborn. frames.
  - unfold bind at 1. unfold bind at 1.
    match goal with |- context [addImage ?a ?b ?c ?d ?e w] =>
      pose proof (frame_addImage a b c d e w) as F1;
      destruct (addImage_returns a b c d e w) as [w1 Hret] end.
    rewrite Hret in *. simpl in F1. unfold ret at 1. cbv beta iota.
    unfold bind at 1, modify at 1. unfold bind at 1, modify at 1. cbv beta iota.
    eapply frame_trans; [by apply frame_renamed|]. unfold reborn. frames.
Qed.
#[export] Hint Resolve frame_restoreDrawable : frames.

Lemma frame_restoreRecorded state w :
  frame (reborn (st_uuid state)) w (final (restoreRecorded state w)).
Proof. unfold restoreRecorded, reborn. frames. Qed.
#[export] Hint Resolve frame_restoreRecorded : frames.

(** ** C2: the state-change lock *)

Lemma moving_not_structural : ~ structural moving.
Proof. apply not_structural. done. Qed.

Lemma dirty_not_structural : ~ structural dirty.
Proof. apply not_structural. done. Qed.

Lemma moved_not_structural k : ~ structural (moved k).
Proof. apply not_structural. split; [done|]. intros i. simpl. by case_decide. Qed.

Lemma dirty_quiet w w' : frame dirty w w' -> quiet w -> quiet w'.
Proof. intros F. apply (frame_quiet _ _ _ F), dirty_not_structural. Qed.

Lemma dirty_stateChanged w w' a :
  frame dirty w w' -> quiet w -> stateChanged w a = true -> stateChanged w' a = true.
Proof. intros F. apply (frame_stateChanged _ _ _ _ F), dirty_not_structural. Qed.

Lemma look_upd_flag e w :
  e < length (w_ents w) -> stateChanged (upd e (set_e_stateChanged true) w) e = true.
Proof.
  intros He. destruct (lookup_lt_is_Some_2 (w_ents w) e He) as [x Hx].
  unfold stateChanged. by erewrite look_upd_eq.
Qed.

Lemma changeState_fuel_marks n e w a :
  quiet w -> wf_parents w -> e < length (w_ents w) ->
  a ∈ e :: getParents_fuel n w e ->
  stateChanged (changeState_fuel n e true w) a = true.
Proof.
  revert e w a. induction n as [|n IH]; intros e w a Hq Hwf He Ha.
  - cbn [changeState_fuel]. set (w1 := upd e (set_e_stateChanged true) w).
    assert (frame dirty w w1) as F1 by (subst w1; frames).
    assert ((match e_parent (look w1 e) with Some _ | _ => w1 end) = w1) as -> by by case_match.
    rewrite notify_quiet by (by apply (dirty_quiet w)).
    simpl in Ha. destruct (e_parent (look w e)); apply list_elem_of_singleton in Ha as ->.
    all: by apply look_upd_flag.
  - cbn [changeState_fuel]. set (w1 := upd e (set_e_stateChanged true) w).
    assert (frame dirty w w1) as F1 by (subst w1; frames).
    assert (quiet w1) as Hq1 by (by apply (dirty_quiet w)).
    assert (stateChanged w1 e = true) as He1 by (by apply look_upd_flag).
    rewrite (frame_parent _ _ _ e F1) by done.
    simpl in Ha. destruct (e_parent (look w e)) as [p|] eqn:Hp.
    + assert (frame dirty w1 (changeState_fuel n p true w1)) as F2
        by apply frame_changeState_fuel.
      rewrite notify_quiet by (by apply (dirty_quiet w1)).
      apply elem_of_cons in Ha as [->|Ha].
      * by apply (dirty_stateChanged w1).
      * apply IH; try done.
        -- by apply (frame_wf_parents _ _ _ F1).
        -- rewrite (frame_length _ _ _ F1) by done. apply Hwf in Hp. lia.
        -- by rewrite (frame_getParents_fuel _ _ _ _ _ F1).
    + rewrite notify_quiet by done. apply list_elem_of_singleton in Ha as ->. done.
Qed.

Lemma changeState_marks e w a :
  quiet w -> wf_parents w -> e < length (w_ents w) ->
  a ∈ e :: getParents w e -> stateChanged (changeState e true w) a = true.
Proof. apply changeState_fuel_marks. Qed.

Lemma frame_mutate m w : frame moving w (final (mutate m w)).
Proof. destruct m; unfold mutate, moved; frames. Qed.

Lemma frame_batch fn w : frame moving w (final (batch fn w)).
Proof. unfold batch. apply frame_forEach. intros m w1 _. apply frame_mutate. Qed.

Lemma moving_quiet w w' : frame moving w w' -> quiet w -> quiet w'.
Proof. intros F. apply (frame_quiet _ _ _ F), moving_not_structural. Qed.

Lemma moving_stateChanged w w' a :
  frame moving w w' -> quiet w -> stateChanged w a = true -> stateChanged w' a = true.
Proof. intros F. apply (frame_stateChanged _ _ _ _ F), moving_not_structural. Qed.

(** A method that starts with [this.changeState(true)]. *)
Lemma marks_then e (rest : M unit) w a :
  quiet w -> wf_parents w -> e < length (w_ents w) -> a ∈ e :: getParents w e ->
  (forall w1, frame moving w1 (final (rest w1))) ->
  stateChanged (final ((modify (changeState e true) ;; rest) w)) a = true.
Proof.
  intros Hq Hwf He Ha Hrest. unfold bind, modify.
  change (stateChanged (final (rest (changeState e true w))) a = true).
  apply (moving_stateChanged (changeState e true w)); [apply Hrest| |].
  - apply (dirty_quiet w); [apply frame_changeState | done].
  - by apply changeState_marks.
Qed.

Lemma Entity_setOffset_marks e offset updateShape w a :
  quiet w -> wf_parents w -> e < length (w_ents w) -> a ∈ e :: getParents w e ->
  stateChanged (final (Entity_setOffset e offset updateShape w)) a = true.
Proof.
  intros Hq Hwf He Ha. unfold Entity_setOffset. apply marks_then; try done.
  intros w1. unfold moving. frames.
Qed.

Lemma setPosition_marks e pos updateShape w a :
  quiet w -> wf_parents w -> e < length (w_ents w) -> a ∈ e :: getParents w e ->
  stateChanged (final (setPosition e pos updateShape w)) a = true.
Proof.
  intros Hq Hwf He Ha. unfold setPosition, bind at 1, gets. cbv beta delta [id].
  destruct (e_kind (look w e)); unfold Keypoint_setPosition.
  1-4: apply marks_then; try done; intros w1; unfold moving; frames.
  by apply changeState_marks.
Qed.

Lemma mutate_marks m w w' e a :
  quiet w -> wf_parents w -> mutate m w = Ret tt w' ->
  e ∈ mutated w m -> e < length (w_ents w) -> a ∈ e :: getParents w e ->
  stateChanged w' a = true.
Proof.
  intros Hq Hwf Hrun He Hlt Ha.
  assert (w' = final (mutate m w)) as Hw' by (by rewrite Hrun).
  destruct m as [e'|e' pos us|e' offset us|k pos]; simpl in He.
  - apply list_elem_of_singleton in He as ->. rewrite Hw'. by apply changeState_marks.
  - apply list_elem_of_singleton in He as ->. rewrite Hw'. by apply setPosition_marks.
  - clear Hw'. unfold mutate, setOffset, bind at 1, gets in Hrun. cbv beta delta [id] in Hrun.
    destruct (e_kind (look w e')) as [| s t | | |] eqn:Hk;
      try (apply list_elem_of_singleton in He as ->;
           change w' with (final (Ret tt w')); rewrite <- Hrun;
           by apply Entity_setOffset_marks).
    unfold bind in Hrun.
    pose proof (frame_Entity_setOffset s offset us w) as F1.
    pose proof (Entity_setOffset_marks s offset us w) as M1.
    destruct (Entity_setOffset s offset us w) as [[] w1|msg w1] eqn:H1; simpl in *; [|done].
    pose proof (frame_Entity_setOffset t offset us w1) as F2.
    assert (quiet w1) as Hq1 by (by apply (moving_quiet w)).
    change w' with (final (Ret tt w')). rewrite <- Hrun.
    apply elem_of_cons in He as [->|He].
    + apply (moving_stateChanged w1); auto.
    + apply list_elem_of_singleton in He as ->. apply Entity_setOffset_marks; try done.
      * by apply (frame_wf_parents _ _ _ F1).
      * by rewrite (frame_length _ _ _ F1).
      * by rewrite (frame_getParents _ _ _ _ F1).
  - apply list_elem_of_singleton in He as ->. rewrite Hw'.
    unfold mutate, modify, Keypoint_onDrag. simpl.
    set (w1 := upd k (set_position (Some pos)) w).
    assert (frame moving w w1) as F1 by (subst w1; unfold moving; frames).
    apply changeState_marks.
    + by apply (moving_quiet w).
    + by apply (frame_wf_parents _ _ _ F1).
    + by rewrite (frame_length _ _ _ F1).
    + by rewrite (frame_getParents _ _ _ _ F1).
Qed.

Lemma frame_mutated S w w' m :
  frame S w w' -> heap S = false -> mutated w' m = mutated w m.
Proof.
  intros F Hh. destruct m as [| |e offset us|]; simpl; try done.
  pose proof (frame_length _ _ _ F Hh) as Hlen. destruct F as (_ & E & _).
  destruct (decide (e < length (w_ents w))) as [He|He].
  - apply E, erase_kind_tag in He.
    destruct (e_kind (look w' e)), (e_kind (look w e)); try done. by destruct He as [-> ->].
  - by rewrite !look_no_entity by lia.
Qed.

Lemma forEach_app {A} (xs ys : list A) (f : A -> M unit) w :
  forEach (xs ++ ys) f w = (forEach xs f ;; forEach ys f) w.
Proof.
  revert w. induction xs as [|x xs IH]; intros w; simpl; [done|].
  unfold bind. destruct (f x w) as [[] w1|msg w1]; [|done]. apply IH.
Qed.

Lemma lockStateChange_quiet s w :
  registered w s = true -> (forall s', registered w s' = true -> s' = s) ->
  w_cells w !! e_lock (look w s) = Some 0%Z ->
  quiet (lockStateChange s w).
Proof.
  intros Hs Honly Hcell s' Hs'. rewrite (Honly s' Hs').
  unfold isStateChangeLock, lockStateChange; simpl.
  change (look (set_w_cells _ w) s) with (look w s).
  by rewrite list_lookup_alter_eq, Hcell.
Qed.

(** [Scene.changeState(true)] with the lock released: one notification. *)
Lemma changeState_unlocked s w :
  e_parent (look w s) = None -> registered w s = true -> isStateChangeLock w s = false ->
  notified (look (changeState s true w) s) = S (notified (look w s)).
Proof.
  intros Hp Hs Hl. unfold changeState, fuel. cbn [changeState_fuel].
  set (w1 := upd s (set_e_stateChanged true) w).
  assert (e_parent (look w1 s) = None) as -> by (subst w1; by rewrite look_upd_field).
  assert (e_kind (look w1 s) = e_kind (look w s)) as Hk1
    by (subst w1; by rewrite look_upd_field).
  assert (e_lock (look w1 s) = e_lock (look w s)) as Hl1
    by (subst w1; by rewrite look_upd_field).
  unfold registered in Hs. unfold notify, scene_data, notified. rewrite Hk1.
  destruct (e_kind (look w s)) as [| | | |sd] eqn:Hk; try done. rewrite Hs.
  unfold isStateChangeLock in *. rewrite Hl1. change (w_cells w1) with (w_cells w).
  rewrite Hl. fold (notified (look (handleStateChange
    (upd_scene s (fun sd0 => set_sc_notified (S (sc_notified sd0)) sd0) w1)) s)).
  rewrite handleStateChange_notified. unfold notified, upd_scene.
  assert (is_Some (ent w1 s)) as [x Hx].
  { unfold look in Hk1. destruct (ent w1 s); [by eexists|done]. }
  erewrite look_upd_eq by done. unfold look in Hk1. rewrite Hx in Hk1. simpl in Hk1.
  rewrite Hk1. done.
Qed.



(** ** C3: building a skeleton again *)

Lemma implb_orb_l (x y : bool) : implb x (x || y) = true.
Proof. by destruct x. Qed.

Lemma implb_orb_r (x y : bool) : implb y (x || y) = true.
Proof. by destruct x, y. Qed.

Lemma fp_leb_join_l a b : fp_leb a (fp_join a b) = true.
Proof. unfold fp_leb, fp_join; simpl. by rewrite !implb_orb_l. Qed.

Lemma fp_leb_join_r a b : fp_leb b (fp_join a b) = true.
Proof. unfold fp_leb, fp_join; simpl. by rewrite !implb_orb_r. Qed.

Lemma rebuild_on_untouched dict names i :
  (forall name, name ∈ names -> sget name dict <> Some i) -> rebuild_on dict names i = nothing.
Proof.
  induction names as [|name names IH]; intros Hno; simpl; [done|].
  rewrite decide_False by (apply Hno; left). apply IH. intros n Hn. apply Hno. by right.
Qed.

Lemma rebuild_on_plain dict names i :
  (forall name, name ∈ names -> is_detail_name name = true -> sget name dict <> Some i) ->
  fp_leb (rebuild_on dict names i) position = true.
Proof.
  induction names as [|name names IH]; intros Hno; simpl; [done|].
  assert (fp_leb (rebuild_on dict names i) position = true) as IH'.
  { apply IH. intros n Hn. apply Hno. by right. }
  case_decide as Hi; [|done]. unfold rebuilt.
  destruct (is_detail_name name) eqn:Hd; [destruct (Hno name); by try left|].
  revert IH'. by destruct (rebuild_on dict names i) as [[] [] [] [] [] [] []].
Qed.

Lemma rebuild_on_build dict names i : fp_build (rebuild_on dict names i) = false.
Proof.
  induction names as [|name names IH]; simpl; [done|]. case_decide; [|done].
  simpl. rewrite IH. unfold rebuilt. by destruct (is_detail_name name).
Qed.

Lemma rebuild_on_flags dict names i : fp_visible (rebuild_on dict names i) = false.
Proof.
  induction names as [|name names IH]; simpl; [done|]. case_decide; [|done].
  simpl. rewrite IH. unfold rebuilt. by destruct (is_detail_name name).
Qed.

(** A scope that builds nothing keeps the registers of a Drawable. *)
Lemma frame_registers S w w' d :
  frame S w w' -> heap S = false -> fp_build (on S d) = false ->
  keypointsDict w' d = keypointsDict w d /\ limbs w' d = limbs w d.
Proof.
  intros F Hh Hb. pose proof (frame_erase _ _ _ d F Hh) as E.
  apply (erase_drawable_data _ _ _ Hb) in E.
  unfold keypointsDict, limbs, drawable_data.
  destruct (e_kind (look w' d)), (e_kind (look w d)); try done.
  simpl. by destruct E as (-> & -> & _).
Qed.

Lemma buildStructure_pure d cx cy width height personData w str w' :
  buildStructure d cx cy width height personData w = Ret str w' -> w' = w.
Proof.
  unfold buildStructure, bind, gets, ret, throw. cbv beta delta [id].
  intros H. repeat case_match; by simplify_eq.
Qed.

Lemma position_after_set kp pos w :
  is_keypoint w kp = true ->
  Keypoint_getPosition (Keypoint_setPosition_ kp (Some pos) true w) kp = Some pos.
Proof.
  intros Hk. unfold Keypoint_setPosition_, upd_shape, is_keypoint in *.
  rewrite Keypoint_getPosition_look.
  unfold look in Hk. destruct (ent w kp) as [x|] eqn:Hx; [|done]. simpl in Hk.
  assert (ent (upd kp (set_position (Some pos)) w) kp = Some (set_position (Some pos) x)) as Hx'
    by (by rewrite ent_upd, decide_True, Hx).
  erewrite look_upd_eq by done. unfold position_of, set_position; simpl.
  by destruct (e_kind x).
Qed.

Lemma buildKeypoint_existing d name pos w kp :
  sget name (keypointsDict w d) = Some kp ->
  exists w', buildKeypoint d name pos w = Ret true w'
    /\ frame (at_ kp (rebuilt name)) w w'
    /\ (is_keypoint w kp = true -> Keypoint_getPosition w' kp = Some pos).
Proof.
  intros Hkp. unfold buildKeypoint, bind at 1, gets. cbv beta delta [id]. rewrite Hkp.
  set (w1 := Keypoint_setPosition_ kp (Some pos) true w).
  assert (frame (at_ kp position) w w1) as F1 by apply frame_Keypoint_setPosition_.
  assert (sget name (keypointsDict w1 d) = Some kp) as Hkp1.
  { destruct (frame_registers _ _ _ d F1) as [-> _]; try done. simpl. by case_decide. }
  unfold bind, modify, ret, gets. cbv beta delta [id]. fold w1. rewrite Hkp1.
  unfold when, rebuilt. destruct (is_detail_name name).
  - unfold bind, modify. eexists. split; [reflexivity|]. split.
    + eapply frame_trans.
      { eapply frame_mono; [|exact F1]. scope_le_solve. }
      frames.
    + intros Hk. pose proof (position_after_set kp pos w Hk) as Hpos. fold w1 in Hpos.
      assert (frame (at_ kp (mkFp false false false true true true false)) w1
                (setFillColor kp (Some "gray")
                   (setStrokeColor kp (Some "gray") (setRadius kp 1 true w1)))) as F2 by frames.
      pose proof (frame_erase _ _ _ kp F2 eq_refl) as E.
      apply erase_position in E; [|simpl; by case_decide].
      by rewrite !Keypoint_getPosition_look, E in *.
  - eexists. split; [reflexivity|]. split; [done|]. intros Hk. by apply position_after_set.
Qed.

Lemma rebuilding_cons_head dict name names kp :
  sget name dict = Some kp -> scope_le (at_ kp (rebuilt name)) (rebuilding dict (name :: names)).
Proof.
  intros Hkp. unfold scope_le, at_, rebuilding; simpl. split_and!; try done.
  intros i. case_decide as Hi; [subst|done]. rewrite decide_True by done. apply fp_leb_join_l.
Qed.

Lemma rebuilding_cons_tail dict name names :
  scope_le (rebuilding dict names) (rebuilding dict (name :: names)).
Proof.
  unfold scope_le, rebuilding; simpl. split_and!; try done.
  intros i. case_decide; [apply fp_leb_join_r | apply fp_leb_refl].
Qed.

Lemma buildKeypoints_existing d names : forall positions acc w,
  length positions = length names ->
  (forall name, name ∈ names -> is_Some (sget name (keypointsDict w d))) ->
  exists w', buildKeypoints d names positions acc w = Ret (acc || bool_decide (names <> [])) w'
    /\ frame (rebuilding (keypointsDict w d) names) w w'
    /\ forall i name kp pos,
         names !! i = Some name -> positions !! i = Some pos ->
         sget name (keypointsDict w d) = Some kp -> is_keypoint w kp = true ->
         (forall j name', i < j -> names !! j = Some name' ->
                          sget name' (keypointsDict w d) <> Some kp) ->
         Keypoint_getPosition w' kp = Some pos.
Proof.
  induction names as [|name names IH]; intros positions acc w Hlen Hin.
  - destruct positions; [|done]. exists w. simpl. rewrite orb_false_r.
    split; [done|]. split; [apply frame_refl|]. intros i ? ? ? Hi. done.
  - destruct positions as [|pos positions]; [done|]. simpl in Hlen.
    destruct (Hin name) as [kp Hkp]; [by left|].
    destruct (buildKeypoint_existing d name pos w kp Hkp) as (w1 & Hrun1 & F1 & Hpos1).
    assert (keypointsDict w1 d = keypointsDict w d) as Hdict.
    { destruct (frame_registers _ _ _ d F1) as [-> _]; try done. simpl.
      case_decide; [|done]. unfold rebuilt. by destruct (is_detail_name name). }
    destruct (IH positions (acc || true) w1) as (w' & Hrun & F & Hpos).
    { lia. }
    { intros n Hn. rewrite Hdict. apply Hin. by right. }
    exists w'. cbn [buildKeypoints]. unfold bind at 1. rewrite Hrun1, Hrun.
    rewrite Hdict in *. split; [|split].
    + f_equal. rewrite orb_true_r. simpl. by destruct acc.
    + eapply frame_trans.
      * eapply frame_mono; [|exact F1]. by apply rebuilding_cons_head.
      * eapply frame_mono; [|exact F]. apply rebuilding_cons_tail.
    + intros i n k p Hi Hp Hk Hkind Hlast. destruct i as [|i]; simpl in *.
      * simplify_eq. specialize (Hpos1 Hkind).
        pose proof (frame_erase _ _ _ kp F eq_refl) as E. simpl in E.
        rewrite rebuild_on_untouched in E.
        -- apply (erase_position nothing) in E; [|done].
           by rewrite !Keypoint_getPosition_look, E in *.
        -- intros n' [j Hj]%list_elem_of_lookup. apply (Hlast (S j)); [lia|done].
      * apply (Hpos i n k p); try done.
        -- by apply (frame_is_keypoint _ _ _ _ F1).
        -- intros j n' Hj Hn'. apply (Hlast (S j)); [lia|done].
Qed.

Lemma buildStructure_lengths d cx cy width height personData w str w' :
  buildStructure d cx cy width height personData w = Ret str w' ->
  length (str_positions str) = length (str_names str).
Proof.
  unfold buildStructure, bind, gets, ret, throw. cbv beta delta [id].
  intros H. repeat case_match; simplify_eq; simpl; apply length_imap.
Qed.




(** ** C1: uuids across undo and redo *)

Lemma frame_replaying S P w w' : frame S w w' -> replaying P w -> replaying P w'.
Proof.
  intros (_ & _ & _ & K & _) [Hu Hs]. destruct K as (_ & _ & _ & _ & _ & _ & _ & G).
  unfold replaying. rewrite (G Hu). done.
Qed.

Ltac carry :=
  repeat match goal with
         | H : frame _ ?a ?b, R : replaying ?n ?a |- _ =>
           lazymatch goal with
           | _ : replaying n b |- _ => fail
           | _ => pose proof (frame_replaying _ n a b H R)
           end
         end.

Lemma reborn_historic u P : P u -> scope_le (reborn u) (historic P).
Proof.
  intros Hu. unfold scope_le, reborn, historic; simpl. split_and!; try done.
  intros i u' ->. done.
Qed.

Lemma frame_restoreLayer P state w :
  replaying P w -> frame (historic P) w (final (restoreLayer state w)).
Proof.
  intros Hr. unfold restoreLayer, historic. frames.
  carry. eapply frame_mono; [|apply frame_restoreDrawable]. apply reborn_historic.
  match goal with R : replaying P ?w1, H : nget _ (rm_snapshot (w_rm ?w1)) = Some _ |- _ =>
    exact (proj2 R _ _ H) end.
Qed.

Lemma frame_undoChange P change w :
  replaying P w -> (forall state, recorded change = Some state -> P (st_uuid state)) ->
  frame (historic P) w (final (undoChange change w)).
Proof.
  intros Hr Hrec. destruct change; simpl in *.
  - eapply frame_mono; [|apply frame_removeRecorded]. scope_le_solve.
  - eapply frame_mono; [|apply frame_restoreRecorded]. by apply reborn_historic, Hrec.
  - unfold historic. frames.
  - eapply frame_mono; [|apply frame_deleteRecordedLayer]. scope_le_solve.
  - by apply frame_restoreLayer.
Qed.

Lemma frame_redoChange P change w :
  replaying P w -> (forall state, recorded change = Some state -> P (st_uuid state)) ->
  frame (historic P) w (final (redoChange change w)).
Proof.
  intros Hr Hrec. destruct change; simpl in *.
  - eapply frame_mono; [|apply frame_restoreRecorded]. by apply reborn_historic, Hrec.
  - eapply frame_mono; [|apply frame_removeRecorded]. scope_le_solve.
  - unfold historic. frames.
  - by apply frame_restoreLayer.
  - eapply frame_mono; [|apply frame_deleteRecordedLayer]. scope_le_solve.
Qed.

Lemma frame_historic P w w' d :
  frame (historic P) w w' -> is_drawable w' d = true ->
  (d < length (w_ents w) /\ is_drawable w d = true /\ e_uuid (look w' d) = e_uuid (look w d))
  \/ (length (w_ents w) <= d /\ P (e_uuid (look w' d))).
Proof.
  intros (_ & E & N & _) Hd. destruct (decide (d < length (w_ents w))) as [Hlt|Hge].
  - left. specialize (E d Hlt). destruct (erase_class _ _ _ E) as (_ & -> & _).
    by rewrite <- (erase_is_drawable _ _ _ _ E).
  - right. destruct (N d) as [_ Hb]; [lia|]. split; [lia|]. by apply Hb.
Qed.

Lemma initializeSnapshot_ents w : w_ents (initializeSnapshot w) = w_ents w.
Proof.
  unfold initializeSnapshot.
  match goal with |- w_ents (foldl ?f ?w0 ?l) = _ =>
    apply (foldl_invariant (fun w' => w_ents w' = w_ents w) f l w0) end; [done|].
  intros w' p Hw'. by destruct (alloc_ls _ w') eqn:Ha; unfold alloc_ls in Ha; simplify_eq.
Qed.

Lemma vis_historic P : scope_le vis (historic P).
Proof. scope_le_solve. Qed.

Lemma nget_historical w transaction k state :
  nget k (rm_snapshot (w_rm w)) = Some state -> st_uuid state ∈ historical w transaction.
Proof.
  intros H. unfold historical. apply elem_of_app. right.
  induction (rm_snapshot (w_rm w)) as [|[k' v] l IH]; simpl in *; [done|].
  destruct (k =? k'); [simplify_eq; by left | right; by apply IH].
Qed.

Lemma recorded_historical w transaction change state :
  change ∈ transaction -> recorded change = Some state ->
  st_uuid state ∈ historical w (Some transaction).
Proof.
  intros Hin Hr. unfold historical. apply elem_of_app. left. simpl.
  apply list_elem_of_omap. exists change. by rewrite Hr.
Qed.

(** What replaying the changes of a transaction leaves. *)
Lemma replay_restores P (step : Change -> M unit) transaction w0 w d :
  w_ents w = w_ents w0 ->
  (forall change w1, replaying P w1 ->
     (forall state, recorded change = Some state -> P (st_uuid state)) ->
     frame (historic P) w1 (final (step change w1))) ->
  replaying P w ->
  (forall change state, change ∈ transaction -> recorded change = Some state ->
                        P (st_uuid state)) ->
  let w' := final ((forEach transaction step ;;
                    modify (fun w => updateVisibility (rm_scene (w_rm w)) w) ;;
                    modify initializeSnapshot ;;
                    modify (upd_rm (set_rm_isUndoing false))) w) in
  is_drawable w' d = true ->
  (d < length (w_ents w0) /\ is_drawable w0 d = true
   /\ e_uuid (look w' d) = e_uuid (look w0 d))
  \/ (length (w_ents w0) <= d /\ P (e_uuid (look w' d))).
Proof.
  intros He Hstep Hr Hrec.
  assert (forall l w1, (forall change, change ∈ l -> change ∈ transaction) ->
            frame (historic P) w w1 -> frame (historic P) w (final (forEach l step w1))) as Hloop.
  { induction l as [|change l IH]; intros w1 Hin F1; simpl; [done|].
    unfold bind. pose proof (Hstep change w1) as F2.
    destruct (step change w1) as [[] w2|msg w2]; simpl in *.
    - apply IH; [intros c Hc; apply Hin; by right|].
      eapply frame_trans; [exact F1|]. apply F2; [by eapply frame_replaying|].
      intros state. apply Hrec, Hin. by left.
    - eapply frame_trans; [exact F1|]. apply F2; [by eapply frame_replaying|].
      intros state. apply Hrec, Hin. by left. }
  specialize (Hloop transaction w (fun _ H => H) (frame_refl _ _)).
  assert (exists w2, frame (historic P) w w2
                     /\ w_ents (final ((forEach transaction step ;;
                    modify (fun w => updateVisibility (rm_scene (w_rm w)) w) ;;
                    modify initializeSnapshot ;;
                    modify (upd_rm (set_rm_isUndoing false))) w)) = w_ents w2) as (w2 & F & E).
  { unfold bind at 1. destruct (forEach transaction step w) as [[] w1|msg w1]; simpl in *.
    - exists (updateVisibility (rm_scene (w_rm w1)) w1). split.
      + eapply frame_trans; [exact Hloop|].
        eapply frame_mono; [apply vis_historic | apply frame_updateVisibility].
      + unfold bind, modify. simpl. apply initializeSnapshot_ents.
    - by exists w1. }
  intros w' Hd. subst w'. revert Hd. unfold is_drawable, look, ent. rewrite E, <- He.
  apply (frame_historic P w w2 d F).
Qed.

(** A Drawable of the heap. *)
Lemma frame_alive S w w' d :
  frame S w w' -> d < length (w_ents w) -> is_drawable w d = true ->
  d < length (w_ents w') /\ is_drawable w' d = true.
Proof.
  intros (L & E & _) Hd Ha. split; [lia|]. by rewrite (erase_is_drawable _ _ _ _ (E d Hd)).
Qed.

Lemma new_Drawable_alive cls name cx cy width height parent format withLock imagePath w :
  exists w', new_Drawable cls name cx cy width height parent format withLock imagePath w
             = Ret (length (w_ents w)) w'
             /\ length (w_ents w) < length (w_ents w')
             /\ is_drawable w' (length (w_ents w)) = true.
Proof.
  unfold new_Drawable, new_entity.
  set (kind := KDrawable _).
  assert (forall uuid lock w0, length (w_ents w0) = length (w_ents w) ->
            let x := mkEntity name uuid parent true (Some true) [] None None (Some 4%float)
                              None None None false lock None kind in
            exists w1, alloc x w0 = Ret (length (w_ents w)) w1
                       /\ length (w_ents w) < length (w_ents w1)
                       /\ is_drawable w1 (length (w_ents w)) = true) as Halloc.
  { intros uuid lock w0 Hl x. unfold alloc. eexists. rewrite Hl. split; [reflexivity|].
    simpl. rewrite length_app. simpl. split; [lia|].
    unfold is_drawable, look, ent. simpl. rewrite lookup_app_r by lia.
    by rewrite Hl, Nat.sub_diag. }
  assert (forall w1 (m : M eid),
            length (w_ents w) < length (w_ents w1) ->
            is_drawable w1 (length (w_ents w)) = true ->
            (exists w2, m w1 = Ret (length (w_ents w)) w2) ->
            frame build w1 (final (m w1)) ->
            exists w2, m w1 = Ret (length (w_ents w)) w2
                       /\ length (w_ents w) < length (w_ents w2)
                       /\ is_drawable w2 (length (w_ents w)) = true) as Htail.
  { intros w1 m Hl Hd [w2 Hret] F. exists w2. split; [done|]. rewrite Hret in F.
    by apply (frame_alive _ _ _ _ F). }
  unfold bind at 1. unfold bind at 1.
  destruct parent as [p|]; [destruct withLock|].
  - unfold gets at 1. unfold bind at 1, randomUUID at 1. unfold bind at 1.
    match goal with |- context [alloc (mkEntity _ ?u _ _ _ _ _ _ _ _ _ _ _ ?l _ _) ?w0] =>
      destruct (Halloc u l w0 eq_refl) as (w1 & -> & Hl & Hd) end.
    cbv beta iota.
    match goal with |- exists w', ?t = _ /\ _ =>
      lazymatch eval pattern w1 in t with ?m _ => apply (Htail w1 m) end end;
      [done|done|unfold bind, modify, ret; eexists; reflexivity|frames].
    all: match goal with H : _ = Ret _ _ |- _ =>
           unfold bind, modify, ret in H; simplify_eq end;
         first [ solve [frames] | eapply frame_trans; [apply frame_addChild | solve [frames]] ].
  - unfold alloc_cell at 1. unfold bind at 1, randomUUID at 1. unfold bind at 1.
    match goal with |- context [alloc (mkEntity _ ?u _ _ _ _ _ _ _ _ _ _ _ ?l _ _) ?w0] =>
      destruct (Halloc u l w0 eq_refl) as (w1 & -> & Hl & Hd) end.
    cbv beta iota.
    match goal with |- exists w', ?t = _ /\ _ =>
      lazymatch eval pattern w1 in t with ?m _ => apply (Htail w1 m) end end;
      [done|done|unfold bind, modify, ret; eexists; reflexivity|frames].
    all: match goal with H : _ = Ret _ _ |- _ =>
           unfold bind, modify, ret in H; simplify_eq end;
         first [ solve [frames] | eapply frame_trans; [apply frame_addChild | solve [frames]] ].
  - unfold alloc_cell at 1. unfold bind at 1, randomUUID at 1. unfold bind at 1.
    match goal with |- context [alloc (mkEntity _ ?u _ _ _ _ _ _ _ _ _ _ _ ?l _ _) ?w0] =>
      destruct (Halloc u l w0 eq_refl) as (w1 & -> & Hl & Hd) end.
    cbv beta iota.
    match goal with |- exists w', ?t = _ /\ _ =>
      lazymatch eval pattern w1 in t with ?m _ => apply (Htail w1 m) end end;
      [done|done|unfold bind, modify, ret; eexists; reflexivity|frames].
    all: match goal with H : _ = Ret _ _ |- _ =>
           unfold bind, modify, ret in H; simplify_eq end;
         first [ solve [frames] | eapply frame_trans; [apply frame_addChild | solve [frames]] ].
Qed.

Lemma bind_returns {A B} (m : M A) (k : A -> M B) w b w' :
  (x <- m ;; k x) w = Ret b w' -> exists a w1, m w = Ret a w1 /\ k a w1 = Ret b w'.
Proof. unfold bind. destruct (m w) as [a w1|msg w1]; [by exists a, w1 | done]. Qed.

Lemma alive_after {A} S (m : M A) a w w' d :
  alive w d -> m w = Ret a w' -> frame S w (final (m w)) -> alive w' d.
Proof. intros [Hl Hd] Hret F. rewrite Hret in F. by apply (frame_alive _ _ _ _ F). Qed.

Lemma new_Drawable_returns_alive cls name cx cy width height parent format withLock imagePath
    w d w' :
  new_Drawable cls name cx cy width height parent format withLock imagePath w = Ret d w' ->
  d = length (w_ents w) /\ alive w' d.
Proof.
  intros H.
  destruct (new_Drawable_alive cls name cx cy width height parent format withLock imagePath w)
    as (w2 & H2 & Hl & Hd).
  rewrite H2 in H. by simplify_eq.
Qed.

Ltac returned H :=
  repeat match type of H with
         | (_ <- _ ;; _) _ = Ret _ _ =>
           let H1 := fresh in
           apply bind_returns in H as (? & ? & H1 & H); try clear H1
         end;
  run_inv H.

Lemma Drawable_create_alive cls name cx cy width height parent format withLock personData
    w d w' :
  Drawable_create cls name cx cy width height parent format withLock personData w = Ret d w' ->
  d = length (w_ents w) /\ alive w' d.
Proof.
  unfold Drawable_create. intros (obj & w1 & H1 & H2)%bind_returns.
  apply new_Drawable_returns_alive in H1 as [-> Ha].
  assert (d = length (w_ents w)) as -> by (pose proof H2 as H; by returned H).
  split; [done|]. eapply (alive_after build); [exact Ha | exact H2 | frames].
Qed.

Lemma DistortableImage_create_alive name cx cy width height imagePath parent w d w' :
  DistortableImage_create name cx cy width height imagePath parent w = Ret d w' ->
  d = length (w_ents w) /\ alive w' d.
Proof.
  unfold DistortableImage_create. intros (obj & w1 & H1 & H2)%bind_returns.
  apply new_Drawable_returns_alive in H1 as [-> Ha].
  assert (d = length (w_ents w)) as -> by (pose proof H2 as H; by returned H).
  split; [done|]. eapply (alive_after build); [exact Ha | exact H2 | frames].
Qed.

Lemma addPerson_alive scene bbox personData strokeColor fillColor format w d w' :
  addPerson scene bbox personData strokeColor fillColor format w = Ret d w' ->
  d = length (w_ents w) /\ alive w' d.
Proof.
  unfold addPerson. intros (w0 & w1 & H0 & H)%bind_returns. run_inv H0.
  apply bind_returns in H as ([] & w2 & H1 & H). run_inv H1.
  apply bind_returns in H as (obj & w3 & H1 & H2).
  apply Drawable_create_alive in H1 as [-> Ha].
  assert (d = length (w_ents w1)) as -> by (pose proof H2 as H; by returned H).
  split; [done|]. eapply (alive_after build); [exact Ha | exact H2 | frames].
Qed.

Lemma addImage_alive scene bbox imagePath strokeColor fillColor w d w' :
  addImage scene bbox imagePath strokeColor fillColor w = Ret d w' ->
  d = length (w_ents w) /\ alive w' d.
Proof.
  unfold addImage. intros (w0 & w1 & H0 & H)%bind_returns. run_inv H0.
  apply bind_returns in H as ([] & w2 & H1 & H). run_inv H1.
  apply bind_returns in H as (obj & w3 & H1 & H2).
  apply DistortableImage_create_alive in H1 as [-> Ha].
  assert (d = length (w_ents w1)) as -> by (pose proof H2 as H; by returned H).
  split; [done|]. eapply (alive_after build); [exact Ha | exact H2 | frames].
Qed.

Lemma restoreDrawable_alive state w :
  st_type state <> CDrawable ->
  alive (final (restoreDrawable state w)) (length (w_ents w)).
Proof.
  intros Ht. unfold restoreDrawable, bind at 1, gets. cbv beta delta [id].
  assert (forall w1 u name (m : M unit),
            alive w1 (length (w_ents w)) ->
            (forall w2, frame build w2 (final (m w2))) ->
            alive (final (m (upd (length (w_ents w)) (set_e_name name)
                                 (upd (length (w_ents w)) (set_e_uuid u) w1))))
                  (length (w_ents w))) as Htail.
  { intros w1 u name m [Hl Hd] F.
    match goal with |- alive (final (m ?w2)) _ => specialize (F w2) end.
    apply (frame_alive _ _ _ _ F); [by rewrite !length_upd|].
    unfold is_drawable. by rewrite !look_upd_field. }
  destruct (st_type state); [done| |].
  - unfold bind at 1. unfold bind at 1.
    match goal with |- context [addPerson ?a ?b ?c ?d ?e ?f w] =>
      destruct (addPerson_returns a b c d e f w) as [w1 Hret] end.
    rewrite Hret. apply addPerson_alive in Hret as [_ Ha].
    unfold ret at 1. cbv beta iota.
    unfold bind at 1, modify at 1. unfold bind at 1, modify at 1. cbv beta iota.
    match goal with |- alive (final (?t (upd _ _ (upd _ _ w1)))) _ =>
      apply (Htail w1 _ _ t Ha) end.
    intros w2. frames.
  - unfold bind at 1. unfold bind at 1.
    match goal with |- context [addImage ?a ?b ?c ?d ?e w] =>
      destruct (addImage_returns a b c d e w) as [w1 Hret] end.
    rewrite Hret. apply addImage_alive in Hret as [_ Ha].
    unfold ret at 1. cbv beta iota.
    unfold bind at 1, modify at 1. unfold bind at 1, modify at 1. cbv beta iota.
    match goal with |- alive (final (?t (upd _ _ (upd _ _ w1)))) _ =>
      apply (Htail w1 _ _ t Ha) end.
    intros w2. frames.
Qed.

Lemma drawable_in_heap w d : is_drawable w d = true -> d < length (w_ents w).
Proof.
  intros Hd. destruct (decide (d < length (w_ents w))) as [|Hge]; [done|].
  unfold is_drawable in Hd. rewrite look_no_entity in Hd by lia. done.
Qed.

Lemma undo_runs w :
  undo w = match last (rm_history (w_rm w)) with
           | None => Ret tt w
           | Some transaction =>
             (forEach (reverse transaction) undoChange ;;
              modify (fun w => updateVisibility (rm_scene (w_rm w)) w) ;;
              modify initializeSnapshot ;;
              modify (upd_rm (set_rm_isUndoing false)))
               (upd_rm (fun r => set_rm_redoStack (rm_redoStack r ++ [transaction])
                                   (set_rm_history (removelast (rm_history r)) r))
                       (upd_rm (set_rm_isUndoing true) w))
           end.
Proof. unfold undo, bind at 1, gets. cbv beta delta [id]. by destruct (last _). Qed.

Lemma redo_runs w :
  redo w = match last (rm_redoStack (w_rm w)) with
           | None => Ret tt w
           | Some transaction =>
             (forEach transaction redoChange ;;
              modify (fun w => updateVisibility (rm_scene (w_rm w)) w) ;;
              modify initializeSnapshot ;;
              modify (upd_rm (set_rm_isUndoing false)))
               (upd_rm (fun r => set_rm_history (rm_history r ++ [transaction])
                                   (set_rm_redoStack (removelast (rm_redoStack r)) r))
                       (upd_rm (set_rm_isUndoing true) w))
           end.
Proof. unfold redo, bind at 1, gets. cbv beta delta [id]. by destruct (last _). Qed.



(** ** C4: a diff, undone and redone *)

Lemma sget_sset {V} n k (v : V) m :
  sget n (sset k v m) = if String.eqb n k then Some v else sget n m.
Proof.
  induction m as [|[k' v'] m IH]; simpl; [done|].
  destruct (String.eqb k k') eqn:Hk; simpl.
  - apply String.eqb_eq in Hk as ->. by destruct (String.eqb n k').
  - rewrite IH. destruct (String.eqb n k') eqn:Hn; [|done].
    apply String.eqb_eq in Hn as ->. by rewrite String.eqb_sym, Hk.
Qed.

Lemma sset_keys {V} k (v : V) m :
  (sset k v m).*1 = if decide (k ∈ m.*1) then m.*1 else m.*1 ++ [k].
Proof.
  induction m as [|[k' v'] m IH]; [done|]. cbn [dict_set].
  destruct (String.eqb k k') eqn:Hk; rewrite !fmap_cons; cbn [fst].
  - apply String.eqb_eq in Hk as ->. rewrite decide_True; [done|by left].
  - apply String.eqb_neq in Hk. rewrite IH.
    destruct (decide (k ∈ m.*1)) as [Hin|Hin].
    + rewrite decide_True; [done|by right].
    + rewrite decide_False; [done|]. by intros [?|?]%elem_of_cons.
Qed.

Lemma sset_NoDup {V} k (v : V) m : NoDup m.*1 -> NoDup (sset k v m).*1.
Proof.
  intros Hm. rewrite sset_keys. case_decide; [done|].
  apply NoDup_app. split; [done|]. split; [|apply NoDup_singleton].
  intros x Hx ->%list_elem_of_singleton. done.
Qed.

Lemma sget_elem {V} n (v : V) m : NoDup m.*1 -> (n, v) ∈ m -> sget n m = Some v.
Proof.
  induction m as [|[k' v'] m IH]; simpl; intros Hm Hin; [by apply elem_of_nil in Hin|].
  apply NoDup_cons in Hm as [Hk' Hm]. apply elem_of_cons in Hin as [Heq|Hin].
  - simplify_eq. by rewrite String.eqb_refl.
  - destruct (String.eqb n k') eqn:Hn; [|by apply IH].
    apply String.eqb_eq in Hn as ->. destruct Hk'.
    apply list_elem_of_fmap. by exists (k', v).
Qed.

Section CaptureChildren.
Context (w : World) (d : eid).

Let record (children : list (string * ChildState)) (child : eid) :=
  if Nat.eqb child d then children
  else sset (e_name (look w child)) (captureChild w child) children.
Let index (m : list (string * eid)) (c : eid) := sset (e_name (look w c)) c m.

Lemma index_names (P : eid -> Prop) l m :
  (forall n c, sget n m = Some c -> e_name (look w c) = n /\ P c) ->
  (forall c, c ∈ l -> P c) ->
  forall n c, sget n (foldl index m l) = Some c -> e_name (look w c) = n /\ P c.
Proof.
  revert m. induction l as [|c0 l IH]; intros m Hm Hl; simpl; [done|].
  apply IH; [|intros c Hc; apply Hl; by right].
  intros n c. unfold index. rewrite sget_sset.
  destruct (String.eqb n (e_name (look w c0))) eqn:Hn; [|by apply Hm].
  apply String.eqb_eq in Hn. intros [= <-]. split; [done|]. apply Hl. by left.
Qed.

Lemma record_agrees l children m :
  (forall c, c ∈ l -> c <> d) ->
  NoDup children.*1 ->
  (forall n cs, sget n children = Some cs ->
     exists c, sget n m = Some c /\ c <> d /\ cs = captureChild w c) ->
  NoDup (foldl record children l).*1
  /\ forall n cs, sget n (foldl record children l) = Some cs ->
       exists c, sget n (foldl index m l) = Some c /\ c <> d /\ cs = captureChild w c.
Proof.
  revert children m. induction l as [|c0 l IH]; intros children m Hl Hk Ha; simpl; [done|].
  assert (c0 <> d) as Hc0 by (apply Hl; by left).
  apply IH; [intros c Hc; apply Hl; by right| |].
  - unfold record. rewrite (proj2 (Nat.eqb_neq c0 d) Hc0). by apply sset_NoDup.
  - intros n cs. unfold record, index. rewrite (proj2 (Nat.eqb_neq c0 d) Hc0), !sget_sset.
    destruct (String.eqb n (e_name (look w c0))); [|by apply Ha].
    intros [= <-]. by exists c0.
Qed.

Lemma traverse_head : traverseChildren w d = d :: tail (traverseChildren w d).
Proof. done. Qed.

Lemma owned_below c :
  owned w d = true -> c ∈ tail (traverseChildren w d) -> c < length (w_ents w) /\ c <> d.
Proof.
  unfold owned. intros [_ Hall]%andb_true_iff Hc.
  rewrite forallb_forall in Hall. apply list_elem_of_In, Hall in Hc.
  apply andb_true_iff in Hc as [Hlt Hne]. split; [by apply Nat.ltb_lt|].
  apply negb_true_iff in Hne. by apply Nat.eqb_neq.
Qed.

(** The captured children are those of [childrenMap], each with its own
    captured state. *)
Lemma captured_children :
  owned w d = true ->
  NoDup (st_children (captureDrawableState w d)).*1
  /\ forall n cs, sget n (st_children (captureDrawableState w d)) = Some cs ->
       exists c, sget n (childrenMap w d) = Some c /\ c <> d /\ c < length (w_ents w)
                 /\ cs = captureChild w c.
Proof.
  intros Ho. unfold captureDrawableState, childrenMap. cbn [st_children].
  rewrite traverse_head. cbn [foldl]. rewrite Nat.eqb_refl.
  destruct (record_agrees (tail (traverseChildren w d)) []
              (sset (e_name (look w d)) d [])) as [Hk Ha].
  - intros c Hc. by apply (owned_below c Ho).
  - constructor.
  - done.
  - split; [exact Hk|]. intros n cs Hn. destruct (Ha n cs Hn) as (c & Hc & Hne & ->).
    exists c. split; [done|]. split; [done|]. split; [|done].
    apply (index_names (fun c => c = d \/ c ∈ tail (traverseChildren w d))) in Hc
      as [_ [->|Hin]]; [done|by apply (owned_below c Ho)| |by right].
    simpl. intros n' c'. destruct (String.eqb n' (e_name (look w d))) eqn:Hn'; [|done].
    apply String.eqb_eq in Hn'. intros [= <-]. split; [done|by left].
Qed.

Lemma childrenMap_names n c :
  sget n (childrenMap w d) = Some c -> e_name (look w c) = n.
Proof.
  unfold childrenMap. intros H.
  by apply (index_names (fun _ => True)) in H as [? _].
Qed.
End CaptureChildren.

(** What a diff records. *)
Lemma diffChild_to oldChild newChild cd :
  diffChild oldChild newChild = Some cd ->
  (forall p, cd_position cd = Some p -> ft_to p = cs_position newChild)
  /\ (forall v, cd_visible cd = Some v -> ft_to v = cs_visible newChild)
  /\ (forall c, cd_strokeColor cd = Some c -> ft_to c = cs_strokeColor newChild)
  /\ (forall c, cd_fillColor cd = Some c -> ft_to c = cs_fillColor newChild).
Proof.
  unfold diffChild. intros H.
  destruct (json_pos_eq _ _), (obool_eqb _ _), (ostr_eqb (cs_strokeColor _) _),
    (ostr_eqb (cs_fillColor _) _); simplify_eq; simpl;
    (split_and!; intros ? [= <-]; done).
Qed.

Lemma diffAttributes_to o n :
  let a := diffAttributes o n in
  (forall v, da_visible a = Some v -> ft_to v = at_visible n)
  /\ (forall c, da_fillColor a = Some c -> ft_to c = at_fillColor n)
  /\ (forall c, da_strokeColor a = Some c -> ft_to c = at_strokeColor n).
Proof.
  unfold diffAttributes; simpl.
  split_and!; intros x; (destruct (_ : bool); [done|]); by intros [= <-].
Qed.

Lemma diffStates_parts oldState newState diff :
  diffStates oldState newState = Some diff ->
  df_attributes diff = diffAttributes (st_attributes oldState) (st_attributes newState)
  /\ df_children diff = diffChildren (st_children oldState) (st_children newState).
Proof. unfold diffStates. intros H. case_match; by simplify_eq. Qed.

Lemma diffChildren_entry oldChildren newChildren n cd :
  (n, cd) ∈ diffChildren oldChildren newChildren ->
  exists oldChild newChild,
    (n, newChild) ∈ newChildren /\ diffChild oldChild newChild = Some cd.
Proof.
  unfold diffChildren. intros ([n' newChild] & Hin & H)%list_elem_of_omap.
  destruct (sget n' oldChildren) as [oldChild|]; [|done]. simpl in H.
  destruct (diffChild oldChild newChild) as [cd'|] eqn:Hd; [|done]. simpl in H.
  simplify_eq. by exists oldChild, newChild.
Qed.

Lemma diffChildren_NoDup oldChildren newChildren :
  NoDup newChildren.*1 -> NoDup (diffChildren oldChildren newChildren).*1.
Proof.
  induction newChildren as [|[n cs] l IH]; [constructor|].
  rewrite fmap_cons. intros [Hn Hl]%NoDup_cons. specialize (IH Hl).
  unfold diffChildren. cbn [omap list_omap]. fold (diffChildren oldChildren l).
  destruct (sget n oldChildren) as [oldChild|]; [|done]. simpl.
  destruct (diffChild oldChild cs) as [cd|]; [|done]. simpl.
  apply NoDup_cons. split; [|done].
  intros ([n' cd'] & -> & Hin)%list_elem_of_fmap.
  apply diffChildren_entry in Hin as (_ & newChild & Hin & _).
  apply Hn. apply list_elem_of_fmap. by exists (n', newChild).
Qed.

(** *** What stays *)

Lemma frame_kept S w w' : frame S w w' -> heap S = false -> kept (on S) w w'.
Proof.
  intros F Hh. split; [by apply (frame_length S)|]. intros i. by apply frame_erase.
Qed.

Lemma kept_refl f w : kept f w w.
Proof. by split. Qed.

Lemma kept_trans f w w1 w2 : kept f w w1 -> kept f w1 w2 -> kept f w w2.
Proof. intros [L1 E1] [L2 E2]. split; [congruence|]. intros i. by rewrite E2. Qed.

Lemma kept_mono f f' w w' :
  (forall i, fp_leb (f i) (f' i) = true) -> kept f w w' -> kept f' w w'.
Proof. intros Hle [L E]. split; [done|]. intros i. by apply (erase_mono (f i)). Qed.

Lemma kept_ents f w w' : w_ents w' = w_ents w -> kept f w w'.
Proof. intros He. split; [by rewrite He|]. intros i. unfold look, ent. by rewrite He. Qed.

Lemma kept_is_keypoint f w w' i : kept f w w' -> is_keypoint w' i = is_keypoint w i.
Proof. intros [_ E]. by apply (erase_is_keypoint (f i)). Qed.

Lemma kept_is_drawable f w w' i : kept f w w' -> is_drawable w' i = is_drawable w i.
Proof. intros [_ E]. by apply (erase_is_drawable (f i)). Qed.

Lemma traverse_fuel_ext w w' n e :
  (forall i, e_children (look w' i) = e_children (look w i)) ->
  traverse_fuel n w' e = traverse_fuel n w e.
Proof.
  intros Hc. revert e. induction n as [|n IH]; intros e; simpl; [done|].
  rewrite Hc. f_equal. induction (e_children (look w e)) as [|c l IHl]; simpl; [done|].
  by rewrite IH, IHl.
Qed.

Lemma foldl_ext_all {A B} (f g : B -> A -> B) l b :
  (forall b a, f b a = g b a) -> foldl f b l = foldl g b l.
Proof. intros H. revert b. induction l as [|a l IH]; intros b; simpl; [done|]. by rewrite H. Qed.

(** Without [fp_build], the entities below a Drawable and their names stay. *)
Lemma kept_childrenMap f w w' d :
  (forall i, fp_build (f i) = false) -> kept f w w' ->
  traverseChildren w' d = traverseChildren w d /\ childrenMap w' d = childrenMap w d.
Proof.
  intros Hb [L E].
  assert (traverseChildren w' d = traverseChildren w d) as Ht.
  { unfold traverseChildren, fuel. rewrite L. apply traverse_fuel_ext.
    intros i. by destruct (erase_structure _ _ _ (Hb i) (E i)) as [-> _]. }
  split; [done|]. unfold childrenMap. rewrite Ht. apply foldl_ext_all.
  intros m c. by destruct (erase_class _ _ _ (E c)) as [-> _].
Qed.

Lemma edited_no_build i : fp_build ((fun _ : eid => edited) i) = false.
Proof. done. Qed.

Lemma touching_no_build children i : fp_build (touching children i) = false.
Proof. unfold touching. by case_decide. Qed.

Lemma touching_edited children i : fp_leb (touching children i) edited = true.
Proof. unfold touching. by case_decide. Qed.

Lemma flags_touching children i : fp_leb flags (touching children i) = true.
Proof. unfold touching. by case_decide. Qed.

(** *** What one setter writes *)

Lemma in_heap w e : e < length (w_ents w) -> exists x, ent w e = Some x.
Proof. intros He. by apply lookup_lt_is_Some_2. Qed.

Lemma setVisible_kept e v w : kept (on (at_ e visibility)) w (setVisible e v w).
Proof. by apply frame_kept; [apply frame_setVisible|]. Qed.

Lemma setVisible_value e v w :
  e < length (w_ents w) -> e_visible (look (setVisible e v w) e) = v.
Proof.
  intros [x Hx]%in_heap. unfold setVisible.
  pose proof (frame_kept _ _ _ (frame_updateVisibility e (upd e (set_e_visible v) w)) eq_refl)
    as [_ E].
  rewrite (erase_visible (on vis e) _ _ eq_refl (E e)). by rewrite (look_upd_eq _ _ _ _ Hx).
Qed.

Lemma setFillColor_kept e c w : kept (on (at_ e fill)) w (setFillColor e c w).
Proof. by apply frame_kept; [apply frame_setFillColor|]. Qed.

Lemma setFillColor_value e c w :
  e < length (w_ents w) -> is_keypoint w e = false ->
  e_fillColor (look (setFillColor e (Some c) w) e) = Some c.
Proof.
  intros [x Hx]%in_heap Hk. unfold setFillColor.
  set (w1 := upd e (set_e_fillColor (Some c)) w).
  assert (setFillColor_fuel (fuel w) e (Some c) w = setFillColor_fuel (fuel w) e None w1) as ->
    by (by destruct (fuel w)).
  pose proof (frame_kept _ _ _ (frame_setFillColor_fuel (fuel w) e w1) eq_refl) as [_ E].
  assert (look w1 e = set_e_fillColor (Some c) x) as Hw1 by (by apply look_upd_eq).
  rewrite (erase_fill (on vis e) _ (look w1 e) eq_refl); [by rewrite Hw1| |exact (E e)].
  change (is_keypoint (setFillColor_fuel (fuel w) e None w1) e = false).
  rewrite (erase_is_keypoint _ _ _ _ (E e)). unfold is_keypoint, w1 in *.
  by rewrite look_upd_field.
Qed.

Lemma setStrokeColor_kept e c w : kept (on (at_ e stroke)) w (setStrokeColor e c w).
Proof. by apply frame_kept; [apply frame_setStrokeColor|]. Qed.

Lemma setStrokeColor_value e c w :
  e < length (w_ents w) -> e_strokeColor (look (setStrokeColor e (Some c) w) e) = Some c.
Proof.
  intros [x Hx]%in_heap. unfold setStrokeColor.
  set (w1 := upd e (set_e_strokeColor (Some c)) w).
  assert (setStrokeColor_fuel (fuel w) e (Some c) w = setStrokeColor_fuel (fuel w) e None w1)
    as -> by (by destruct (fuel w)).
  pose proof (frame_kept _ _ _ (frame_setStrokeColor_fuel (fuel w) e w1) eq_refl) as [_ E].
  rewrite (erase_stroke (on vis e) _ _ eq_refl (E e)). unfold w1. by rewrite (look_upd_eq _ _ _ _ Hx).
Qed.

(** *** What stays of one entity *)

Lemma kept_position f w w' i :
  kept f w w' -> fp_position (f i) = false ->
  Keypoint_getPosition w' i = Keypoint_getPosition w i.
Proof.
  intros [_ E] Hb. rewrite !Keypoint_getPosition_look. by apply (erase_position (f i)).
Qed.

Lemma kept_visible f w w' i :
  kept f w w' -> fp_visible (f i) = false -> e_visible (look w' i) = e_visible (look w i).
Proof. intros [_ E] Hb. by apply (erase_visible (f i)). Qed.

Lemma kept_stroke f w w' i :
  kept f w w' -> fp_stroke (f i) = false ->
  e_strokeColor (look w' i) = e_strokeColor (look w i).
Proof. intros [_ E] Hb. by apply (erase_stroke (f i)). Qed.

Lemma kept_fill f w w' i :
  kept f w w' -> fp_fill (f i) = false -> is_keypoint w i = false ->
  e_fillColor (look w' i) = e_fillColor (look w i).
Proof.
  intros K Hb Hk. pose proof (kept_is_keypoint _ _ _ i K) as Hk'. destruct K as [_ E].
  apply (erase_fill (f i)); [done| |done]. change (is_keypoint w' i = false). congruence.
Qed.

Lemma kept_alpha f w w' i :
  kept f w w' -> fp_build (f i) = false -> e_alpha (look w' i) = e_alpha (look w i).
Proof. intros [_ E] Hb. by destruct (erase_structure _ _ _ Hb (E i)) as (_ & _ & _ & -> & _). Qed.

Lemma returned_kept {A} S (m : M A) a w w' :
  frame S w (final (m w)) -> heap S = false -> m w = Ret a w' -> kept (on S) w w'.
Proof. intros F Hh Hret. rewrite Hret in F. by apply frame_kept. Qed.

(** *** Replaying one child entry *)

Lemma Keypoint_setPosition_value k pos w w' :
  is_keypoint w k = true -> Keypoint_setPosition k pos true w = Ret tt w' ->
  Keypoint_getPosition w' k = pos.
Proof.
  intros Hk. unfold Keypoint_setPosition. intros ([] & w1 & H1 & H)%bind_returns. run_inv H1.
  apply bind_returns in H as ([] & w2 & H2 & H). run_inv H2. unfold when in H.
  pose proof (returned_kept _ _ _ _ _ (frame_Keypoint_updateConnectedBones k _) eq_refl H)
    as K.
  rewrite (kept_position _ _ _ k K) by done.
  pose proof (frame_kept _ _ _ (frame_changeState k w) eq_refl) as K1.
  pose proof (kept_is_keypoint _ _ _ k K1) as Hk1. rewrite Hk in Hk1.
  set (w1 := changeState k true w) in *. clearbody w1.
  unfold Keypoint_setPosition_, upd_shape, is_keypoint in *.
  rewrite Keypoint_getPosition_look.
  unfold look in Hk1. destruct (ent w1 k) as [x|] eqn:Hx; [|done]. simpl in Hk1.
  assert (ent (upd k (set_position pos) w1) k = Some (set_position pos x)) as Hx'
    by (by rewrite ent_upd, decide_True, Hx).
  destruct pos; erewrite look_upd_eq by done; unfold position_of, set_position; simpl;
    by destruct (e_kind x).
Qed.

Ltac touching_le :=
  let i := fresh "i" in
  intros i; unfold touching, moved, at_, dirty, join; simpl;
  repeat case_decide; subst; try done;
  match goal with H : ~ _ ∈ [_] |- _ => destruct H; by left end.

Lemma setPosition_redo_kept c pos w w' :
  (is_keypoint w c = false -> pos = None) ->
  setPosition c pos true w = Ret tt w' -> kept (touching [c]) w w'.
Proof.
  intros Hpos H. unfold setPosition, bind at 1, gets in H. cbv beta delta [id] in H.
  unfold is_keypoint in Hpos. destruct (e_kind (look w c)) eqn:Hkind.
  - eapply kept_mono; [|eapply returned_kept; [apply frame_Keypoint_setPosition|done|exact H]].
    touching_le.
  - rewrite Hpos in H by done.
    eapply kept_mono; [|eapply (returned_kept dirty); [|done|exact H]]; [touching_le|].
    unfold Bone_setPosition_. frames.
  - rewrite Hpos in H by done.
    eapply kept_mono; [|eapply (returned_kept dirty); [|done|exact H]]; [touching_le|].
    unfold Limb_setPosition_. frames.
  - rewrite Hpos in H by done.
    eapply kept_mono; [|eapply (returned_kept dirty); [|done|exact H]]; [touching_le|].
    unfold Drawable_setPosition_. frames.
  - eapply kept_mono; [|eapply (returned_kept dirty); [|done|exact H]]; [touching_le|].
    frames.
Qed.

Lemma upd_kept S e f w : frame S w (upd e f w) -> heap S = false -> kept (on S) w (upd e f w).
Proof. apply frame_kept. Qed.

Lemma applyChildDiff_redo c cd w w' :
  c < length (w_ents w) ->
  (is_keypoint w c = false -> forall p, cd_position cd = Some p -> ft_to p = None) ->
  applyChildDiff c cd RedoMode w = Ret tt w' ->
  kept (touching [c]) w w'
  /\ (forall p, cd_position cd = Some p -> is_keypoint w c = true ->
                Keypoint_getPosition w' c = ft_to p)
  /\ (forall v, cd_visible cd = Some v -> e_visible (look w' c) = ft_to v)
  /\ (forall x, cd_strokeColor cd = Some x -> e_strokeColor (look w' c) = ft_to x)
  /\ (forall x, cd_fillColor cd = Some x -> e_fillColor (look w' c) = ft_to x).
Proof.
  intros Hc Hpos. unfold applyChildDiff.
  intros ([] & wa & Ha & H)%bind_returns.
  apply bind_returns in H as ([] & wb & Hb & H).
  apply bind_returns in H as ([] & wc & Hf & Hs).
  assert (kept (touching [c]) w wa
          /\ forall p, cd_position cd = Some p -> is_keypoint w c = true ->
                       Keypoint_getPosition wa c = ft_to p) as [Ka Va].
  { destruct (cd_position cd) as [p|]; simpl in Ha.
    - split.
      + apply (setPosition_redo_kept c (ft_to p)); [|done]. intros Hk. by apply Hpos.
      + intros p' [= <-] Hk. unfold setPosition, bind at 1, gets in Ha.
        cbv beta delta [id] in Ha. unfold is_keypoint in Hk.
        destruct (e_kind (look w c)) eqn:Hkind; try done.
        apply (Keypoint_setPosition_value c (ft_to p) w); [|done].
        unfold is_keypoint. by rewrite Hkind.
    - run_inv Ha. split; [apply kept_refl|done]. }
  assert (c < length (w_ents wa)) as Hca by (destruct Ka as [-> _]; done).
  assert (kept (on (at_ c visibility)) wa wb
          /\ forall v, cd_visible cd = Some v -> e_visible (look wb c) = ft_to v) as [Kb Vb].
  { destruct (cd_visible cd) as [v|]; simpl in Hb; run_inv Hb.
    - split; [apply setVisible_kept|]. intros v' [= <-]. by apply setVisible_value.
    - split; [apply kept_refl|done]. }
  assert (c < length (w_ents wb)) as Hcb by (destruct Kb as [-> _]; done).
  destruct (in_heap _ _ Hcb) as [xb Hxb].
  assert (kept (on (at_ c fill)) wb wc
          /\ forall x, cd_fillColor cd = Some x -> e_fillColor (look wc c) = ft_to x) as [Kc Vc].
  { destruct (cd_fillColor cd) as [x|]; simpl in Hf; run_inv Hf.
    - split; [apply upd_kept; [|done]; unfold at_; frames|].
      intros x' [= <-]. by rewrite (look_upd_eq _ _ _ _ Hxb).
    - split; [apply kept_refl|done]. }
  assert (c < length (w_ents wc)) as Hcc by (destruct Kc as [-> _]; done).
  destruct (in_heap _ _ Hcc) as [xc Hxc].
  assert (kept (on (at_ c stroke)) wc w'
          /\ forall x, cd_strokeColor cd = Some x -> e_strokeColor (look w' c) = ft_to x)
    as [Kd Vd].
  { destruct (cd_strokeColor cd) as [x|]; simpl in Hs; run_inv Hs.
    - split; [apply upd_kept; [|done]; unfold at_; frames|].
      intros x' [= <-]. by rewrite (look_upd_eq _ _ _ _ Hxc).
    - split; [apply kept_refl|done]. }
  split; [|split; [|split; [|split]]].
  - eapply kept_trans; [exact Ka|]. eapply kept_trans; [|eapply kept_trans].
    + eapply kept_mono; [|exact Kb]. touching_le.
    + eapply kept_mono; [|exact Kc]. touching_le.
    + eapply kept_mono; [|exact Kd]. touching_le.
  - intros p Hp Hk. rewrite <- (Va p Hp Hk).
    rewrite (kept_position _ _ _ c Kd) by (simpl; by rewrite decide_True).
    rewrite (kept_position _ _ _ c Kc) by (simpl; by rewrite decide_True).
    by rewrite (kept_position _ _ _ c Kb) by (simpl; by rewrite decide_True).
  - intros v Hv. rewrite <- (Vb v Hv).
    rewrite (kept_visible _ _ _ c Kd) by (simpl; by rewrite decide_True).
    by rewrite (kept_visible _ _ _ c Kc) by (simpl; by rewrite decide_True).
  - done.
  - intros x Hx. rewrite <- (Vc x Hx).
    destruct (cd_strokeColor cd) as [y|]; simpl in Hs; run_inv Hs; [|done].
    by apply (look_upd_field e_fillColor).
Qed.

(** *** Replaying the child entries *)

Lemma touching_mono l l' i :
  (forall c, c ∈ l -> c ∈ l') -> fp_leb (touching l i) (touching l' i) = true.
Proof.
  intros Hsub. unfold touching. destruct (decide (i ∈ l)) as [Hi|Hi].
  - by rewrite decide_True by auto.
  - by case_decide.
Qed.

Lemma touching_out l i : i ∉ l -> touching l i = flags.
Proof. intros Hi. unfold touching. by rewrite decide_False. Qed.

Lemma named_elem map entries c :
  c ∈ named map entries -> exists n cd, (n, cd) ∈ entries /\ sget n map = Some c.
Proof.
  unfold named. intros ([n cd] & Hin & Hc)%list_elem_of_omap. by exists n, cd.
Qed.

Lemma redo_children map entries w w' :
  NoDup entries.*1 ->
  (forall n n' c, sget n map = Some c -> sget n' map = Some c -> n = n') ->
  (forall n cd c, (n, cd) ∈ entries -> sget n map = Some c ->
     c < length (w_ents w)
     /\ (is_keypoint w c = false -> forall p, cd_position cd = Some p -> ft_to p = None)) ->
  forEach entries (fun '(name, d) =>
    match sget name map with
    | Some child => applyChildDiff child d RedoMode
    | None => ret tt
    end) w = Ret tt w' ->
  kept (touching (named map entries)) w w'
  /\ forall n cd c, (n, cd) ∈ entries -> sget n map = Some c ->
       (forall p, cd_position cd = Some p -> is_keypoint w c = true ->
                  Keypoint_getPosition w' c = ft_to p)
       /\ (forall v, cd_visible cd = Some v -> e_visible (look w' c) = ft_to v)
       /\ (forall x, cd_strokeColor cd = Some x -> e_strokeColor (look w' c) = ft_to x)
       /\ (forall x, cd_fillColor cd = Some x -> is_keypoint w c = false ->
                     e_fillColor (look w' c) = ft_to x).
Proof.
  intros Hnd Hinj. revert w.
  induction entries as [|[n0 cd0] rest IH]; intros w Hpre H.
  - cbn [forEach] in H. run_inv H. split; [apply kept_refl|]. intros n cd c Hin. by apply elem_of_nil in Hin.
  - rewrite fmap_cons in Hnd. apply NoDup_cons in Hnd as [Hn0 Hrest].
    cbn [forEach] in H. apply bind_returns in H as ([] & w1 & H1 & H).
    assert (kept (touching (named map ((n0, cd0) :: rest))) w w1) as K1.
    { destruct (sget n0 map) as [c0|] eqn:Hc0.
      - destruct (Hpre n0 cd0 c0) as [Hl Hp]; [by left|done|].
        destruct (applyChildDiff_redo c0 cd0 w w1 Hl Hp H1) as [K _].
        eapply kept_mono; [|exact K]. intros i. apply touching_mono.
        intros c ->%list_elem_of_singleton. unfold named. cbn [omap list_omap fst].
        rewrite Hc0. by left.
      - run_inv H1. apply kept_refl. }
    destruct (IH Hrest w1) as [K2 V2]; [|exact H|].
    { intros n cd c Hin Hc. destruct (Hpre n cd c) as [Hl Hp]; [by right|done|].
      split; [by destruct K1 as [-> _]|]. by rewrite (kept_is_keypoint _ _ _ c K1). }
    split.
    + eapply kept_trans; [exact K1|]. eapply kept_mono; [|exact K2].
      intros i. apply touching_mono. intros c Hc. unfold named. cbn [omap list_omap fst].
      destruct (sget n0 map); [by right|done].
    + intros n cd c [Heq|Hin]%elem_of_cons Hc.
      * simplify_eq. rewrite Hc in H1.
        destruct (Hpre n0 cd0 c) as [Hl Hp]; [by left|done|].
        destruct (applyChildDiff_redo c cd0 w w1 Hl Hp H1) as (K & Vp & Vv & Vs & Vf).
        assert (touching (named map rest) c = flags) as Hout.
        { apply touching_out. intros (n' & cd' & Hin' & Hc')%named_elem.
          assert (n' = n0) as -> by (by apply (Hinj n' n0 c)).
          apply Hn0. apply list_elem_of_fmap. by exists (n0, cd'). }
        split_and!.
        -- intros p Hp' Hk. rewrite <- (Vp p Hp' Hk). apply (kept_position _ _ _ c K2).
           by rewrite Hout.
        -- intros v Hv. rewrite <- (Vv v Hv). apply (kept_visible _ _ _ c K2).
           by rewrite Hout.
        -- intros x Hx. rewrite <- (Vs x Hx). apply (kept_stroke _ _ _ c K2).
           by rewrite Hout.
        -- intros x Hx Hk. rewrite <- (Vf x Hx). apply (kept_fill _ _ _ c K2).
           ++ by rewrite Hout.
           ++ by rewrite (kept_is_keypoint _ _ _ c K).
      * destruct (V2 n cd c Hin Hc) as (Vp & Vv & Vs & Vf).
        rewrite (kept_is_keypoint _ _ _ c K1) in Vp, Vf. done.
Qed.

(** *** The steps of [applyDiff] *)

Lemma applyDiff_steps d diff mode w w' :
  applyDiff d diff mode w = Ret tt w' ->
  let a := df_attributes diff in
  exists wl w1 w2 w3 w4 w5,
    w_ents wl = w_ents w
    /\ w1 = match da_visible a with Some v => setVisible d (dir mode v) wl | None => wl end
    /\ w2 = match da_fillColor a with Some c => setFillColor d (dir mode c) w1 | None => w1 end
    /\ w3 = match da_strokeColor a with
            | Some c => setStrokeColor d (dir mode c) w2
            | None => w2
            end
    /\ match da_layer a with
       | Some l => applyLayerDiff d l mode w3
       | None => Ret tt w3
       end = Ret tt w4
    /\ forEach (df_children diff) (fun '(name, cd) =>
         match sget name (childrenMap w4 d) with
         | Some child => applyChildDiff child cd mode
         | None => ret tt
         end) w4 = Ret tt w5
    /\ w_ents w' = w_ents w5.
Proof.
  intros H a. unfold applyDiff in H. apply bind_returns in H as (w0 & w0' & H0 & H).
  unfold gets in H0. injection H0 as <- <-. cbv beta delta [id] in H.
  apply bind_returns in H as ([] & wl & Hl & H).
  apply bind_returns in H as ([] & w1 & H1 & H).
  apply bind_returns in H as ([] & w2 & H2 & H).
  apply bind_returns in H as ([] & w3 & H3 & H).
  apply bind_returns in H as ([] & w4 & H4 & H).
  apply bind_returns in H as (w4' & w4'' & H0 & H).
  unfold gets in H0. injection H0 as <- <-. cbv beta delta [id] in H.
  apply bind_returns in H as ([] & w5 & H5 & H).
  exists wl, w1, w2, w3, w4, w5. split_and!.
  - unfold when in Hl. destruct (rm_canvasManager _); run_inv Hl; done.
  - subst a. destruct (da_visible _); by run_inv H1.
  - subst a. destruct (da_fillColor _); by run_inv H2.
  - subst a. destruct (da_strokeColor _); by run_inv H3.
  - subst a. by destruct (da_layer _).
  - exact H5.
  - unfold when in H. destruct (rm_canvasManager _); run_inv H; done.
Qed.

Lemma applyDiff_kept d diff mode w w' :
  applyDiff d diff mode w = Ret tt w' -> kept (fun _ => edited) w w'.
Proof.
  intros (wl & w1 & w2 & w3 & w4 & w5 & Hl & H1 & H2 & H3 & H4 & H5 & H6)%applyDiff_steps.
  eapply kept_trans; [by apply kept_ents|].
  eapply kept_trans; [|by apply kept_ents].
  eapply (kept_trans _ _ w1).
  { subst w1. destruct (da_visible _); [|apply kept_refl].
    eapply kept_mono; [|apply setVisible_kept]. intros i. simpl. by case_decide. }
  eapply (kept_trans _ _ w2).
  { subst w2. destruct (da_fillColor _); [|apply kept_refl].
    eapply kept_mono; [|apply setFillColor_kept]. intros i. simpl. by case_decide. }
  eapply (kept_trans _ _ w3).
  { subst w3. destruct (da_strokeColor _); [|apply kept_refl].
    eapply kept_mono; [|apply setStrokeColor_kept]. intros i. simpl. by case_decide. }
  eapply (kept_trans _ _ w4).
  { destruct (da_layer _); [|simplify_eq; apply kept_refl].
    eapply kept_mono; [|eapply (returned_kept dirty); [apply frame_applyLayerDiff|done|done]].
    done. }
  eapply (returned_kept editing); [|done|exact H5].
  apply frame_forEach. intros [name cd] w6 _.
  destruct (sget name (childrenMap w4 d)); [apply frame_applyChildDiff|apply frame_refl].
Qed.

Lemma getVisible_own w e v : e_visible (look w e) = Some v -> getVisible w e None = Some v.
Proof. intros H. unfold getVisible, fuel. simpl. by rewrite H. Qed.

Lemma look_ents w w' i : w_ents w' = w_ents w -> look w' i = look w i.
Proof. intros He. unfold look, ent. by rewrite He. Qed.




(** * Further properties *)

(** ** The revision manager: states and diffs *)

Lemma is_finite_eqb a : is_finite a = true -> PrimFloat.eqb a a = true.
Proof.
  unfold is_finite.
  rewrite Floats.FloatAxioms.ltb_spec, Floats.FloatAxioms.abs_spec, Floats.FloatAxioms.eqb_spec.
  destruct (Floats.FloatOps.Prim2SF a) as [s|s| |s m e]; simpl.
  - intros _. by destruct s.
  - intros _. by destruct s.
  - intros H. by vm_compute in H.
  - intros _. unfold Floats.SpecFloat.SFeqb, Floats.SpecFloat.SFcompare.
    rewrite Z.compare_refl, Pos.compare_refl. by destruct s.
Qed.

Lemma json_num_eq_refl a : json_num_eq a a = true.
Proof.
  unfold json_num_eq. destruct (is_finite a) eqn:Hf; [|done]. by rewrite is_finite_eqb.
Qed.

Lemma json_coord_eq_refl a : json_coord_eq a a = true.
Proof. destruct a; [apply json_num_eq_refl|done]. Qed.

Lemma json_pos_eq_refl a : json_pos_eq a a = true.
Proof. destruct a as [[x y]|]; simpl; [|done]. by rewrite !json_coord_eq_refl. Qed.

Lemma obool_eqb_refl a : obool_eqb a a = true.
Proof. by destruct a as [[]|]. Qed.

Lemma ostr_eqb_refl a : ostr_eqb a a = true.
Proof. destruct a; simpl; [apply String.eqb_refl|done]. Qed.

Lemma diffChild_same cs : diffChild cs cs = None.
Proof.
  unfold diffChild.
  by rewrite json_pos_eq_refl, obool_eqb_refl, !ostr_eqb_refl.
Qed.

Lemma omap_all_None {A B} (f : A -> option B) l :
  (forall x, x ∈ l -> f x = None) -> omap f l = [].
Proof.
  induction l as [|x l IH]; intros H; [done|]. cbn [omap list_omap].
  rewrite (H x) by (by left). apply IH. intros y Hy. apply H. by right.
Qed.

Lemma diffChildren_same children : NoDup children.*1 -> diffChildren children children = [].
Proof.
  intros Hk. unfold diffChildren. apply omap_all_None. intros [n cs] Hin.
  rewrite (sget_elem _ _ _ Hk Hin). simpl. by rewrite diffChild_same.
Qed.

Lemma captured_keys w d : NoDup (st_children (captureDrawableState w d)).*1.
Proof.
  unfold captureDrawableState. cbn [st_children].
  apply (foldl_invariant (fun children : list (string * ChildState) => NoDup children.*1));
    [constructor|].
  intros children child Hk. destruct (child =? d); [done|]. by apply sset_NoDup.
Qed.

(** X1.  A state diffed against itself gives no diff: [diffStates] answers
    [null] when the old and the new state are the same dictionary, and so
    when a Drawable is captured twice with nothing done in between. *)
Theorem diffStates_same :
  (forall st, NoDup (st_children st).*1 -> diffStates st st = None)
  /\ (forall w d, diffStates (captureDrawableState w d) (captureDrawableState w d) = None).
Proof.
  assert (forall st, NoDup (st_children st).*1 -> diffStates st st = None) as H.
  { intros st Hk. unfold diffStates, diffAttributes, no_attr_diff. cbn.
    rewrite obool_eqb_refl, json_coord_eq_refl, !ostr_eqb_refl.
    by rewrite (diffChildren_same _ Hk). }
  split; [exact H|]. intros w d. apply H, captured_keys.
Qed.
